(** * NoteStream mind-map renderer: outline parser, two-sided tree layout
    and the two rendering back ends ([notestream/mindmap_renderer.py]).

    Modelling conventions.
    - A Python [str] is a [list ascii]; one [ascii] stands for one code
      point, so the model covers the code points below 256.
    - A Python [float] is an element of a type [R] with the operations of
      the class [Num].  The class has two instances: the rationals [Q]
      (exact arithmetic, on which the universally quantified theorems are
      proved) and the binary64 numbers of [PrimFloat] (what CPython
      computes, used to evaluate the code on concrete inputs).
    - The numbers the vector graphic writes are text: the class [NumText]
      has [int(v)] and the format [.2f], which rounds the exact value of
      the number to the nearest hundredth, a tie to the even one.
    - Python exceptions are values of the monad [exc].
    - The interpreter bounds the depth of nested calls.  The functions
      under the names of the source are the code as it runs while that
      bound is not reached; the module [Bounded] has the tree walks with
      the frames they take and the [RecursionError] they raise, and the
      two are proved to agree whenever the frames suffice.
    - In-place mutation of a tree the function owns ([_place_subtree],
      [_normalize_bounds]) is modelled by returning the updated value; the
      parser, which mutates nodes through references held in a stack, is
      modelled over an explicit heap of nodes. *)

From Stdlib Require Import ZArith QArith Qminmax Lqa Lia List Ascii String Bool Floats.
From Stdlib Require Import DecimalN.
From stdpp Require Import base option list gmap.
Import ListNotations.

Local Open Scope Z_scope.
Local Open Scope nat_scope.

(** ** Python exceptions *)

Inductive pyexn : Type :=
| ValueError
| IndexError
| KeyError
| ZeroDivisionError
| OverflowError
| RecursionError.

Inductive exc (A : Type) : Type :=
| Ok (a : A)
| Raise (e : pyexn).
Arguments Ok {A} a.
Arguments Raise {A} e.

Definition exc_bind {A B : Type} (m : exc A) (k : A -> exc B) : exc B :=
  match m with
  | Ok a => k a
  | Raise e => Raise e
  end.

Declare Scope exc_scope.
Delimit Scope exc_scope with exc.
Notation "'let*' x ':=' m 'in' k" := (exc_bind m (fun x => k))
  (at level 10, x name, m at level 100, k at level 200) : exc_scope.
Local Open Scope exc_scope.

(** [for x in xs: acc = step(acc, x)], where the body may raise. *)
Fixpoint exc_fold {A B : Type} (step : B -> A -> exc B) (xs : list A) (acc : B) : exc B :=
  match xs with
  | [] => Ok acc
  | x :: xs' => let* acc' := step acc x in exc_fold step xs' acc'
  end.

(** ** Python strings *)

Definition str := list ascii.

Definition lit (s : string) : str := list_ascii_of_string s.

Definition chr (n : nat) : ascii := ascii_of_nat n.
Definition ord (c : ascii) : nat := nat_of_ascii c.

Definition char_eqb (a b : ascii) : bool := Ascii.eqb a b.

(** [str.isspace] on one code point below 256, which is also the class
    [\s] of the [re] module for [str] patterns. *)
Definition isspace (c : ascii) : bool :=
  let n := ord c in
  ((9 <=? n) && (n <=? 13)) || ((28 <=? n) && (n <=? 32)) || (n =? 133) || (n =? 160).

(** The line boundaries of [str.splitlines] below code point 256. *)
Definition is_linebreak (c : ascii) : bool :=
  let n := ord c in
  ((10 <=? n) && (n <=? 13)) || ((28 <=? n) && (n <=? 30)) || (n =? 133).

Fixpoint lstrip (s : str) : str :=
  match s with
  | [] => []
  | c :: s' => if isspace c then lstrip s' else s
  end.

Definition rstrip (s : str) : str := rev (lstrip (rev s)).

Definition strip (s : str) : str := rstrip (lstrip s).

(** [str.split()] with no argument: the maximal runs of non-whitespace. *)
Fixpoint split_ws_aux (s : str) (cur : str) : list str :=
  match s with
  | [] => match cur with [] => [] | _ => [rev cur] end
  | c :: s' =>
      if isspace c
      then match cur with
           | [] => split_ws_aux s' []
           | _ => rev cur :: split_ws_aux s' []
           end
      else split_ws_aux s' (c :: cur)
  end.

Definition split_ws (s : str) : list str := split_ws_aux s [].

(** [str.splitlines()]: a carriage return followed by a line feed is one
    boundary, and a final boundary opens no empty last line. *)
Fixpoint splitlines_aux (s : str) (cur : str) : list str :=
  match s with
  | [] => match cur with [] => [] | _ => [rev cur] end
  | c :: s' =>
      if is_linebreak c
      then match s' with
           | c' :: s'' =>
               if (ord c =? 13) && (ord c' =? 10)
               then rev cur :: splitlines_aux s'' []
               else rev cur :: splitlines_aux s' []
           | [] => [rev cur]
           end
      else splitlines_aux s' (c :: cur)
  end.

Definition splitlines (s : str) : list str := splitlines_aux s [].

(** [s.replace(c, "")] for a one-character [c]. *)
Definition remove_char (c : ascii) (s : str) : str :=
  List.filter (fun d => negb (char_eqb c d)) s.

(** [s.replace(cc, "")] for a doubled character: occurrences are taken
    left to right and do not overlap. *)
Fixpoint remove_pair (c : ascii) (s : str) : str :=
  match s with
  | c1 :: ((c2 :: s'') as s') =>
      if char_eqb c c1 && char_eqb c c2 then remove_pair c s''
      else c1 :: remove_pair c s'
  | _ => s
  end.

(** [len(s.expandtabs(2))]: a tab advances to the next even column; a line
    feed or carriage return is copied and sets the column back to zero. *)
Fixpoint expandtabs2_len (s : str) (col : nat) (len : nat) : nat :=
  match s with
  | [] => len
  | c :: s' =>
      if ord c =? 9 then
        let incr := 2 - col mod 2 in
        expandtabs2_len s' (col + incr) (len + incr)
      else if (ord c =? 10) || (ord c =? 13) then expandtabs2_len s' 0 (S len)
      else expandtabs2_len s' (S col) (S len)
  end.

(** ** The two line patterns *)

(** The longest prefix of [l] on which [p] holds, and the rest: a greedy
    [c*] for a character class [c]. *)
Fixpoint span {A : Type} (p : A -> bool) (l : list A) : list A * list A :=
  match l with
  | [] => ([], [])
  | a :: l' =>
      if p a then let '(pre, rest) := span p l' in (a :: pre, rest)
      else ([], l)
  end.

(** [_BULLET_RE.match(line)]: optional whitespace (group 1), a dash or a
    star, at least one whitespace, then the rest of the line (group 2).
    Both whitespace runs are greedy and the rest is taken to the end of
    the line, which holds no line feed.  The result is [(indent, text)]. *)
Definition bullet_match (line : str) : option (str * str) :=
  let '(indent, rest) := span isspace line in
  match rest with
  | c :: rest' =>
      if char_eqb c "-" || char_eqb c "*" then
        match span isspace rest' with
        | ([], _) => None
        | (_ :: _, text) => Some (indent, text)
        end
      else None
  | [] => None
  end.

(** [_HEADING_RE.match(line)]: one to six hashes, at least one whitespace,
    then the rest of the line, which is the group returned. *)
Definition heading_match (line : str) : option str :=
  let '(hashes, rest) := span (char_eqb "#") line in
  if (1 <=? length hashes) && (length hashes <=? 6) then
    match span isspace rest with
    | ([], _) => None
    | (_ :: _, text) => Some text
    end
  else None.

(** ** [_clean_text] *)

(** [split_on_close_open s]: the shortest [t] with [s = t ++ "](" ++ r],
    as the lazy group of the link pattern finds it; [.] matches no line
    feed. *)
Fixpoint split_on_close_open (s : str) : option (str * str) :=
  match s with
  | c1 :: ((c2 :: s'') as s') =>
      if char_eqb c1 "]" && char_eqb c2 "(" then Some ([], s'')
      else if ord c1 =? 10 then None
      else match split_on_close_open s' with
           | Some (t, r) => Some (c1 :: t, r)
           | None => None
           end
  | _ => None
  end.

(** The shortest [u] with [s = u ++ ")" ++ r]. *)
Fixpoint split_on_close_paren (s : str) : option (str * str) :=
  match s with
  | [] => None
  | c :: s' =>
      if char_eqb c ")" then Some ([], s')
      else if ord c =? 10 then None
      else match split_on_close_paren s' with
           | Some (u, r) => Some (c :: u, r)
           | None => None
           end
  end.

(** A match of the link pattern (bracketed lazy group 1, then a lazy
    group 2 in parentheses) right after an opening bracket: group 1 and
    what follows the match. *)
Definition link_match (s : str) : option (str * str) :=
  match split_on_close_open s with
  | Some (text, r) =>
      match split_on_close_paren r with
      | Some (_, rest) => Some (text, rest)
      | None => None
      end
  | None => None
  end.

(** [re.sub] of the link pattern by its group 1, scanning left to right;
    the fuel bounds the number of scanning steps, [length s] suffice. *)
Fixpoint sub_links (fuel : nat) (s : str) : str :=
  match fuel, s with
  | S fuel', c :: s' =>
      if char_eqb c "[" then
        match link_match s' with
        | Some (text, rest) => text ++ sub_links fuel' rest
        | None => c :: sub_links fuel' s'
        end
      else c :: sub_links fuel' s'
  | _, _ => s
  end.

(** A match of the tag pattern (an opening angle, at least one character
    other than a closing angle, a closing angle) right after the opening
    angle: what follows the match. *)
Definition tag_match (s : str) : option str :=
  match span (fun c => negb (char_eqb c ">")) s with
  | (_ :: _, _ :: rest) => Some rest
  | _ => None
  end.

(** [re.sub] of the tag pattern by the empty string. *)
Fixpoint sub_tags (fuel : nat) (s : str) : str :=
  match fuel, s with
  | S fuel', c :: s' =>
      if char_eqb c "<" then
        match tag_match s' with
        | Some rest => sub_tags fuel' rest
        | None => c :: sub_tags fuel' s'
        end
      else c :: sub_tags fuel' s'
  | _, _ => s
  end.

(** [re.sub] of every whitespace run by one space: [in_run] tells that
    the previous character was whitespace, already replaced. *)
Fixpoint collapse_ws (in_run : bool) (s : str) : str :=
  match s with
  | [] => []
  | c :: s' =>
      if isspace c
      then if in_run then collapse_ws true s' else " "%char :: collapse_ws true s'
      else c :: collapse_ws false s'
  end.

Definition _clean_text (text : str) : str :=
  let cleaned := strip text in
  let cleaned := sub_links (length cleaned) cleaned in
  let cleaned := remove_char "`" cleaned in
  let cleaned := remove_pair "*" cleaned in
  let cleaned := remove_pair "_" cleaned in
  let cleaned := remove_char "*" cleaned in
  let cleaned := sub_tags (length cleaned) cleaned in
  strip (collapse_ws false cleaned).

(** ** [_wrap_text] *)

(** The slices [s[0:n]], [s[n:2n]], ... of a non-empty [s]; the fuel bounds
    their number, [length s] suffice when [n] is positive. *)
Fixpoint chunks (fuel : nat) (n : nat) (s : str) : list str :=
  match fuel, s with
  | S fuel', _ :: _ => take n s :: chunks fuel' n (drop n s)
  | _, _ => []
  end.

(** [[s[i : i + step] for i in range(0, len(s), step)]]: [range] raises
    for a zero step and is empty for a negative one. *)
Definition slices (s : str) (step : Z) : exc (list str) :=
  if (step =? 0)%Z then Raise ValueError
  else if (step <? 0)%Z then Ok []
  else Ok (chunks (length s) (Z.to_nat step) s).

Definition len (s : str) : Z := Z.of_nat (length s).

(** [lines.append(current)] under [if current:]. *)
Definition flush (lines : list str) (current : str) : list str :=
  match current with
  | [] => lines
  | _ :: _ => lines ++ [current]
  end.

(** One turn of the loop over the words; the state is [(lines, current)]. *)
Definition wrap_word (max_chars : Z) (st : list str * str) (word : str)
  : exc (list str * str) :=
  let '(lines, current) := st in
  if (max_chars <? len word)%Z then
    let lines := flush lines current in
    let* pieces := slices word max_chars in
    Ok (lines ++ pieces, [])
  else
    match current with
    | [] => Ok (lines, word)
    | _ :: _ =>
        let candidate := current ++ lit " " ++ word in
        if (len candidate <=? max_chars)%Z then Ok (lines, candidate)
        else Ok (lines ++ [current], word)
    end.

Definition has_space (s : str) : bool := existsb (char_eqb " ") s.

Definition _wrap_text (text : str) (max_chars : Z) : exc (list str) :=
  let text := strip text in
  match text with
  | [] => Ok [[]]
  | _ :: _ =>
      if negb (has_space text) && (max_chars <? len text)%Z then
        let* pieces := slices text max_chars in
        Ok (take 6 pieces)
      else
        let* st := exc_fold (wrap_word max_chars) (split_ws text) ([], []) in
        let '(lines, current) := st in
        Ok (take 6 (flush lines current))
  end.

(** ** Numbers *)

Class Num (R : Type) : Type := {
  of_Z : Z -> R;
  nadd : R -> R -> R;
  nsub : R -> R -> R;
  nmul : R -> R -> R;
  ndiv : R -> R -> R;
  nopp : R -> R;
  nltb : R -> R -> bool;
  nleb : R -> R -> bool;
  neqb : R -> R -> bool
}.

Declare Scope num_scope.
Delimit Scope num_scope with num.
Infix "+" := nadd : num_scope.
Infix "-" := nsub : num_scope.
Infix "*" := nmul : num_scope.
Infix "/" := ndiv : num_scope.
Notation "- a" := (nopp a) : num_scope.
Infix "<?" := nltb : num_scope.
Infix "<=?" := nleb : num_scope.
Infix "=?" := neqb : num_scope.

Definition Qltb (a b : Q) : bool := negb (Qle_bool b a).

#[export] Instance Q_Num : Num Q := {|
  of_Z := inject_Z;
  nadd := Qplus;
  nsub := Qminus;
  nmul := Qmult;
  ndiv := Qdiv;
  nopp := Qopp;
  nltb := Qltb;
  nleb := Qle_bool;
  neqb := Qeq_bool
|}.

(** The conversion of a Python [int] to binary64, exact below 2^53. *)
Definition float_of_Z (z : Z) : float :=
  match z with
  | Z0 => PrimFloat.zero
  | Zpos _ => PrimFloat.of_uint63 (Uint63.of_Z z)
  | Zneg p => PrimFloat.opp (PrimFloat.of_uint63 (Uint63.of_Z (Zpos p)))
  end.

#[export] Instance float_Num : Num float := {|
  of_Z := float_of_Z;
  nadd := PrimFloat.add;
  nsub := PrimFloat.sub;
  nmul := PrimFloat.mul;
  ndiv := PrimFloat.div;
  nopp := PrimFloat.opp;
  nltb := PrimFloat.ltb;
  nleb := PrimFloat.leb;
  neqb := PrimFloat.eqb
|}.

(** ** Numbers as text *)

(** How the vector graphic writes a number: [int(v)], which raises on a
    value that is not finite, and [f"{v:.2f}"]. *)
Class NumText (R : Type) : Type := {
  py_int : R -> exc Z;
  format_2f : R -> list ascii
}.

Fixpoint uint_text (d : Decimal.uint) : list ascii :=
  match d with
  | Decimal.Nil => []
  | Decimal.D0 d' => "0"%char :: uint_text d'
  | Decimal.D1 d' => "1"%char :: uint_text d'
  | Decimal.D2 d' => "2"%char :: uint_text d'
  | Decimal.D3 d' => "3"%char :: uint_text d'
  | Decimal.D4 d' => "4"%char :: uint_text d'
  | Decimal.D5 d' => "5"%char :: uint_text d'
  | Decimal.D6 d' => "6"%char :: uint_text d'
  | Decimal.D7 d' => "7"%char :: uint_text d'
  | Decimal.D8 d' => "8"%char :: uint_text d'
  | Decimal.D9 d' => "9"%char :: uint_text d'
  end.

(** The decimal digits of [n], the most significant first. *)
Definition decimal_digits (n : N) : list ascii := uint_text (N.to_uint n).

(** The number of hundredths nearest to the magnitude of [q], a tie
    going to the even one: the rounding of the format [.2f]. *)
Definition hundredths (q : Q) : N :=
  let n := (Z.abs_N (Qnum q) * 100)%N in
  let d := Npos (Qden q) in
  let k := (n / d)%N in
  let r := (n mod d)%N in
  match (2 * r ?= d)%N with
  | Lt => k
  | Gt => (k + 1)%N
  | Eq => if N.even k then k else (k + 1)%N
  end.

(** The magnitude of [q] with two decimals. *)
Definition fixed_2 (q : Q) : list ascii :=
  let h := hundredths q in
  let cents := (h mod 100)%N in
  decimal_digits (h / 100)
    ++ "."%char :: (if (cents <? 10)%N then ["0"%char] else []) ++ decimal_digits cents.

Definition sign_text (negative : bool) : list ascii :=
  if negative then ["-"%char] else [].

(** A negative number keeps its sign when it rounds to zero. *)
Definition format_2f_Q (q : Q) : list ascii :=
  sign_text (Qnum q <? 0)%Z ++ fixed_2 q.

(** [int(v)] truncates towards zero. *)
Definition py_int_Q (q : Q) : exc Z := Ok (Z.quot (Qnum q) (Zpos (Qden q))).

#[export] Instance Q_NumText : NumText Q := {|
  py_int := py_int_Q;
  format_2f := format_2f_Q
|}.

(** The number a text with a decimal point denotes, as a reader of the
    document takes it: an optional sign, digits, the point, digits. *)
Definition digit_value (c : ascii) : option N :=
  let code := N_of_ascii c in
  if ((48 <=? code) && (code <=? 57))%N then Some (code - 48)%N else None.

Fixpoint digits_value (acc : N) (s : list ascii) : option N :=
  match s with
  | [] => Some acc
  | c :: s' =>
      match digit_value c with
      | Some d => digits_value (10 * acc + d) s'
      | None => None
      end
  end.

Definition decimal_value (text : list ascii) : option Q :=
  let '(negative, body) :=
    match text with
    | c :: rest => if char_eqb c "-" then (true, rest) else (false, text)
    | [] => (false, text)
    end in
  let '(whole, rest) := span (fun c => negb (char_eqb c ".")) body in
  match rest with
  | _ :: fraction =>
      match digits_value 0 whole, digits_value 0 fraction with
      | Some w, Some f =>
          let v := (inject_Z (Z.of_N w)
                    + inject_Z (Z.of_N f) / inject_Z (10 ^ Z.of_nat (length fraction)))%Q in
          Some (if negative then Qopp v else v)
      | _, _ => None
      end
  | [] => None
  end.

(** The magnitude of a finite binary64 number, [m * 2^e]. *)
Definition magnitude (m : positive) (e : Z) : Q :=
  match e with
  | Z0 => inject_Z (Zpos m)
  | Zpos p => inject_Z (Zpos m * 2 ^ Zpos p)
  | Zneg p => Qmake (Zpos m) (2 ^ p)
  end.

Definition py_int_float (f : float) : exc Z :=
  match Prim2SF f with
  | S754_zero _ => Ok 0%Z
  | S754_infinity _ => Raise OverflowError
  | S754_nan => Raise ValueError
  | S754_finite negative m e =>
      let whole := Z.quot (Qnum (magnitude m e)) (Zpos (Qden (magnitude m e))) in
      Ok (if negative then - whole else whole)%Z
  end.

(** The format rounds the exact value of the number. *)
Definition format_2f_float (f : float) : list ascii :=
  match Prim2SF f with
  | S754_zero negative => sign_text negative ++ fixed_2 0
  | S754_infinity negative =>
      sign_text negative ++ ["i"%char; "n"%char; "f"%char]
  | S754_nan => ["n"%char; "a"%char; "n"%char]
  | S754_finite negative m e => sign_text negative ++ fixed_2 (magnitude m e)
  end.

#[export] Instance float_NumText : NumText float := {|
  py_int := py_int_float;
  format_2f := format_2f_float
|}.

(** ** The data model *)

#[warnings="-register-all"]
Inductive MindMapNode : Type :=
| MkMindMapNode (title : str) (children : list MindMapNode).

Definition mm_title (n : MindMapNode) : str :=
  match n with MkMindMapNode title _ => title end.

Definition mm_children (n : MindMapNode) : list MindMapNode :=
  match n with MkMindMapNode _ children => children end.

#[warnings="-register-all"]
Inductive _RenderNode (R : Type) : Type :=
| MkRenderNode (node_id : nat) (title : str) (depth : nat)
    (children : list (_RenderNode R)) (lines : list str)
    (width height x y : R).
Arguments MkRenderNode {R}.

Record PositionedNode (R : Type) : Type := MkPositionedNode {
  node_id : nat;
  title : str;
  lines : list str;
  depth : nat;
  x : R;
  y : R;
  width : R;
  height : R
}.
Arguments MkPositionedNode {R}.
Arguments node_id {R}.
Arguments title {R}.
Arguments lines {R}.
Arguments depth {R}.
Arguments x {R}.
Arguments y {R}.
Arguments width {R}.
Arguments height {R}.

Record MindMapLayout (R : Type) : Type := MkMindMapLayout {
  layout_width : R;
  layout_height : R;
  nodes : list (PositionedNode R);
  edges : list (nat * nat)
}.
Arguments MkMindMapLayout {R}.
Arguments layout_width {R}.
Arguments layout_height {R}.
Arguments nodes {R}.
Arguments edges {R}.

Section Fields.
Context {R : Type}.

Definition rn_id (n : _RenderNode R) : nat :=
  match n with MkRenderNode i _ _ _ _ _ _ _ _ => i end.
Definition rn_title (n : _RenderNode R) : str :=
  match n with MkRenderNode _ t _ _ _ _ _ _ _ => t end.
Definition rn_depth (n : _RenderNode R) : nat :=
  match n with MkRenderNode _ _ d _ _ _ _ _ _ => d end.
Definition rn_children (n : _RenderNode R) : list (_RenderNode R) :=
  match n with MkRenderNode _ _ _ cs _ _ _ _ _ => cs end.
Definition rn_lines (n : _RenderNode R) : list str :=
  match n with MkRenderNode _ _ _ _ ls _ _ _ _ => ls end.
Definition rn_width (n : _RenderNode R) : R :=
  match n with MkRenderNode _ _ _ _ _ w _ _ _ => w end.
Definition rn_height (n : _RenderNode R) : R :=
  match n with MkRenderNode _ _ _ _ _ _ h _ _ => h end.
Definition rn_x (n : _RenderNode R) : R :=
  match n with MkRenderNode _ _ _ _ _ _ _ x _ => x end.
Definition rn_y (n : _RenderNode R) : R :=
  match n with MkRenderNode _ _ _ _ _ _ _ _ y => y end.
End Fields.

(** ** [parse_mind_map_markdown] *)

(** [not heading_title], for a value that is [None] or a string. *)
Definition falsy (t : option str) : bool :=
  match t with
  | None | Some [] => true
  | Some (_ :: _) => false
  end.

(** One turn of the loop over the lines; the state is
    [(heading_title, bullets)]. *)
Definition scan_line (st : option str * list (nat * str)) (raw_line : str)
  : option str * list (nat * str) :=
  let '(heading_title, bullets) := st in
  let heading_title :=
    match heading_match (strip raw_line) with
    | Some group => if falsy heading_title then Some (_clean_text group) else heading_title
    | None => heading_title
    end in
  match bullet_match raw_line with
  | None => (heading_title, bullets)
  | Some (group1, group2) =>
      let indent := expandtabs2_len group1 0 0 in
      let text := _clean_text group2 in
      match text with
      | [] => (heading_title, bullets)
      | _ :: _ => (heading_title, bullets ++ [(indent, text)])
      end
  end.

Definition scan (markdown : str) : option str * list (nat * str) :=
  fold_left scan_line (splitlines markdown) (None, []).

(** The [MindMapNode] objects of one call live in a heap; an object is its
    title and the references of its children, a reference is an index. *)
Record obj : Type := MkObj { o_title : str; o_children : list nat }.

Abbreviation heap := (list obj).

Definition append_child (child : nat) (o : obj) : obj :=
  {| o_title := o_title o; o_children := o_children o ++ [child] |}.

(** [while len(stack) > 1 and depth <= stack[-1][0]: stack.pop()];
    the top of the stack is the head of the list. *)
Fixpoint pop_deeper (depth : Z) (stack : list (Z * nat)) : list (Z * nat) :=
  match stack with
  | (d, _) :: ((_ :: _) as rest) =>
      if (depth <=? d)%Z then pop_deeper depth rest else stack
  | _ => stack
  end.

(** One turn of the loop over the bullets; the state is [(heap, stack)]. *)
Definition attach (st : heap * list (Z * nat)) (bullet : nat * str)
  : exc (heap * list (Z * nat)) :=
  let '(h, stack) := st in
  let '(depth, text) := bullet in
  let node := length h in
  let h := h ++ [MkObj text []] in
  let stack := pop_deeper (Z.of_nat depth) stack in
  match stack with
  | [] => Raise IndexError
  | (_, parent) :: _ =>
      Ok (alter (append_child node) parent h, (Z.of_nat depth, node) :: stack)
  end.

(** The tree an object stands for; the fuel bounds the depth followed, and
    a dangling reference or the end of the fuel reads as an empty node. *)
Fixpoint read_node (fuel : nat) (h : heap) (ref : nat) : MindMapNode :=
  match fuel with
  | O => MkMindMapNode [] []
  | S fuel' =>
      match h !! ref with
      | Some o => MkMindMapNode (o_title o) (map (read_node fuel' h) (o_children o))
      | None => MkMindMapNode [] []
      end
  end.

Definition min_indent (first : nat) (bullets : list (nat * str)) : nat :=
  fold_left (fun m b => Nat.min m (fst b)) bullets first.

(** [[((indent - min_indent) // 2, text) for indent, text in bullets]] *)
Definition normalize_depths (first : nat) (bullets : list (nat * str)) : list (nat * str) :=
  let low := min_indent first bullets in
  map (fun b => ((fst b - low) / 2, snd b)) bullets.

Definition pseudo_root : nat := 0.

(** The heap and the stack before the loop over the bullets. *)
Definition initial_state : heap * list (Z * nat) :=
  ([MkObj (lit "__pseudo__") []], [((-1)%Z, pseudo_root)]).

Definition parse_mind_map_markdown (markdown : str) : exc (option MindMapNode) :=
  let '(heading_title, bullets) := scan markdown in
  match bullets with
  | [] => Ok None
  | (first, _) :: _ =>
      let normalized := normalize_depths first bullets in
      let* st := exc_fold attach normalized initial_state in
      let '(h, _) := st in
      let top := match h !! pseudo_root with Some o => o_children o | None => [] end in
      let trees := map (read_node (length h) h) top in
      match trees with
      | [only] => Ok (Some only)
      | _ =>
          let title := if falsy heading_title then lit "Mind Map" else default [] heading_title in
          Ok (Some (MkMindMapNode title trees))
      end
  end.

(** ** Sizing and layout *)

Section Layout.
Context {R : Type} {num : Num R}.
Local Open Scope num_scope.

Definition of_nat (n : nat) : R := of_Z (Z.of_nat n).

Definition H_STEP : R := of_Z 420.
Definition V_GAP : R := of_Z 26.
Definition TOP_LEVEL_GAP : R := of_Z 48.
Definition MARGIN : R := of_Z 130.
Definition MIN_NODE_WIDTH : R := of_Z 135.
Definition MAX_NODE_WIDTH : R := of_Z 360.
Definition LINE_HEIGHT : R := of_Z 16.
Definition NODE_PADDING_X : R := of_Z 28.
Definition NODE_PADDING_Y : R := of_Z 14.
(** The literal [6.8]. *)
Definition GLYPH_WIDTH : R := of_Z 68 / of_Z 10.
Definition two : R := of_Z 2.

(** [max(a, b)] and [min(a, b)]: the first argument stays unless the
    second is strictly beyond it. *)
Definition py_max (a b : R) : R := if a <? b then b else a.
Definition py_min (a b : R) : R := if b <? a then b else a.

(** [sum(...)], which starts from the integer [0]. *)
Definition py_sum (l : list R) : R := fold_left nadd l (of_Z 0).

(** [min(...)] and [max(...)] of a sequence raise on an empty one. *)
Definition py_min_of (l : list R) : exc R :=
  match l with
  | [] => Raise ValueError
  | a :: l' => Ok (fold_left py_min l' a)
  end.

Definition py_max_of (l : list R) : exc R :=
  match l with
  | [] => Raise ValueError
  | a :: l' => Ok (fold_left py_max l' a)
  end.

(** [a / b] for a divisor that is not a literal. *)
Definition py_div (a b : R) : exc R :=
  if b =? of_Z 0 then Raise ZeroDivisionError else Ok (a / b).

(** [max((len(line) for line in wrapped), default=0)] *)
Definition longest (wrapped : list str) : nat :=
  fold_left (fun m line => Nat.max m (length line)) wrapped 0%nat.

Definition wrap_width (depth : nat) : Z := Z.max 14 (24 - Z.of_nat depth).

(** [visit] of [_decorate_tree]; the counter is passed along and
    returned. *)
Fixpoint visit (current : MindMapNode) (depth : nat) (counter : nat)
  : exc (_RenderNode R * nat) :=
  match current with
  | MkMindMapNode title children =>
      let node_id := counter in
      let counter := S counter in
      let* wrapped := _wrap_text title (wrap_width depth) in
      let text_width := of_nat (longest wrapped) * GLYPH_WIDTH in
      let width := py_max MIN_NODE_WIDTH (py_min MAX_NODE_WIDTH (text_width + NODE_PADDING_X)) in
      let height := py_max (of_Z 40) (NODE_PADDING_Y + of_nat (length wrapped) * LINE_HEIGHT) in
      let* out :=
        (fix visit_all (cs : list MindMapNode) (counter : nat)
           : exc (list (_RenderNode R) * nat) :=
           match cs with
           | [] => Ok ([], counter)
           | child :: cs' =>
               let* r := visit child (S depth) counter in
               let* rs := visit_all cs' (snd r) in
               Ok (fst r :: fst rs, snd rs)
           end) children counter in
      Ok (MkRenderNode node_id title depth (fst out) wrapped width height (of_Z 0) (of_Z 0),
          snd out)
  end.

Definition _decorate_tree (node : MindMapNode) : exc (_RenderNode R) :=
  let* r := visit node 0 0 in Ok (fst r).

Fixpoint _subtree_height (node : _RenderNode R) : R :=
  match node with
  | MkRenderNode _ _ _ children _ _ height _ _ =>
      match children with
      | [] => height
      | _ :: _ =>
          let children_height := py_sum (map _subtree_height children) in
          let children_height :=
            children_height + V_GAP * of_Z (Z.of_nat (length children) - 1) in
          py_max height children_height
      end
  end.

(** One turn of the loop of [_split_top_level_children]; the state is
    [(left, right, left_height, right_height)]. *)
Definition split_step (st : list (_RenderNode R) * list (_RenderNode R) * R * R)
    (child : _RenderNode R) :=
  let '(left_, right_, left_height, right_height) := st in
  let h := _subtree_height child in
  if left_height <=? right_height
  then (left_ ++ [child], right_, left_height + h, right_height)
  else (left_, right_ ++ [child], left_height, right_height + h).

(** The two repairs that follow the loop. *)
Definition repair_empty (groups : list (_RenderNode R) * list (_RenderNode R))
  : list (_RenderNode R) * list (_RenderNode R) :=
  let '(left_, right_) := groups in
  let '(left_, right_) :=
    match left_ with
    | [] => (take 1 right_, drop 1 right_)
    | _ :: _ => (left_, right_)
    end in
  match right_ with
  | [] => (drop 1 left_, take 1 left_)
  | _ :: _ => (left_, right_)
  end.

Definition _split_top_level_children (children : list (_RenderNode R))
  : list (_RenderNode R) * list (_RenderNode R) :=
  let '(left_, right_, _, _) :=
    fold_left split_step children ([], [], of_Z 0, of_Z 0) in
  repair_empty (left_, right_).

(** The loop shared by [_place_subtree] and [place_side]: successive
    siblings get the centers of stacked bands, [gap] apart. *)
Fixpoint place_stacked (place : _RenderNode R -> R -> _RenderNode R) (gap : R)
    (children : list (_RenderNode R)) (start : R) : list (_RenderNode R) :=
  match children with
  | [] => []
  | child :: rest =>
      let child_height := _subtree_height child in
      let child_center := start + child_height / two in
      place child child_center
        :: place_stacked place gap rest (start + (child_height + gap))
  end.

(** [_place_subtree] returns the node with [x] and [y] set in its whole
    subtree.  The division is by the length of a non-empty list. *)
Fixpoint _place_subtree (node : _RenderNode R) (side : Z) (depth : Z) (center_y : R)
  : _RenderNode R :=
  match node with
  | MkRenderNode node_id title d children lines width height _ _ =>
      let x := of_Z (side * depth) * H_STEP in
      match children with
      | [] => MkRenderNode node_id title d [] lines width height x center_y
      | _ :: _ =>
          let total := py_sum (map _subtree_height children) in
          let total := total + V_GAP * of_Z (Z.of_nat (length children) - 1) in
          let start := center_y - total / two in
          let placed :=
            place_stacked (fun child c => _place_subtree child side (depth + 1) c)
              V_GAP children start in
          let child_centers := map rn_y placed in
          let y := py_sum child_centers / of_nat (length child_centers) in
          MkRenderNode node_id title d placed lines width height x y
      end
  end.

Definition positioned (node : _RenderNode R) : PositionedNode R :=
  match node with
  | MkRenderNode node_id title depth _ lines width height x y =>
      MkPositionedNode node_id title lines depth x y width height
  end.

(** [dfs] of [_collect_nodes]; the two lists it appends to are passed
    along and returned. *)
Fixpoint dfs (node : _RenderNode R) (st : list (PositionedNode R) * list (nat * nat))
  : list (PositionedNode R) * list (nat * nat) :=
  match node with
  | MkRenderNode node_id _ _ children _ _ _ _ _ =>
      fold_left
        (fun st child => dfs child (fst st, snd st ++ [(node_id, rn_id child)]))
        children
        (fst st ++ [positioned node], snd st)
  end.

Definition _collect_nodes (root : _RenderNode R)
  : list (PositionedNode R) * list (nat * nat) :=
  dfs root ([], []).

Definition shift_node (shift_x shift_y : R) (node : PositionedNode R) : PositionedNode R :=
  MkPositionedNode (node_id node) (title node) (lines node) (depth node)
    (x node + shift_x) (y node + shift_y) (width node) (height node).

(** [_normalize_bounds] returns the shifted list with the canvas size. *)
Definition _normalize_bounds (nodes : list (PositionedNode R))
  : exc (list (PositionedNode R) * R * R) :=
  let* min_x := py_min_of (map (fun node => x node - width node / two) nodes) in
  let* max_x := py_max_of (map (fun node => x node + width node / two) nodes) in
  let* min_y := py_min_of (map (fun node => y node - height node / two) nodes) in
  let* max_y := py_max_of (map (fun node => y node + height node / two) nodes) in
  let shift_x := MARGIN - min_x in
  let shift_y := MARGIN - min_y in
  let nodes := map (shift_node shift_x shift_y) nodes in
  let width := (max_x - min_x) + MARGIN * two in
  let height := (max_y - min_y) + MARGIN * two in
  Ok (nodes, width, height).

(** [place_side] of [_compute_layout]. *)
Definition place_side (children : list (_RenderNode R)) (side : Z)
  : list (_RenderNode R) :=
  match children with
  | [] => []
  | _ :: _ =>
      let total := py_sum (map _subtree_height children) in
      let total := total + TOP_LEVEL_GAP * of_Z (Z.of_nat (length children) - 1) in
      let start := - total / two in
      place_stacked (fun child c => _place_subtree child side 1 c)
        TOP_LEVEL_GAP children start
  end.

(** The two groups hold the very objects of [root.children]; the object
    of a child is found again by its identifier. *)
Definition same_object (placed : list (_RenderNode R)) (child : _RenderNode R)
  : _RenderNode R :=
  default child (List.find (fun p => Nat.eqb (rn_id p) (rn_id child)) placed).

(** The part of [_compute_layout] that sets the coordinates in the tree. *)
Definition place_root (root : _RenderNode R) : _RenderNode R :=
  match root with
  | MkRenderNode node_id title depth children lines width height _ _ =>
      match children with
      | [] => MkRenderNode node_id title depth [] lines width height (of_Z 0) (of_Z 0)
      | _ :: _ =>
          let '(left_children, right_children) := _split_top_level_children children in
          let left_placed := place_side left_children (-1) in
          let right_placed := place_side right_children 1 in
          MkRenderNode node_id title depth
            (map (same_object (left_placed ++ right_placed)) children)
            lines width height (of_Z 0) (of_Z 0)
      end
  end.

Definition _compute_layout (root_node : MindMapNode) : exc (MindMapLayout R) :=
  let* root := _decorate_tree root_node in
  let root := place_root root in
  let '(nodes, edges) := _collect_nodes root in
  let* normalized := _normalize_bounds nodes in
  let '(nodes, width, height) := normalized in
  Ok (MkMindMapLayout width height nodes edges).

End Layout.

(** ** The two renderers *)

(** The pieces of the vector-graphic document.  The canvas size is
    written as [int(...)], every other number as text with two decimals,
    and [dy] as the text of [0] or of [LINE_HEIGHT]. *)
Inductive svg_elem : Type :=
| SvgOpen (canvas_width canvas_height : Z)
| SvgBackground
| SvgLine (x1 y1 x2 y2 : str)
| SvgRect (rx ry rwidth rheight : str) (fill stroke : string)
| SvgTextOpen (tx ty : str)
| SvgTspan (tx dy : str) (text : str)
| SvgTextClose
| SvgClose.

(** The shapes of the page drawing (reportlab's [Line], [Rect], [String]). *)
Inductive shape (R : Type) : Type :=
| Line (x1 y1 x2 y2 : R)
| Rect (rx ry rwidth rheight : R) (fill stroke : string)
| Label (tx ty : R) (text : str).
Arguments Line {R}.
Arguments Rect {R}.
Arguments Label {R}.

(** reportlab's [Drawing]: its extent, its contents in the order they
    were added, and the scaling of its transform. *)
Record Drawing (R : Type) : Type := MkDrawing {
  d_width : R;
  d_height : R;
  d_contents : list (shape R);
  d_scale : R * R
}.
Arguments MkDrawing {R}.
Arguments d_width {R}.
Arguments d_height {R}.
Arguments d_contents {R}.
Arguments d_scale {R}.

Fixpoint exc_map {A B : Type} (f : A -> exc B) (l : list A) : exc (list B) :=
  match l with
  | [] => Ok []
  | a :: l' =>
      let* b := f a in
      let* bs := exc_map f l' in
      Ok (b :: bs)
  end.

(** [html.escape(line, quote=False)] *)
Definition html_escape (line : str) : str :=
  flat_map (fun c =>
    if char_eqb c "&" then lit "&amp;"
    else if char_eqb c "<" then lit "&lt;"
    else if char_eqb c ">" then lit "&gt;"
    else [c]) line.

Definition _palette (depth : nat) : string * string :=
  let fills := ["#dbeafe"; "#e2e8f0"; "#fef3c7"; "#dcfce7"; "#fee2e2"; "#ede9fe"]%string in
  let strokes := ["#1d4ed8"; "#334155"; "#b45309"; "#166534"; "#b91c1c"; "#6d28d9"]%string in
  let idx := Nat.min depth (length fills - 1) in
  (nth idx fills ""%string, nth idx strokes ""%string).

Section Render.
Context {R : Type} {num : Num R} {txt : NumText R}.
Local Open Scope num_scope.

(** [{node.node_id: node for node in layout.nodes}] *)
Definition index_by_id (nodes : list (PositionedNode R)) : gmap nat (PositionedNode R) :=
  fold_left (fun m node => <[node_id node := node]> m) nodes ∅.

(** [by_id[key]] *)
Definition getitem (by_id : gmap nat (PositionedNode R)) (key : nat)
  : exc (PositionedNode R) :=
  match by_id !! key with
  | Some node => Ok node
  | None => Raise KeyError
  end.

Definition base_y (node : PositionedNode R) : R :=
  y node - of_Z (Z.of_nat (length (lines node)) - 1) * (LINE_HEIGHT / two).

Definition svg_edge (by_id : gmap nat (PositionedNode R)) (edge : nat * nat)
  : exc svg_elem :=
  let* parent := getitem by_id (fst edge) in
  let* child := getitem by_id (snd edge) in
  Ok (SvgLine (format_2f (x parent)) (format_2f (y parent))
              (format_2f (x child)) (format_2f (y child))).

Definition svg_rect (node : PositionedNode R) : svg_elem :=
  let '(fill, stroke) := _palette (depth node) in
  let x_left := x node - width node / two in
  let y_top := y node - height node / two in
  SvgRect (format_2f x_left) (format_2f y_top)
    (format_2f (width node)) (format_2f (height node)) fill stroke.

(** [dy] is the integer [0] on the first line and the float
    [LINE_HEIGHT] on the others, written as they are. *)
Definition svg_tspans (node : PositionedNode R) : list svg_elem :=
  imap (fun idx line =>
          SvgTspan (format_2f (x node))
            (match idx with O => lit "0" | S _ => lit "16.0" end)
            (html_escape line))
    (lines node).

Definition svg_node (node : PositionedNode R) : list svg_elem :=
  [svg_rect node; SvgTextOpen (format_2f (x node)) (format_2f (base_y node))]
    ++ svg_tspans node ++ [SvgTextClose].

(** [render_mind_map_svg] from the layout on. *)
Definition svg_document (layout : MindMapLayout R) : exc (list svg_elem) :=
  let by_id := index_by_id (nodes layout) in
  let* canvas_width := py_int (layout_width layout) in
  let* canvas_height := py_int (layout_height layout) in
  let parts := [SvgOpen canvas_width canvas_height; SvgBackground] in
  let* lines_ := exc_map (svg_edge by_id) (edges layout) in
  let parts := parts ++ lines_ in
  let parts := parts ++ flat_map svg_node (nodes layout) in
  Ok (parts ++ [SvgClose]).

Definition render_mind_map_svg (markdown : str) : exc (option (list svg_elem)) :=
  let* root := parse_mind_map_markdown markdown in
  match root with
  | None => Ok None
  | Some root =>
      let* layout := _compute_layout root in
      let* parts := svg_document layout in
      Ok (Some parts)
  end.

Definition drawing_edge (layout : MindMapLayout R) (by_id : gmap nat (PositionedNode R))
    (edge : nat * nat) : exc (shape R) :=
  let* parent := getitem by_id (fst edge) in
  let* child := getitem by_id (snd edge) in
  Ok (Line (x parent) (layout_height layout - y parent)
           (x child) (layout_height layout - y child)).

Definition drawing_rect (layout : MindMapLayout R) (node : PositionedNode R) : shape R :=
  let '(fill, stroke) := _palette (depth node) in
  let x_left := x node - width node / two in
  let y_bottom := layout_height layout - (y node + height node / two) in
  Rect x_left y_bottom (width node) (height node) fill stroke.

Definition drawing_labels (layout : MindMapLayout R) (node : PositionedNode R)
  : list (shape R) :=
  let base_svg_y := base_y node in
  imap (fun idx text =>
          let y_svg := base_svg_y + of_nat idx * LINE_HEIGHT in
          let y_pdf := layout_height layout - y_svg - of_Z 4 in
          Label (x node) y_pdf text)
    (lines node).

Definition drawing_node (layout : MindMapLayout R) (node : PositionedNode R)
  : list (shape R) :=
  drawing_rect layout node :: drawing_labels layout node.

(** The truth value of an optional number: [None] and zero are false. *)
Definition truthy (v : option R) : bool :=
  match v with
  | Some a => negb (a =? of_Z 0)
  | None => false
  end.

(** The factor a bound contributes to [factors], if it is a true value. *)
Definition factor (bound : option R) (extent : R) : exc (list R) :=
  match bound with
  | Some a => if truthy bound then let* f := py_div a extent in Ok [f] else Ok []
  | None => Ok []
  end.

(** The last block of [render_mind_map_drawing]. *)
Definition downscale (drawing : Drawing R) (max_width max_height : option R)
  : exc (Drawing R) :=
  if truthy max_width || truthy max_height then
    let* fw := factor max_width (d_width drawing) in
    let* fh := factor max_height (d_height drawing) in
    let* scale := py_min_of ([of_Z 1] ++ fw ++ fh) in
    if scale <? of_Z 1 then
      Ok (MkDrawing (d_width drawing * scale) (d_height drawing * scale)
            (d_contents drawing)
            (fst (d_scale drawing) * scale, snd (d_scale drawing) * scale))
    else Ok drawing
  else Ok drawing.

Definition render_mind_map_drawing (markdown : str) (max_width max_height : option R)
  : exc (option (Drawing R)) :=
  let* root := parse_mind_map_markdown markdown in
  match root with
  | None => Ok None
  | Some root =>
      let* layout := _compute_layout root in
      let by_id := index_by_id (nodes layout) in
      let* lines_ := exc_map (drawing_edge layout by_id) (edges layout) in
      let contents := lines_ ++ flat_map (drawing_node layout) (nodes layout) in
      let drawing :=
        MkDrawing (layout_width layout) (layout_height layout) contents (of_Z 1, of_Z 1) in
      let* drawing := downscale drawing max_width max_height in
      Ok (Some drawing)
  end.

End Render.

(** ** The tree walks under the bound on nested calls *)

(** The levels of an outline: one for a node without children. *)
Fixpoint mm_height (t : MindMapNode) : nat :=
  match t with
  | MkMindMapNode _ children => S (list_max (map mm_height children))
  end.

Fixpoint rn_levels {R : Type} (node : _RenderNode R) : nat :=
  match node with
  | MkRenderNode _ _ _ children _ _ _ _ _ => S (list_max (map rn_levels children))
  end.

(** CPython raises [RecursionError] at a call that would nest deeper than
    its limit allows.  Every function below takes [frames], the number of
    calls that may still nest when it is called, and its own call takes
    one of them.  Counted are the calls on the way to a tree walk and the
    calls of the walks: a function of the module, and the frame in which
    a list comprehension or a generator expression runs (CPython before
    3.12 for the comprehension; the generator in every version).  Calls
    that return without walking the tree (the parser, [_wrap_text],
    [_normalize_bounds], [_palette], constructors and the library) take
    a bounded number of frames whatever the outline and are not
    counted: [frames] is what the interpreter allows beyond them. *)
Module Bounded.
Section Walks.
Context {R : Type} {num : Num R}.
Local Open Scope num_scope.

(** [visit] of [_decorate_tree]: its children are visited from the
    frame of the list comprehension. *)
Fixpoint visit (frames : nat) (current : MindMapNode) (depth : nat) (counter : nat)
    {struct current} : exc (_RenderNode R * nat) :=
  match frames with
  | O => Raise RecursionError
  | S inside =>
      match current with
      | MkMindMapNode title children =>
          let node_id := counter in
          let counter := S counter in
          let* wrapped := _wrap_text title (wrap_width depth) in
          let text_width := of_nat (longest wrapped) * GLYPH_WIDTH in
          let width :=
            py_max MIN_NODE_WIDTH (py_min MAX_NODE_WIDTH (text_width + NODE_PADDING_X)) in
          let height :=
            py_max (of_Z 40) (NODE_PADDING_Y + of_nat (length wrapped) * LINE_HEIGHT) in
          let* out :=
            match inside with
            | O => Raise RecursionError
            | S inner =>
                (fix visit_all (cs : list MindMapNode) (counter : nat)
                   : exc (list (_RenderNode R) * nat) :=
                   match cs with
                   | [] => Ok ([], counter)
                   | child :: cs' =>
                       let* r := visit inner child (S depth) counter in
                       let* rs := visit_all cs' (snd r) in
                       Ok (fst r :: fst rs, snd rs)
                   end) children counter
            end in
          Ok (MkRenderNode node_id title depth (fst out) wrapped width height
                (of_Z 0) (of_Z 0),
              snd out)
      end
  end.

Definition _decorate_tree (frames : nat) (node : MindMapNode) : exc (_RenderNode R) :=
  match frames with
  | O => Raise RecursionError
  | S inside => let* r := visit inside node 0 0 in Ok (fst r)
  end.

(** [_subtree_height]: the children are measured from the frame of the
    generator that [sum] consumes. *)
Fixpoint _subtree_height (frames : nat) (node : _RenderNode R) {struct node} : exc R :=
  match frames with
  | O => Raise RecursionError
  | S inside =>
      match node with
      | MkRenderNode _ _ _ children _ _ height _ _ =>
          match children with
          | [] => Ok height
          | _ :: _ =>
              let* heights :=
                match inside with
                | O => Raise RecursionError
                | S inner => exc_map (_subtree_height inner) children
                end in
              let children_height := py_sum heights in
              let children_height :=
                children_height + V_GAP * of_Z (Z.of_nat (length children) - 1) in
              Ok (py_max height children_height)
          end
      end
  end.

(** [sum(_subtree_height(child) for child in children)], called from a
    function that has [inside] frames left. *)
Definition sum_of_heights (inside : nat) (children : list (_RenderNode R)) : exc R :=
  match inside with
  | O => Raise RecursionError
  | S inner =>
      let* heights := exc_map (_subtree_height inner) children in
      Ok (py_sum heights)
  end.

Definition split_step (inside : nat)
    (st : list (_RenderNode R) * list (_RenderNode R) * R * R) (child : _RenderNode R)
  : exc (list (_RenderNode R) * list (_RenderNode R) * R * R) :=
  let '(left_, right_, left_height, right_height) := st in
  let* h := _subtree_height inside child in
  if left_height <=? right_height
  then Ok (left_ ++ [child], right_, left_height + h, right_height)
  else Ok (left_, right_ ++ [child], left_height, right_height + h).

Definition _split_top_level_children (frames : nat) (children : list (_RenderNode R))
  : exc (list (_RenderNode R) * list (_RenderNode R)) :=
  match frames with
  | O => Raise RecursionError
  | S inside =>
      let* st := exc_fold (split_step inside) children ([], [], of_Z 0, of_Z 0) in
      let '(left_, right_, _, _) := st in
      Ok (repair_empty (left_, right_))
  end.

(** The loop shared by [_place_subtree] and [place_side]. *)
Fixpoint place_stacked (measure : _RenderNode R -> exc R)
    (place : _RenderNode R -> R -> exc (_RenderNode R)) (gap : R)
    (children : list (_RenderNode R)) (start : R) : exc (list (_RenderNode R)) :=
  match children with
  | [] => Ok []
  | child :: rest =>
      let* child_height := measure child in
      let child_center := start + child_height / two in
      let* placed := place child child_center in
      let* others := place_stacked measure place gap rest (start + (child_height + gap)) in
      Ok (placed :: others)
  end.

Fixpoint _place_subtree (frames : nat) (node : _RenderNode R) (side : Z) (depth : Z)
    (center_y : R) {struct node} : exc (_RenderNode R) :=
  match frames with
  | O => Raise RecursionError
  | S inside =>
      match node with
      | MkRenderNode node_id title d children lines width height _ _ =>
          let x := of_Z (side * depth) * H_STEP in
          match children with
          | [] => Ok (MkRenderNode node_id title d [] lines width height x center_y)
          | _ :: _ =>
              let* total := sum_of_heights inside children in
              let total := total + V_GAP * of_Z (Z.of_nat (length children) - 1) in
              let start := center_y - total / two in
              let* placed :=
                place_stacked (_subtree_height inside)
                  (fun child c => _place_subtree inside child side (depth + 1) c)
                  V_GAP children start in
              let child_centers := map rn_y placed in
              let y := py_sum child_centers / of_nat (length child_centers) in
              Ok (MkRenderNode node_id title d placed lines width height x y)
          end
      end
  end.

(** [place_side] of [_compute_layout], a function of its own. *)
Definition place_side (frames : nat) (children : list (_RenderNode R)) (side : Z)
  : exc (list (_RenderNode R)) :=
  match frames with
  | O => Raise RecursionError
  | S inside =>
      match children with
      | [] => Ok []
      | _ :: _ =>
          let* total := sum_of_heights inside children in
          let total := total + TOP_LEVEL_GAP * of_Z (Z.of_nat (length children) - 1) in
          let start := - total / two in
          place_stacked (_subtree_height inside)
            (fun child c => _place_subtree inside child side 1 c)
            TOP_LEVEL_GAP children start
      end
  end.

(** The part of [_compute_layout] that sets the coordinates in the
    tree; [frames] is what the body of [_compute_layout] has left for
    the calls it makes. *)
Definition place_root (frames : nat) (root : _RenderNode R) : exc (_RenderNode R) :=
  match root with
  | MkRenderNode node_id title depth children lines width height _ _ =>
      match children with
      | [] => Ok (MkRenderNode node_id title depth [] lines width height (of_Z 0) (of_Z 0))
      | _ :: _ =>
          let* groups := _split_top_level_children frames children in
          let '(left_children, right_children) := groups in
          let* left_placed := place_side frames left_children (-1) in
          let* right_placed := place_side frames right_children 1 in
          Ok (MkRenderNode node_id title depth
                (map (same_object (left_placed ++ right_placed)) children)
                lines width height (of_Z 0) (of_Z 0))
      end
  end.

(** [dfs] of [_collect_nodes]. *)
Fixpoint dfs (frames : nat) (node : _RenderNode R)
    (st : list (PositionedNode R) * list (nat * nat)) {struct node}
  : exc (list (PositionedNode R) * list (nat * nat)) :=
  match frames with
  | O => Raise RecursionError
  | S inside =>
      match node with
      | MkRenderNode node_id _ _ children _ _ _ _ _ =>
          exc_fold
            (fun st child => dfs inside child (fst st, snd st ++ [(node_id, rn_id child)]))
            children
            (fst st ++ [positioned node], snd st)
      end
  end.

Definition _collect_nodes (frames : nat) (root : _RenderNode R)
  : exc (list (PositionedNode R) * list (nat * nat)) :=
  match frames with
  | O => Raise RecursionError
  | S inside => dfs inside root ([], [])
  end.

Definition _compute_layout (frames : nat) (root_node : MindMapNode)
  : exc (MindMapLayout R) :=
  match frames with
  | O => Raise RecursionError
  | S inside =>
      let* root := _decorate_tree inside root_node in
      let* root := place_root inside root in
      let* collected := _collect_nodes inside root in
      let '(nodes, edges) := collected in
      let* normalized := _normalize_bounds nodes in
      let '(nodes, width, height) := normalized in
      Ok (MkMindMapLayout width height nodes edges)
  end.

Definition render_mind_map_svg {txt : NumText R} (frames : nat) (markdown : str)
  : exc (option (list svg_elem)) :=
  match frames with
  | O => Raise RecursionError
  | S inside =>
      let* root := parse_mind_map_markdown markdown in
      match root with
      | None => Ok None
      | Some root =>
          let* layout := _compute_layout inside root in
          let* parts := svg_document layout in
          Ok (Some parts)
      end
  end.

Definition render_mind_map_drawing (frames : nat) (markdown : str)
    (max_width max_height : option R) : exc (option (Drawing R)) :=
  match frames with
  | O => Raise RecursionError
  | S inside =>
      let* root := parse_mind_map_markdown markdown in
      match root with
      | None => Ok None
      | Some root =>
          let* layout := _compute_layout inside root in
          let by_id := index_by_id (nodes layout) in
          let* lines_ := exc_map (drawing_edge layout by_id) (edges layout) in
          let contents := lines_ ++ flat_map (drawing_node layout) (nodes layout) in
          let drawing :=
            MkDrawing (layout_width layout) (layout_height layout) contents
              (of_Z 1, of_Z 1) in
          let* drawing := downscale drawing max_width max_height in
          Ok (Some drawing)
      end
  end.
End Walks.
End Bounded.

(** ** Specification-side definitions *)

(** The fixed-size split of [s], in the words of the specification: the
    pieces concatenate to [s], every piece but the last has exactly [n]
    characters and the last has between one and [n]. *)
Definition fixed_chunks (n : nat) (s : str) (pieces : list str) : Prop :=
  concat pieces = s
  /\ Forall (fun piece => length piece = n) (removelast pieces)
  /\ Forall (fun piece => 1 <= length piece <= n) pieces.

(** A line is filled with the next words while it stays within the
    width; what is returned is the finished line and the words left. *)
Fixpoint fill_line (max_chars : Z) (line : str) (words : list str) : str * list str :=
  match words with
  | [] => (line, [])
  | word :: rest =>
      if (len (line ++ lit " " ++ word) <=? max_chars)%Z
      then fill_line max_chars (line ++ lit " " ++ word) rest
      else (line, words)
  end.

(** Greedy word wrap, in the words of the specification: a word longer
    than the width is split into fixed-size chunks on lines of its own;
    any other word opens a line, which is filled greedily. *)
Inductive greedy_wrap (max_chars : Z) : list str -> list str -> Prop :=
| greedy_done : greedy_wrap max_chars [] []
| greedy_long word words pieces lines_ :
    (max_chars < len word)%Z ->
    fixed_chunks (Z.to_nat max_chars) word pieces ->
    greedy_wrap max_chars words lines_ ->
    greedy_wrap max_chars (word :: words) (pieces ++ lines_)
| greedy_line word words line rest lines_ :
    (len word <= max_chars)%Z ->
    fill_line max_chars word words = (line, rest) ->
    greedy_wrap max_chars rest lines_ ->
    greedy_wrap max_chars (word :: words) (line :: lines_).

(** The tree a heap object stands for, without fuel. *)
#[warnings="-register-all"]
Inductive denotes (h : heap) : nat -> MindMapNode -> Prop :=
| denotes_obj ref o trees :
    h !! ref = Some o ->
    Forall2 (denotes h) (o_children o) trees ->
    denotes h ref (MkMindMapNode (o_title o) trees).

(** The cleaned titles of the heading lines of a document, in order. *)
Definition heading_titles (markdown : str) : list str :=
  omap (fun raw_line => _clean_text <$> heading_match (strip raw_line))
    (splitlines markdown).

(** "The first heading found in the document", as the specification words
    it. *)
Definition first_heading (markdown : str) : option str :=
  head (heading_titles markdown).

(** The first heading whose cleaned title is not empty. *)
Definition first_titled_heading (markdown : str) : option str :=
  head (List.filter (fun t => negb (falsy (Some t))) (heading_titles markdown)).

Definition fallback_title : str := lit "Mind Map".

(** ** Trees as lists *)

Fixpoint mm_size (t : MindMapNode) : nat :=
  match t with
  | MkMindMapNode _ children => S (list_sum (map mm_size children))
  end.

Section Flat.
Context {R : Type}.

(** The nodes of a tree, parent first, children in order. *)
Fixpoint flat (node : _RenderNode R) : list (PositionedNode R) :=
  match node with
  | MkRenderNode _ _ _ children _ _ _ _ _ => positioned node :: flat_map flat children
  end.

(** The parent and child identifiers of a tree, in the same order. *)
Fixpoint flat_edges (node : _RenderNode R) : list (nat * nat) :=
  match node with
  | MkRenderNode node_id _ _ children _ _ _ _ _ =>
      flat_map (fun child => (node_id, rn_id child) :: flat_edges child) children
  end.

(** [P] holds of every node of the tree. *)
Fixpoint rn_all (P : _RenderNode R -> Prop) (node : _RenderNode R) : Prop :=
  match node with
  | MkRenderNode _ _ _ children _ _ _ _ _ =>
      P node /\ fold_right (fun child rest => rn_all P child /\ rest) True children
  end.
End Flat.

(** ** Boxes *)

Definition box_left (b : PositionedNode Q) : Q := (x b - width b / 2)%Q.
Definition box_right (b : PositionedNode Q) : Q := (x b + width b / 2)%Q.
Definition box_top (b : PositionedNode Q) : Q := (y b - height b / 2)%Q.
Definition box_bottom (b : PositionedNode Q) : Q := (y b + height b / 2)%Q.

(** The x-extents or the y-extents of two boxes are disjoint. *)
Definition disjoint (a b : PositionedNode Q) : Prop :=
  (box_right a < box_left b \/ box_right b < box_left a
   \/ box_bottom a < box_top b \/ box_bottom b < box_top a)%Q.

(** [rel] holds between any two elements at different places of a list. *)
Inductive pairwise {A : Type} (rel : A -> A -> Prop) : list A -> Prop :=
| pairwise_nil : pairwise rel []
| pairwise_cons a l : Forall (rel a) l -> pairwise rel l -> pairwise rel (a :: l).

(** ** Invariants used in the proofs *)

(** The heap invariant of the loop over the bullets: the stack is never
    empty and refers to allocated objects, the children of an object were
    allocated after it, and the pseudo-root has a child as soon as a
    bullet was attached. *)
Definition heap_ok (st : heap * list (Z * nat)) : Prop :=
  let '(h, stack) := st in
  stack <> []
  /\ Forall (fun e => snd e < length h) stack
  /\ (forall i o, h !! i = Some o -> Forall (fun r => i < r < length h) (o_children o))
  /\ (exists kids, h !! pseudo_root = Some (MkObj (lit "__pseudo__") kids)
                   /\ (1 < length h -> kids <> [])).

(** The heading the loop over the lines keeps. *)
Definition keep_heading (heading_title : option str) (raw_line : str) : option str :=
  match heading_match (strip raw_line) with
  | Some group => if falsy heading_title then Some (_clean_text group) else heading_title
  | None => heading_title
  end.

Definition titled (t : option str) : option str := if falsy t then None else t.

Section Sized.
Context {R : Type} {num : Num R}.
Local Open Scope num_scope.

(** The box of a node with the wrapped lines [wrapped]. *)
Definition node_width (wrapped : list str) : R :=
  py_max MIN_NODE_WIDTH
    (py_min MAX_NODE_WIDTH (of_nat (longest wrapped) * GLYPH_WIDTH + NODE_PADDING_X)).

Definition node_height (wrapped : list str) : R :=
  py_max (of_Z 40) (NODE_PADDING_Y + of_nat (length wrapped) * LINE_HEIGHT).

Definition well_sized (node : _RenderNode R) : Prop :=
  (1 <= length (rn_lines node) <= 6)%nat
  /\ rn_width node = node_width (rn_lines node)
  /\ rn_height node = node_height (rn_lines node).

(** What layout never changes in a node. *)
Definition info (b : PositionedNode R) : nat * str * list str * nat * R * R :=
  (node_id b, title b, lines b, depth b, width b, height b).
End Sized.

Section VisitChildren.
Context {R : Type} {num : Num R}.

(** The list comprehension of [visit] over the children, at depth [d]. *)
Definition visit_children (d : nat)
  : list MindMapNode -> nat -> exc (list (_RenderNode R) * nat) :=
  fix visit_all (cs : list MindMapNode) (counter : nat) :=
    match cs with
    | [] => Ok ([], counter)
    | child :: cs' =>
        let* r := visit child d counter in
        let* rs := visit_all cs' (snd r) in
        Ok (fst r :: fst rs, snd rs)
    end.

(** The same under the bound on nested calls, with [inner] frames left
    in the frame of the comprehension. *)
Definition bounded_visit_children (inner d : nat)
  : list MindMapNode -> nat -> exc (list (_RenderNode R) * nat) :=
  fix visit_all (cs : list MindMapNode) (counter : nat) :=
    match cs with
    | [] => Ok ([], counter)
    | child :: cs' =>
        let* r := Bounded.visit inner child d counter in
        let* rs := visit_all cs' (snd r) in
        Ok (fst r :: fst rs, snd rs)
    end.
End VisitChildren.

(** The outline of [n] bullets, each nested in the one before it, and the
    tree of [S n] nodes, each but the last with one child. *)
Definition nested_outline (n : nat) : str :=
  concat (map (fun i => repeat " "%char (2 * i) ++ lit "- x" ++ [chr 10]) (seq 0 n)).

Fixpoint chain (n : nat) : MindMapNode :=
  match n with
  | O => MkMindMapNode (lit "x") []
  | S n' => MkMindMapNode (lit "x") [chain n']
  end.

Section Preserved.
Context {R : Type} {num : Num R}.

(** [p] is [n] up to the coordinates. *)
Definition preserved (n p : _RenderNode R) : Prop :=
  rn_id p = rn_id n
  /\ map info (flat p) = map info (flat n)
  /\ flat_edges p = flat_edges n.
End Preserved.

Section Greedy.
Context {R : Type} {num : Num R}.
Local Open Scope num_scope.

(** The subtree height a group has accumulated. *)
Definition sum_heights (group : list (_RenderNode R)) : R :=
  py_sum (map _subtree_height group).

(** The greedy balance, in the words of the specification: the children
    are taken in document order and each joins the group whose
    accumulated subtree height is smaller, the left one on a tie. *)
Inductive greedy_split
  : list (_RenderNode R) -> list (_RenderNode R) -> list (_RenderNode R) -> Prop :=
| greedy_split_nil : greedy_split [] [] []
| greedy_split_left children left_ right_ child :
    greedy_split children left_ right_ ->
    (sum_heights left_ <=? sum_heights right_) = true ->
    greedy_split (children ++ [child]) (left_ ++ [child]) right_
| greedy_split_right children left_ right_ child :
    greedy_split children left_ right_ ->
    (sum_heights left_ <=? sum_heights right_) = false ->
    greedy_split (children ++ [child]) left_ (right_ ++ [child]).
End Greedy.

(** ** Geometry of a placed subtree, in exact arithmetic *)

Definition sized_box (b : PositionedNode Q) : Prop :=
  (135 <= width b <= 360 /\ 40 <= height b <= 110)%Q.

(** The box lies in the band from [lo] to [hi], up to a slack of 2. *)
Definition within (lo hi : Q) (b : PositionedNode Q) : Prop :=
  (lo - 2 <= box_top b /\ box_bottom b <= hi + 2)%Q.

(** The box is centered on side [side] at depth [depth] or deeper. *)
Definition beyond (side depth : Z) (b : PositionedNode Q) : Prop :=
  (inject_Z depth * 420 <= inject_Z side * x b)%Q.

(** The height of a stack of sibling bands, [gap] apart. *)
Definition stack_height (gap : Q) (children : list (_RenderNode Q)) : Q :=
  (sum_heights children + gap * inject_Z (Z.of_nat (length children) - 1))%Q.

(** What placing [n] on side [side], at depth [depth], around [center]
    achieves in the result [p]. *)
Record placed_ok (side depth : Z) (center : Q) (n p : _RenderNode Q) : Prop := {
  ok_x : (rn_x p == inject_Z (side * depth) * 420)%Q;
  ok_y_low :
    (center <= rn_y p \/ center - _subtree_height n / 2 + 53 <= rn_y p)%Q;
  ok_y_high :
    (rn_y p <= center \/ rn_y p <= center + _subtree_height n / 2 - 53)%Q;
  ok_band :
    Forall (within (center - _subtree_height n / 2) (center + _subtree_height n / 2))
      (flat p);
  ok_below : Forall (beyond side (depth + 1)) (flat_map flat (rn_children p));
  ok_sized : Forall sized_box (flat p);
  ok_disjoint : pairwise disjoint (flat p)
}.

(** [bound] is the least (the greatest) value of [edge] over the boxes. *)
Definition least (edge : PositionedNode Q -> Q) (bound : Q) (boxes : list (PositionedNode Q))
  : Prop :=
  Forall (fun b => (bound <= edge b)%Q) boxes /\ Exists (fun b => (edge b == bound)%Q) boxes.

Definition greatest (edge : PositionedNode Q -> Q) (bound : Q) (boxes : list (PositionedNode Q))
  : Prop :=
  Forall (fun b => (edge b <= bound)%Q) boxes /\ Exists (fun b => (edge b == bound)%Q) boxes.

(** A document given line by line, the lines joined by line feeds. *)
Definition doc (lines_ : list string) : str :=
  match lines_ with
  | [] => []
  | first :: rest => lit first ++ flat_map (fun l => chr 10 :: lit l) rest
  end.

(** ** The geometry a rendering holds *)

Section Geometry.
Context {R : Type}.

(** The rectangles of a vector graphic, as the texts of
    [(x, y, width, height)]. *)
Definition svg_rects (parts : list svg_elem) : list (str * str * str * str) :=
  omap (fun part =>
          match part with
          | SvgRect rx ry rw rh _ _ => Some (rx, ry, rw, rh)
          | _ => None
          end) parts.

(** Its lines, as the texts of [(x1, y1, x2, y2)]. *)
Definition svg_lines (parts : list svg_elem) : list (str * str * str * str) :=
  omap (fun part =>
          match part with
          | SvgLine x1 y1 x2 y2 => Some (x1, y1, x2, y2)
          | _ => None
          end) parts.

Definition drawing_rects (contents : list (shape R)) : list (R * R * R * R) :=
  omap (fun s =>
          match s with
          | Rect rx ry rw rh _ _ => Some (rx, ry, rw, rh)
          | _ => None
          end) contents.

Definition drawing_lines (contents : list (shape R)) : list (R * R * R * R) :=
  omap (fun s =>
          match s with
          | Line x1 y1 x2 y2 => Some (x1, y1, x2, y2)
          | _ => None
          end) contents.
End Geometry.

Section Ends.
Context {R : Type} {num : Num R}.

(** The two nodes an edge joins, as [by_id] gives them. *)
Definition edge_ends (by_id : gmap nat (PositionedNode R)) (edge : nat * nat)
  : exc (PositionedNode R * PositionedNode R) :=
  let* parent := getitem by_id (fst edge) in
  let* child := getitem by_id (snd edge) in
  Ok (parent, child).
End Ends.

Section Natural.
Context {R : Type} {num : Num R} {txt : NumText R}.
Local Open Scope num_scope.

Definition svg_line_of (pc : PositionedNode R * PositionedNode R) : svg_elem :=
  SvgLine (format_2f (x pc.1)) (format_2f (y pc.1))
          (format_2f (x pc.2)) (format_2f (y pc.2)).

Definition line_of (layout : MindMapLayout R) (pc : PositionedNode R * PositionedNode R)
  : shape R :=
  Line (x pc.1) (layout_height layout - y pc.1) (x pc.2) (layout_height layout - y pc.2).

(** The drawing before the optional downscale; [ends] are the nodes the
    edges join. *)
Definition natural_drawing (layout : MindMapLayout R)
    (ends : list (PositionedNode R * PositionedNode R)) : Drawing R :=
  MkDrawing (layout_width layout) (layout_height layout)
    (map (line_of layout) ends ++ flat_map (drawing_node layout) (nodes layout))
    (of_Z 1, of_Z 1).

(** An edge joins two listed nodes with its two identifiers. *)
Definition joins (layout : MindMapLayout R) (edge : nat * nat)
    (pc : PositionedNode R * PositionedNode R) : Prop :=
  node_id pc.1 = edge.1 /\ node_id pc.2 = edge.2
  /\ pc.1 ∈ nodes layout /\ pc.2 ∈ nodes layout.
End Natural.

(** ** The downscale, in exact arithmetic *)

(** The constraint a bound stands for: none when it is absent or zero. *)
Definition bound_of (v : option Q) : option Q :=
  match v with
  | Some a => if Qeq_bool a 0 then None else Some a
  | None => None
  end.

(** The factor [s] is at most one and brings an extent of [w] by [h]
    within both constraints. *)
Definition fits (w h : Q) (max_width max_height : option Q) (s : Q) : Prop :=
  (s <= 1)%Q
  /\ (forall a, bound_of max_width = Some a -> (w * s <= a)%Q)
  /\ (forall a, bound_of max_height = Some a -> (h * s <= a)%Q).

Definition largest_fit (w h : Q) (max_width max_height : option Q) (s : Q) : Prop :=
  fits w h max_width max_height s
  /\ forall s', fits w h max_width max_height s' -> (s' <= s)%Q.

(** The factors the bounds contribute. *)
Definition factors_of (bound : option Q) (extent : Q) : list Q :=
  match bound_of bound with
  | Some a => [(a / extent)%Q]
  | None => []
  end.

(** ** Text normal forms *)

(** No two spaces in a row. *)
Fixpoint single_spaced (s : str) : bool :=
  match s with
  | c1 :: ((c2 :: _) as s') =>
      negb (char_eqb c1 " " && char_eqb c2 " ") && single_spaced s'
  | _ => true
  end.

(** The text holds a match of the tag pattern: an opening angle, at least
    one character other than a closing angle, a closing angle. *)
Definition has_tag (s : str) : Prop :=
  exists before inner after,
    s = before ++ "<"%char :: inner ++ ">"%char :: after
    /\ inner <> [] /\ ">"%char ∉ inner.

(** In a text without a tag, an opening angle is followed at once by a
    closing one or by none at all. *)
Fixpoint tagless (s : str) : Prop :=
  match s with
  | [] => True
  | c :: s' =>
      (c = "<"%char -> head s' = Some ">"%char \/ ">"%char ∉ s') /\ tagless s'
  end.

(** The characters of a text that are not whitespace. *)
Definition visible (s : str) : str := List.filter (fun c => negb (isspace c)) s.

(** ** Outlines *)

(** The titles of a tree, parent first, children in order. *)
Fixpoint titles (t : MindMapNode) : list str :=
  match t with
  | MkMindMapNode title children => title :: flat_map titles children
  end.

(** The forest of a list of bullets [(depth, text)]: a bullet takes as
    its subtree the bullets that follow it up to the first one that is
    not deeper than itself. *)
Inductive outline : list (nat * str) -> list MindMapNode -> Prop :=
| outline_nil : outline [] []
| outline_cons depth text inside after kids rest :
    Forall (fun b => depth < fst b) inside ->
    match after with [] => True | b :: _ => fst b <= depth end ->
    outline inside kids ->
    outline after rest ->
    outline ((depth, text) :: inside ++ after) (MkMindMapNode text kids :: rest).

(** ** More of the tree functions *)

(** The depths of the nodes of a tree whose root is at [depth], parent
    first. *)
Fixpoint depths (depth : nat) (t : MindMapNode) : list nat :=
  match t with
  | MkMindMapNode _ children => depth :: flat_map (depths (S depth)) children
  end.

Section MoreTrees.
Context {R : Type} {num : Num R}.

(** [sum(...)] of integers. *)
Definition py_sum_int (l : list nat) : nat := fold_left Nat.add l 0.

Fixpoint _leaf_count (node : _RenderNode R) : nat :=
match node with
| MkRenderNode _ _ _ children _ _ _ _ _ =>
    match children with
    | [] => 1
    | _ :: _ => py_sum_int (map _leaf_count children)
    end
end.

(** The nodes of a tree, parent first. *)
Fixpoint subnodes (node : _RenderNode R) : list (_RenderNode R) :=
match node with
| MkRenderNode _ _ _ children _ _ _ _ _ => node :: flat_map subnodes children
end.

Definition is_leaf (node : _RenderNode R) : bool :=
match rn_children node with [] => true | _ :: _ => false end.

(** The two boxes of every edge of a tree, the parent first, in the order
  of the edges. *)
Fixpoint edge_boxes (node : _RenderNode R) : list (PositionedNode R * PositionedNode R) :=
match node with
| MkRenderNode _ _ _ children _ _ _ _ _ =>
    flat_map (fun child => (positioned node, positioned child) :: edge_boxes child)
      children
end.

(** The children of the node are one level below it. *)
Definition one_deeper (node : _RenderNode R) : Prop :=
Forall (fun child => rn_depth child = S (rn_depth node)) (rn_children node).

(** The box is centered on the column of its depth on side [side]. *)
Definition in_column (side : Z) (b : PositionedNode R) : Prop :=
x b = (of_Z (side * Z.of_nat (depth b)) * H_STEP)%num.

(** What a placed subtree looks like on side [side]: its boxes are in
  the columns of their depths, and every edge goes one level down. *)
Definition columns_ok (side : Z) (p : _RenderNode R) : Prop :=
Forall (in_column side) (flat p)
/\ Forall (fun pc => depth pc.2 = S (depth pc.1)
                     /\ in_column side pc.1 /\ in_column side pc.2) (edge_boxes p).

(** What [visit] records in a box: the title wrapped at the width of its
  depth, and the size of the wrapped lines. *)
Definition decorated_box (b : PositionedNode R) : Prop :=
_wrap_text (title b) (wrap_width (depth b)) = Ok (lines b)
/\ width b = node_width (lines b)
/\ height b = node_height (lines b).

End MoreTrees.

(** ** Escaped text *)

Fixpoint starts_with (pre s : str) : bool :=
  match pre, s with
  | [], _ => true
  | c :: pre', d :: s' => char_eqb c d && starts_with pre' s'
  | _ :: _, [] => false
  end.

(** Text that is safe inside an element: no angle bracket, and every
    ampersand opens one of the three entities [html.escape] writes. *)
Fixpoint well_escaped (s : str) : bool :=
  match s with
  | [] => true
  | c :: s' =>
      (if char_eqb c "&"
       then starts_with (lit "amp;") s' || starts_with (lit "lt;") s'
            || starts_with (lit "gt;") s'
       else negb (char_eqb c "<" || char_eqb c ">"))
      && well_escaped s'
  end.

Definition is_svg_line (part : svg_elem) : bool :=
  match part with SvgLine _ _ _ _ => true | _ => false end.

Definition is_line {R : Type} (s : shape R) : bool :=
  match s with Line _ _ _ _ => true | _ => false end.

(** ** Labels and rectangles *)

Definition is_label {R : Type} (s : shape R) : bool :=
  match s with Label _ _ _ => true | _ => false end.

(** The anchor of the label [s] lies inside the rectangle [r]. *)
Definition label_in_rect (s r : shape Q) : Prop :=
  match s, r with
  | Label tx ty _, Rect rx ry rw rh _ _ =>
      (rx < tx /\ tx < rx + rw /\ ry < ty /\ ty < ry + rh)%Q
  | _, _ => False
  end.

(** ** Siblings *)

(** The numbers grow along the list. *)
Fixpoint ascending (l : list nat) : Prop :=
  match l with
  | [] => True
  | a :: l' => Forall (lt a) l' /\ ascending l'
  end.

(** Among [boxes], a box stands above every box of its column that has a
    larger identifier, 22 apart or more. *)
Definition in_order (boxes : list (PositionedNode Q)) : Prop :=
  forall a b, a ∈ boxes -> b ∈ boxes -> (node_id a < node_id b)%nat -> (x a == x b)%Q ->
    (box_bottom a + 22 <= box_top b)%Q.

(** The children of every node of the tree are in order. *)
Definition siblings_in_order (p : _RenderNode Q) : Prop :=
  Forall (fun m => in_order (map positioned (rn_children m))) (subnodes p).

(** ** Tactics for the exact model *)

(** The operations of the class at the rationals. *)
Ltac qlit :=
  repeat match goal with
  | |- context [inject_Z 0] => change (inject_Z 0) with 0%Q
  | |- context [inject_Z (Zpos ?p)] => change (inject_Z (Zpos p)) with (Zpos p # 1)%Q
  | |- context [inject_Z (Zneg ?p)] => change (inject_Z (Zneg p)) with (Zneg p # 1)%Q
  | H : context [inject_Z 0] |- _ => change (inject_Z 0) with 0%Q in H
  | H : context [inject_Z (Zpos ?p)] |- _ =>
      change (inject_Z (Zpos p)) with (Zpos p # 1)%Q in H
  | H : context [inject_Z (Zneg ?p)] |- _ =>
      change (inject_Z (Zneg p)) with (Zneg p # 1)%Q in H
  end.

(** [lra] knows no division: a division by a literal becomes a product. *)
Ltac qdiv :=
  unfold Qdiv in *;
  repeat match goal with
  | |- context [Qinv (Qmake (Zpos ?p) ?q)] =>
      change (Qinv (Qmake (Zpos p) q)) with (Qmake (Zpos q) p)
  | H : context [Qinv (Qmake (Zpos ?p) ?q)] |- _ =>
      change (Qinv (Qmake (Zpos p) q)) with (Qmake (Zpos q) p) in H
  end.

Ltac qnum :=
  cbn [of_Z nadd nsub nmul ndiv nopp nltb nleb neqb Q_Num] in *; qlit.

Ltac qconst :=
  unfold H_STEP, V_GAP, TOP_LEVEL_GAP, MARGIN, MIN_NODE_WIDTH, MAX_NODE_WIDTH,
    LINE_HEIGHT, NODE_PADDING_X, NODE_PADDING_Y, GLYPH_WIDTH, two, of_nat in *;
  qnum.

Ltac qlra := qconst; qdiv; lra.

(** * Text wrapping *)

Section Chunks.
Variable n : nat.
Hypothesis n_pos : 0 < n.

Lemma chunks_concat fuel (s : str) :
  length s <= fuel -> concat (chunks fuel n s) = s.
Proof.
  revert s. induction fuel as [|fuel IH]; intros s Hlen.
  - destruct s; [reflexivity | simpl in Hlen; lia].
  - destruct s as [|c s]; [reflexivity|].
    cbn [chunks concat]. rewrite IH.
    + apply take_drop.
    + rewrite length_drop. simpl in *. lia.
Qed.

Lemma chunks_bounds fuel (s : str) :
  Forall (fun piece => 1 <= length piece <= n) (chunks fuel n s).
Proof.
  revert s. induction fuel as [|fuel IH]; intros s; [constructor|].
  destruct s as [|c s]; [constructor|].
  cbn [chunks]. constructor; [|apply IH].
  rewrite length_take. simpl. lia.
Qed.

Lemma chunks_full fuel (s : str) :
  length s <= fuel ->
  Forall (fun piece => length piece = n) (removelast (chunks fuel n s)).
Proof.
  revert s. induction fuel as [|fuel IH]; intros s Hlen; [constructor|].
  destruct s as [|c s]; [constructor|].
  cbn [chunks].
  assert (Hd : length (drop n (c :: s)) <= fuel)
    by (rewrite length_drop; simpl in *; lia).
  specialize (IH _ Hd).
  destruct fuel as [|fuel'].
  { constructor. }
  destruct (drop n (c :: s)) as [|d rest] eqn:Hdrop.
  { constructor. }
  change (removelast (take n (c :: s) :: chunks (S fuel') n (d :: rest)))
    with (take n (c :: s) :: removelast (chunks (S fuel') n (d :: rest))).
  constructor; [|exact IH].
  rewrite length_take.
  assert (Hl : length (drop n (c :: s)) = S (length rest)) by (rewrite Hdrop; reflexivity).
  rewrite length_drop in Hl. lia.
Qed.

Lemma chunks_fixed (s : str) : fixed_chunks n s (chunks (length s) n s).
Proof.
  split; [|split].
  - apply chunks_concat; lia.
  - apply chunks_full; lia.
  - apply chunks_bounds.
Qed.

Lemma chunks_nonempty fuel (s : str) : s <> [] -> chunks (S fuel) n s <> [].
Proof. destruct s; [congruence | discriminate]. Qed.
End Chunks.

Lemma slices_pos (s : str) (step : Z) :
  (0 < step)%Z -> slices s step = Ok (chunks (length s) (Z.to_nat step) s).
Proof.
  intros Hpos. unfold slices.
  destruct (Z.eqb_spec step 0); [lia|].
  destruct (Z.ltb_spec step 0); [lia | reflexivity].
Qed.

Lemma fill_line_bound max_chars line words l r :
  (len line <= max_chars)%Z ->
  fill_line max_chars line words = (l, r) -> (len l <= max_chars)%Z.
Proof.
  revert line. induction words as [|w ws IH]; intros line Hline Hfill; cbn [fill_line] in Hfill.
  - congruence.
  - destruct (Z.leb_spec (len (line ++ lit " " ++ w)) max_chars).
    + eapply IH; eauto.
    + congruence.
Qed.

Lemma greedy_wrap_bound max_chars words lines_ :
  (0 < max_chars)%Z ->
  greedy_wrap max_chars words lines_ ->
  Forall (fun line => (len line <= max_chars)%Z) lines_.
Proof.
  intros Hpos Hwrap. induction Hwrap as [|w ws pieces ls Hlong Hfix _ IH|w ws l r ls Hshort Hfill _ IH].
  - constructor.
  - apply Forall_app. split; [|exact IH].
    destruct Hfix as (_ & _ & Hb).
    eapply Forall_impl; [exact Hb|]. intros piece Hp. simpl in Hp. unfold len. lia.
  - constructor; [|exact IH]. eapply fill_line_bound; eauto.
Qed.

Lemma greedy_wrap_nonempty max_chars words lines_ :
  Forall (fun w => w <> []) words -> words <> [] ->
  greedy_wrap max_chars words lines_ -> lines_ <> [].
Proof.
  intros Hne Hws Hwrap.
  inversion Hwrap as [|w ws pieces ls Hlong Hfix Hrest|w ws l r ls Hshort Hfill Hrest]; subst.
  - exfalso. apply Hws. reflexivity.
  - destruct Hfix as (Hcat & _ & _).
    destruct pieces; [|discriminate].
    simpl in Hcat. apply Forall_cons in Hne as [Hw _]. congruence.
  - discriminate.
Qed.

Lemma flush_app lines_ current : flush lines_ current = lines_ ++ flush [] current.
Proof. destruct current; simpl; [by rewrite app_nil_r | reflexivity]. Qed.

(** The loop over the words computes the greedy wrap: when it is entered
    with a line under construction, that line is first filled. *)
Lemma wrap_loop max_chars words :
  (0 < max_chars)%Z ->
  Forall (fun w => w <> []) words ->
  forall lines_ current,
    (len current <= max_chars)%Z ->
    exists lines' current' out,
      exc_fold (wrap_word max_chars) words (lines_, current) = Ok (lines', current')
      /\ flush lines' current' = lines_ ++ out
      /\ match current with
         | [] => greedy_wrap max_chars words out
         | _ :: _ =>
             exists line rest tail_,
               fill_line max_chars current words = (line, rest)
               /\ greedy_wrap max_chars rest tail_
               /\ out = line :: tail_
         end.
Proof.
  intros Hpos. induction words as [|w ws IH]; intros Hne lines_ current Hcur.
  - exists lines_, current, (flush [] current). simpl.
    split; [reflexivity|]. split; [apply flush_app|].
    destruct current as [|c cur]; simpl.
    + constructor.
    + exists (c :: cur), [], []. repeat split. constructor.
  - apply Forall_cons in Hne as [Hw Hne].
    cbn [exc_fold]. unfold wrap_word at 1.
    destruct (Z.ltb_spec max_chars (len w)) as [Hlong|Hshort].
    + rewrite (slices_pos _ _ Hpos). cbn [exc_bind].
      destruct (IH Hne (flush lines_ current ++ chunks (length w) (Z.to_nat max_chars) w) [])
        as (lines' & current' & out & Hfold & Hflush & Hspec).
      { unfold len; simpl; lia. }
      exists lines', current', (flush [] current ++ chunks (length w) (Z.to_nat max_chars) w ++ out).
      split; [exact Hfold|]. split.
      { rewrite Hflush, (flush_app lines_ current). by rewrite <- !app_assoc. }
      assert (Hg : greedy_wrap max_chars (w :: ws)
                     (chunks (length w) (Z.to_nat max_chars) w ++ out)).
      { apply greedy_long; [exact Hlong | apply chunks_fixed; lia | exact Hspec]. }
      destruct current as [|c cur]; [exact Hg|].
      exists (c :: cur), (w :: ws), (chunks (length w) (Z.to_nat max_chars) w ++ out).
      split; [|split; [exact Hg | reflexivity]].
      cbn [fill_line].
      destruct (Z.leb_spec (len ((c :: cur) ++ lit " " ++ w)) max_chars) as [Hfit|]; [|reflexivity].
      unfold len in *. rewrite !length_app in Hfit. lia.
    + destruct current as [|c cur].
      * cbn [exc_bind].
        destruct (IH Hne lines_ w Hshort) as (lines' & current' & out & Hfold & Hflush & Hspec).
        exists lines', current', out. split; [exact Hfold|]. split; [exact Hflush|].
        destruct w as [|c w]; [congruence|].
        destruct Hspec as (line & rest & tail_ & Hfill & Hg & ->).
        eapply greedy_line; eauto.
      * destruct (Z.leb_spec (len ((c :: cur) ++ lit " " ++ w)) max_chars) as [Hfit|Hover].
        -- cbn [exc_bind].
           destruct (IH Hne lines_ ((c :: cur) ++ lit " " ++ w) Hfit)
             as (lines' & current' & out & Hfold & Hflush & Hspec).
           exists lines', current', out. split; [exact Hfold|]. split; [exact Hflush|].
           cbn [fill_line].
           destruct (Z.leb_spec (len ((c :: cur) ++ lit " " ++ w)) max_chars); [|lia].
           exact Hspec.
        -- cbn [exc_bind].
           destruct (IH Hne (lines_ ++ [c :: cur]) w Hshort)
             as (lines' & current' & out & Hfold & Hflush & Hspec).
           exists lines', current', ((c :: cur) :: out).
           split; [exact Hfold|]. split.
           { rewrite Hflush. by rewrite <- app_assoc. }
           exists (c :: cur), (w :: ws), out. split; [|split; [|reflexivity]].
           ++ cbn [fill_line].
              destruct (Z.leb_spec (len ((c :: cur) ++ lit " " ++ w)) max_chars); [lia|reflexivity].
           ++ destruct w as [|d w]; [congruence|].
              destruct Hspec as (line & rest & tail_ & Hfill & Hg & ->).
              eapply greedy_line; eauto.
Qed.

(** The words of [str.split()] are non-empty, and there is one as soon as
    some character is not whitespace. *)
Lemma split_ws_aux_words s cur :
  Forall (fun w => w <> []) (split_ws_aux s cur).
Proof.
  revert cur. induction s as [|c s IH]; intros cur; simpl.
  - destruct cur; [constructor|]. constructor; [|constructor].
    intros Hrev. apply (f_equal (@length _)) in Hrev. rewrite length_rev in Hrev. discriminate.
  - destruct (isspace c).
    + destruct cur; [apply IH|]. constructor; [|apply IH].
      intros Hrev. apply (f_equal (@length _)) in Hrev. rewrite length_rev in Hrev. discriminate.
    + apply IH.
Qed.

Lemma split_ws_aux_nonempty s cur :
  cur <> [] \/ Exists (fun c => isspace c = false) s -> split_ws_aux s cur <> [].
Proof.
  revert cur. induction s as [|c s IH]; intros cur H; simpl.
  - destruct H as [H|H]; [|inversion H]. destruct cur; [congruence | discriminate].
  - destruct (isspace c) eqn:Hc.
    + destruct cur; [|discriminate].
      apply IH. right. destruct H as [H|H]; [congruence|].
      inversion H; subst; [congruence | assumption].
    + apply IH. left. discriminate.
Qed.

Lemma lstrip_head s : match lstrip s with [] => True | c :: _ => isspace c = false end.
Proof.
  induction s as [|c s IH]; simpl; [exact I|].
  destruct (isspace c) eqn:Hc; [exact IH | exact Hc].
Qed.

Lemma strip_has_word s :
  strip s <> [] -> Exists (fun c => isspace c = false) (strip s).
Proof.
  unfold strip, rstrip. intros Hne.
  pose proof (lstrip_head (rev (lstrip s))) as Hhead.
  destruct (lstrip (rev (lstrip s))) as [|c t]; [simpl in Hne; congruence|].
  apply Exists_exists. exists c. split; [|exact Hhead].
  apply list_elem_of_In, in_rev. rewrite rev_involutive. left. reflexivity.
Qed.

Lemma wrap_width_bounds depth :
  (14 <= wrap_width depth <= 24)%Z /\ (wrap_width (S depth) <= wrap_width depth)%Z.
Proof. unfold wrap_width. lia. Qed.

Lemma Forall_take {A} (P : A -> Prop) k (l : list A) : Forall P l -> Forall P (take k l).
Proof.
  intros H. revert k. induction H; intros [|k]; simpl; constructor; auto.
Qed.

(** The cases of [_wrap_text] for a positive width; [full] is the
    wrapping before the cap of six lines. *)
Lemma wrap_text_cases (text : str) (max_chars : Z) :
  (0 < max_chars)%Z ->
  exists full : list str,
    _wrap_text text max_chars = Ok (take 6 full)
    /\ (strip text = [] -> full = [[]])
    /\ (has_space (strip text) = false -> (max_chars < len (strip text))%Z ->
        fixed_chunks (Z.to_nat max_chars) (strip text) full)
    /\ (strip text <> [] ->
        has_space (strip text) = true \/ (len (strip text) <= max_chars)%Z ->
        greedy_wrap max_chars (split_ws (strip text)) full)
    /\ Forall (fun line => (len line <= max_chars)%Z) full
    /\ 1 <= length (take 6 full) <= 6.
Proof.
  intros Hpos. unfold _wrap_text.
  destruct (strip text) as [|c s] eqn:Hstrip.
  - exists [[]].
    split; [reflexivity|]. split; [reflexivity|].
    split; [intros _ Hlen; unfold len in Hlen; simpl in Hlen; lia|].
    split; [intros Hne; congruence|].
    split; [constructor; [unfold len; simpl; lia | constructor]|].
    simpl; lia.
  - destruct (has_space (c :: s)) eqn:Hsp; cbn [negb andb].
    2: destruct (Z.ltb_spec max_chars (len (c :: s))) as [Hlong|Hshort].
    2: { (* fixed-size chunks *)
      rewrite (slices_pos _ _ Hpos). cbn [exc_bind].
      pose proof (chunks_fixed (Z.to_nat max_chars) ltac:(lia) (c :: s)) as Hfix.
      exists (chunks (length (c :: s)) (Z.to_nat max_chars) (c :: s)).
      split; [reflexivity|]. split; [discriminate|]. split; [intros _ _; exact Hfix|].
      split; [intros _ [?|?]; [discriminate | lia]|].
      destruct Hfix as (_ & _ & Hb).
      split.
      - eapply Forall_impl; [exact Hb|]. intros piece Hp. simpl in Hp. unfold len. lia.
      - rewrite length_take. split; [|lia].
        change (length (c :: s)) with (S (length s)). cbn [chunks]. simpl. lia. }
    all: (* greedy word wrap *)
      cbv iota;
      pose proof (split_ws_aux_words (c :: s) []) as Hwords;
      fold (split_ws (c :: s)) in Hwords;
      destruct (wrap_loop max_chars (split_ws (c :: s)) Hpos Hwords [] [])
        as (lines' & current' & out & Hfold & Hflush & Hspec);
        [unfold len; simpl; lia|];
      unfold str in *;
      rewrite Hfold; cbn [exc_bind]; rewrite Hflush; cbn [app];
      exists out; (split; [reflexivity|]); (split; [discriminate|]);
      (split; [intros Hf Hl; first [discriminate | lia]|]);
      (split; [intros _ _; exact Hspec|]);
      (split; [eapply greedy_wrap_bound; eauto|]);
      assert (Hout : out <> [])
        by (eapply greedy_wrap_nonempty; [exact Hwords| |exact Hspec];
            apply split_ws_aux_nonempty; right;
            rewrite <- Hstrip; apply strip_has_word; rewrite Hstrip; discriminate);
      rewrite length_take; destruct out; [congruence | cbn [length]; lia].
Qed.

(** [_wrap_text] at a positive width returns between one and six lines. *)
Lemma wrap_text_ok (text : str) (max_chars : Z) :
  (0 < max_chars)%Z ->
  exists wrapped, _wrap_text text max_chars = Ok wrapped /\ 1 <= length wrapped <= 6.
Proof.
  intros Hpos. destruct (wrap_text_cases text max_chars Hpos) as (full & Hret & _ & _ & _ & _ & Hlen).
  eauto.
Qed.

(** C7: the lines [_wrap_text] returns for a positive width.  [full] is
    the wrapping before the cap: the fixed-size split of a text without
    spaces that is longer than the width, the greedy word wrap otherwise
    (one empty line for an empty text).  The value returned is its first
    six lines, every line is at most [max_chars] long and there is at
    least one.  The width the decorator passes lies between 14 and 24 and
    does not grow with the depth. *)
Theorem wrap_text_spec (text : str) (max_chars : Z) :
  (0 < max_chars)%Z ->
  exists full : list str,
    _wrap_text text max_chars = Ok (take 6 full)
    /\ (strip text = [] -> full = [[]])
    /\ (has_space (strip text) = false -> (max_chars < len (strip text))%Z ->
        fixed_chunks (Z.to_nat max_chars) (strip text) full)
    /\ (strip text <> [] ->
        has_space (strip text) = true \/ (len (strip text) <= max_chars)%Z ->
        greedy_wrap max_chars (split_ws (strip text)) full)
    /\ Forall (fun line => (len line <= max_chars)%Z) (take 6 full)
    /\ 1 <= length (take 6 full) <= 6
    /\ (forall depth,
          (14 <= wrap_width depth <= 24)%Z
          /\ (wrap_width (S depth) <= wrap_width depth)%Z).
Proof.
  intros Hpos.
  destruct (wrap_text_cases text max_chars Hpos) as (full & Hret & He & Hc & Hg & Hb & Hlen).
  exists full. repeat (split; [assumption|]).
  split; [by apply Forall_take|]. split; [exact Hlen | apply wrap_width_bounds].
Qed.

Lemma wrap_text_spec_witness :
  exists full : list str,
    _wrap_text (lit "the quick brown fox jumps over the lazy dog") 10 = Ok (take 6 full)
    /\ greedy_wrap 10 (split_ws (lit "the quick brown fox jumps over the lazy dog")) full.
Proof.
  destruct (wrap_text_spec (lit "the quick brown fox jumps over the lazy dog") 10)
    as (full & Hret & _ & _ & Hgreedy & _); [lia|].
  exists full. split; [exact Hret|].
  apply Hgreedy; [discriminate | left; reflexivity].
Defined.

Example wrap_text_unbroken_token :
  _wrap_text (lit "abcdefghijklmnopqrstuvwxyz0123456789ABCD") 22
  = Ok [lit "abcdefghijklmnopqrstuv"; lit "wxyz0123456789ABCD"].
Proof. reflexivity. Qed.

Example wrap_text_truncates :
  _wrap_text (lit "abcdefghijklmnopqrstuvwxyz0123456789ABCD") 3
  = Ok [lit "abc"; lit "def"; lit "ghi"; lit "jkl"; lit "mno"; lit "pqr"].
Proof. reflexivity. Qed.

(** * The parser *)

Lemma pop_deeper_nonempty depth stack : stack <> [] -> pop_deeper depth stack <> [].
Proof.
  induction stack as [|[d r] stack IH]; intros Hne; [congruence|].
  simpl. destruct stack as [|e stack]; [discriminate|].
  destruct (Z.leb_spec depth d); [apply IH; discriminate | discriminate].
Qed.

Lemma pop_deeper_Forall (P : Z * nat -> Prop) depth stack :
  Forall P stack -> Forall P (pop_deeper depth stack).
Proof.
  induction stack as [|[d r] stack IH]; intros HP; [constructor|].
  simpl. destruct stack as [|e stack]; [exact HP|].
  destruct (Z.leb_spec depth d); [|exact HP].
  apply IH. by apply Forall_cons in HP as [_ HP].
Qed.

Lemma attach_ok st bullet :
  heap_ok st -> exists st', attach st bullet = Ok st' /\ heap_ok st'.
Proof.
  destruct st as [h stack], bullet as [depth text]. intros (Hne & Hrefs & Hkids & Hroot).
  unfold attach.
  pose proof (pop_deeper_nonempty (Z.of_nat depth) stack Hne) as Hne'.
  pose proof (pop_deeper_Forall _ (Z.of_nat depth) stack Hrefs) as Hrefs'.
  destruct (pop_deeper (Z.of_nat depth) stack) as [|[d parent] rest] eqn:Hpop; [congruence|].
  eexists. split; [reflexivity|].
  apply Forall_cons in Hrefs' as [Hparent Hrest]. simpl in Hparent.
  unfold heap_ok. rewrite length_alter, length_app. simpl.
  split; [discriminate|]. split; [|split].
  - constructor; [simpl; lia|]. constructor; [simpl; lia|].
    eapply Forall_impl; [exact Hrest|]. simpl. intros; lia.
  - intros i o Hi.
    destruct (decide (i = parent)) as [->|Hne_i].
    + rewrite list_lookup_alter_eq, lookup_app_l in Hi by lia.
      destruct (h !! parent) as [o'|] eqn:Ho'; [|discriminate].
      injection Hi as <-. simpl. apply Forall_app. split.
      * eapply Forall_impl; [exact (Hkids _ _ Ho')|]. simpl. intros; lia.
      * constructor; [lia | constructor].
    + rewrite list_lookup_alter_ne in Hi by congruence.
      destruct (decide (i < length h)) as [Hlt|Hge].
      * rewrite lookup_app_l in Hi by lia.
        eapply Forall_impl; [exact (Hkids _ _ Hi)|]. simpl. intros; lia.
      * rewrite lookup_app_r in Hi by lia.
        destruct (i - length h) as [|k]; [|by destruct k].
        injection Hi as <-. constructor.
  - destruct Hroot as (kids & Hroot & Hgrown). unfold pseudo_root in *.
    assert (Hlen : 0 < length h) by (apply lookup_lt_Some in Hroot; lia).
    destruct (decide (parent = 0)) as [->|Hp].
    + exists (kids ++ [length h]).
      rewrite list_lookup_alter_eq, lookup_app_l, Hroot by lia.
      split; [reflexivity|]. intros _. by destruct kids.
    + exists kids. rewrite list_lookup_alter_ne, lookup_app_l by (congruence || lia).
      split; [exact Hroot|]. intros _. apply Hgrown.
      destruct (decide (1 < length h)) as [|Hone]; [assumption|].
      exfalso. assert (length h = 1) as Hh by lia.
      (* the heap holds the pseudo-root only, so the stack does too *)
      assert (Hall : Forall (fun e : Z * nat => snd e = 0) stack).
      { eapply Forall_impl; [exact Hrefs|]. simpl. intros; lia. }
      apply (pop_deeper_Forall _ (Z.of_nat depth)) in Hall.
      rewrite Hpop in Hall. apply Forall_cons in Hall as [Hp0 _]. simpl in Hp0. congruence.
Qed.

Lemma attach_all_ok bullets st :
  heap_ok st -> exists st', exc_fold attach bullets st = Ok st' /\ heap_ok st'.
Proof.
  revert st. induction bullets as [|b bs IH]; intros st Hst; simpl.
  - eauto.
  - destruct (attach_ok st b Hst) as (st1 & -> & Hst1). simpl. apply IH, Hst1.
Qed.

(** With the fuel the parser gives it, [read_node] follows every
    reference to the end. *)
Lemma read_node_denotes (h : heap) :
  (forall i o, h !! i = Some o -> Forall (fun r => i < r < length h) (o_children o)) ->
  forall fuel ref, ref < length h -> length h - ref <= fuel ->
    denotes h ref (read_node fuel h ref).
Proof.
  intros Hkids. induction fuel as [|fuel IH]; intros ref Hlt Hfuel; [lia|].
  simpl. destruct (h !! ref) as [o|] eqn:Ho.
  - constructor; [exact Ho|].
    specialize (Hkids _ _ Ho).
    induction Hkids as [|r rs Hr _ IHrs]; simpl; constructor; [|exact IHrs].
    apply IH; lia.
  - apply lookup_ge_None in Ho. lia.
Qed.

Lemma read_nodes_denote (h : heap) (refs : list nat) :
  (forall i o, h !! i = Some o -> Forall (fun r => i < r < length h) (o_children o)) ->
  Forall (fun r => r < length h) refs ->
  Forall2 (denotes h) refs (map (read_node (length h) h) refs).
Proof.
  intros Hkids Hrefs. induction Hrefs as [|r rs Hr _ IH]; simpl; [constructor|].
  constructor; [|exact IH].
  apply read_node_denotes; [exact Hkids | lia | lia].
Qed.

Lemma initial_state_ok : heap_ok initial_state.
Proof.
  unfold initial_state, heap_ok, pseudo_root. split; [discriminate|]. split; [|split].
  - constructor; [simpl; lia | constructor].
  - intros [|i] o Hi; simpl in Hi; [|by destruct i].
    injection Hi as <-. constructor.
  - exists []. split; [reflexivity|]. simpl. lia.
Qed.

Lemma attach_grows st bullet st' :
  attach st bullet = Ok st' -> length (fst st') = S (length (fst st)).
Proof.
  destruct st as [h stack], bullet as [depth text]. unfold attach.
  destruct (pop_deeper (Z.of_nat depth) stack) as [|[d parent] rest]; [discriminate|].
  intros [= <-]. simpl. rewrite length_alter, length_app. simpl. lia.
Qed.

Lemma attach_all_grows bullets st st' :
  exc_fold attach bullets st = Ok st' ->
  length (fst st') = length bullets + length (fst st).
Proof.
  revert st. induction bullets as [|b bs IH]; intros st; simpl.
  - intros [= <-]. reflexivity.
  - destruct (attach st b) as [st1|] eqn:Hst1; simpl; [|discriminate].
    intros Hrest. rewrite (IH _ Hrest), (attach_grows _ _ _ Hst1). lia.
Qed.

Lemma scan_line_heading st raw_line :
  fst (scan_line st raw_line) = keep_heading (fst st) raw_line.
Proof.
  destruct st as [ht bs]. unfold scan_line, keep_heading. simpl.
  destruct (bullet_match raw_line) as [[g1 g2]|]; [|reflexivity].
  destruct (_clean_text g2); reflexivity.
Qed.

Lemma scan_heading lines_ st :
  titled (fst (fold_left scan_line lines_ st)) =
  if falsy (fst st)
  then head (List.filter (fun t => negb (falsy (Some t)))
               (omap (fun raw_line => _clean_text <$> heading_match (strip raw_line)) lines_))
  else fst st.
Proof.
  revert st. induction lines_ as [|l ls IH]; intros st.
  - simpl. unfold titled. destruct (falsy (fst st)); reflexivity.
  - cbn [fold_left]. rewrite IH, scan_line_heading. unfold keep_heading.
    cbn [omap list_omap].
    destruct (heading_match (strip l)) as [g|]; cbn [fmap option_fmap option_map].
    + destruct (falsy (fst st)) eqn:Hst.
      * cbn [List.filter]. destruct (falsy (Some (_clean_text g))); reflexivity.
      * rewrite Hst. reflexivity.
    + reflexivity.
Qed.

Lemma scan_title markdown :
  (if falsy (fst (scan markdown)) then lit "Mind Map" else default [] (fst (scan markdown)))
  = default fallback_title (first_titled_heading markdown).
Proof.
  pose proof (scan_heading (splitlines markdown) (None, [])) as H.
  unfold scan, first_titled_heading, heading_titles.
  cbn [fst] in H. change (falsy None) with true in H. cbv iota in H. rewrite <- H.
  unfold titled. destruct (falsy _) eqn:Hf; [reflexivity|].
  destruct (fst _) as [t|]; [reflexivity | discriminate].
Qed.

(** The parser never raises: without a bullet it returns [None], and with
    one it returns a tree. *)
Lemma parse_outcome (markdown : str) :
  match snd (scan markdown) with
  | [] => parse_mind_map_markdown markdown = Ok None
  | _ :: _ => exists t : MindMapNode, parse_mind_map_markdown markdown = Ok (Some t)
  end.
Proof.
  unfold parse_mind_map_markdown.
  destruct (scan markdown) as [heading_title bullets]. cbn [fst snd].
  destruct bullets as [|[first text] bullets]; [reflexivity|].
  destruct (attach_all_ok (normalize_depths first ((first, text) :: bullets)) _ initial_state_ok)
    as ([h stack] & Hfold & _).
  rewrite Hfold. cbn [exc_bind].
  destruct (map _ _) as [|t1 [|t2 ts]]; eexists; reflexivity.
Qed.

(** C3, as amended: the result policy of the parser.  Without a bullet
    the result is [None].  Otherwise the pseudo-root has children when the
    loop ends; one child is returned as it is, two or more are put under
    a new root whose title is the cleaned text of the first heading line
    whose cleaned text is not empty, or "Mind Map" when there is none. *)
Theorem parse_result_policy (markdown : str) :
  match snd (scan markdown) with
  | [] => parse_mind_map_markdown markdown = Ok None
  | ((first, _) :: _) as bullets =>
      exists (h : heap) (stack : list (Z * nat)) (top : list nat) (trees : list MindMapNode),
        exc_fold attach (normalize_depths first bullets) initial_state = Ok (h, stack)
        /\ h !! pseudo_root = Some (MkObj (lit "__pseudo__") top)
        /\ Forall2 (denotes h) top trees
        /\ trees <> []
        /\ parse_mind_map_markdown markdown =
             Ok (Some (match trees with
                       | [only] => only
                       | _ => MkMindMapNode
                                (default fallback_title (first_titled_heading markdown)) trees
                       end))
  end.
Proof.
  unfold parse_mind_map_markdown.
  pose proof (scan_title markdown) as Htitle.
  destruct (scan markdown) as [heading_title bullets]. cbn [fst snd] in *.
  destruct bullets as [|[first text] bullets]; [reflexivity|].
  destruct (attach_all_ok (normalize_depths first ((first, text) :: bullets)) _ initial_state_ok)
    as ([h stack] & Hfold & Hok).
  pose proof (attach_all_grows _ _ _ Hfold) as Hlen.
  destruct Hok as (_ & _ & Hkids & top & Hroot & Hgrown).
  exists h, stack, top, (map (read_node (length h) h) top).
  rewrite Hfold. cbn [exc_bind]. rewrite Hroot. cbn [o_children].
  split; [reflexivity|]. split; [reflexivity|].
  assert (Hden : Forall2 (denotes h) top (map (read_node (length h) h) top)).
  { apply read_nodes_denote; [exact Hkids|].
    eapply Forall_impl; [exact (Hkids _ _ Hroot)|]. simpl. intros; lia. }
  split; [exact Hden|].
  assert (Htop : top <> []).
  { apply Hgrown. simpl in Hlen. unfold normalize_depths in Hlen.
    rewrite length_map in Hlen. simpl in Hlen. lia. }
  split; [by destruct top|].
  destruct (map (read_node (length h) h) top) as [|t1 [|t2 ts]]; rewrite ?Htitle; reflexivity.
Qed.

(** The examples of the specification. *)
Example parse_single_top_level :
  parse_mind_map_markdown (doc ["- A"; "  - B"; "  - C"]%string)
  = Ok (Some (MkMindMapNode (lit "A")
                [MkMindMapNode (lit "B") []; MkMindMapNode (lit "C") []])).
Proof. vm_compute. reflexivity. Qed.

Example parse_wraps_under_heading :
  parse_mind_map_markdown (doc ["# Topic"; "- a"; "- b"]%string)
  = Ok (Some (MkMindMapNode (lit "Topic")
                [MkMindMapNode (lit "a") []; MkMindMapNode (lit "b") []])).
Proof. vm_compute. reflexivity. Qed.

Example parse_no_bullets :
  parse_mind_map_markdown (doc ["just a paragraph"]%string) = Ok None.
Proof. vm_compute. reflexivity. Qed.

(** C3 as stated fails on the title of the new root.  The first heading
    of the first document cleans to the empty string and the title is
    taken from the second heading; the second document has a heading and
    still gets the fallback title. *)
Lemma parse_title_not_first_heading :
  (first_heading (doc ["# **"; "# Real"; "- a"; "- b"]%string) = Some []
   /\ parse_mind_map_markdown (doc ["# **"; "# Real"; "- a"; "- b"]%string)
      = Ok (Some (MkMindMapNode (lit "Real")
                    [MkMindMapNode (lit "a") []; MkMindMapNode (lit "b") []])))
  /\ (first_heading (doc ["# **"; "- a"; "- b"]%string) = Some []
      /\ parse_mind_map_markdown (doc ["# **"; "- a"; "- b"]%string)
         = Ok (Some (MkMindMapNode (lit "Mind Map")
                       [MkMindMapNode (lit "a") []; MkMindMapNode (lit "b") []]))).
Proof. repeat split; vm_compute; reflexivity. Qed.

(** * Trees *)

Lemma MindMapNode_induction (P : MindMapNode -> Prop) :
  (forall title children, Forall P children -> P (MkMindMapNode title children)) ->
  forall t, P t.
Proof.
  intros step. fix IH 1. intros [title children]. apply step.
  induction children as [|c cs IHcs]; constructor; [apply IH | exact IHcs].
Qed.

Lemma RenderNode_induction {R : Type} (P : _RenderNode R -> Prop) :
  (forall node_id title depth children lines_ width height x y,
      Forall P children ->
      P (MkRenderNode node_id title depth children lines_ width height x y)) ->
  forall node, P node.
Proof.
  intros step. fix IH 1. intros [node_id title depth children lines_ width height x y].
  apply step. induction children as [|c cs IHcs]; constructor; [apply IH | exact IHcs].
Qed.

Section TreeLemmas.
Context {R : Type} {num : Num R}.

Lemma rn_all_children (P : _RenderNode R -> Prop) (children : list (_RenderNode R)) :
  fold_right (fun child rest => rn_all P child /\ rest) True children
  <-> Forall (rn_all P) children.
Proof.
  induction children as [|c cs IH]; simpl.
  - split; [constructor | trivial].
  - rewrite Forall_cons, IH. reflexivity.
Qed.

Lemma rn_all_unfold (P : _RenderNode R -> Prop) (node : _RenderNode R) :
  rn_all P node <-> P node /\ Forall (rn_all P) (rn_children node).
Proof. destruct node. cbn [rn_all rn_children]. by rewrite rn_all_children. Qed.

(** [_collect_nodes] lists the tree parent first. *)
Lemma dfs_flat (node : _RenderNode R) :
  forall st, dfs node st = (fst st ++ flat node, snd st ++ flat_edges node).
Proof.
  induction node as [node_id title depth children lines_ width height x y IH]
    using RenderNode_induction.
  intros [ns es]. cbn [dfs flat flat_edges fst snd].
  set (self := positioned (MkRenderNode node_id title depth children lines_ width height x y)).
  assert (Hloop : forall ns es,
    fold_left (fun st child => dfs child (fst st, snd st ++ [(node_id, rn_id child)]))
      children (ns, es)
    = (ns ++ flat_map flat children,
       es ++ flat_map (fun child => (node_id, rn_id child) :: flat_edges child) children)).
  { clear ns es. induction IH as [|c cs Hc _ IHcs]; intros ns es; cbn [fold_left flat_map].
    - by rewrite !app_nil_r.
    - rewrite Hc. cbn [fst snd]. rewrite IHcs.
      by rewrite <- !app_assoc. }
  rewrite Hloop. by rewrite <- app_assoc.
Qed.

Lemma collect_nodes_flat (root : _RenderNode R) :
  _collect_nodes root = (flat root, flat_edges root).
Proof. unfold _collect_nodes. by rewrite dfs_flat. Qed.

Lemma flat_head (node : _RenderNode R) : head (flat node) = Some (positioned node).
Proof. by destruct node. Qed.

Lemma flat_unfold (node : _RenderNode R) :
  flat node = positioned node :: flat_map flat (rn_children node).
Proof. by destruct node. Qed.

Lemma flat_unfold_id (node : _RenderNode R) :
  map node_id (flat node) = rn_id node :: map node_id (flat_map flat (rn_children node)).
Proof. by destruct node. Qed.

Lemma positioned_fields (node : _RenderNode R) :
  x (positioned node) = rn_x node /\ y (positioned node) = rn_y node
  /\ width (positioned node) = rn_width node /\ height (positioned node) = rn_height node.
Proof. by destruct node. Qed.

Lemma visit_eq title children depth counter :
  visit (R := R) (MkMindMapNode title children) depth counter =
  let* wrapped := _wrap_text title (wrap_width depth) in
  let* out := visit_children (S depth) children (S counter) in
  Ok (MkRenderNode counter title depth (fst out) wrapped
        (node_width wrapped) (node_height wrapped) (of_Z 0) (of_Z 0),
      snd out).
Proof. reflexivity. Qed.

(** [visit] never raises; it numbers the nodes of the subtree from the
    counter on, parent first, and sizes every box from its lines. *)
Lemma visit_spec (t : MindMapNode) :
  forall depth counter,
  exists r : _RenderNode R,
    visit t depth counter = Ok (r, counter + mm_size t)
    /\ map node_id (flat r) = seq counter (mm_size t)
    /\ rn_all well_sized r
    /\ rn_title r = mm_title t /\ rn_depth r = depth /\ rn_id r = counter.
Proof.
  induction t as [title children IH] using MindMapNode_induction.
  intros depth counter. rewrite visit_eq.
  destruct (wrap_text_ok title (wrap_width depth)) as (wrapped & -> & Hlines).
  { unfold wrap_width. lia. }
  cbn [exc_bind].
  assert (Hkids : forall counter,
    exists rs : list (_RenderNode R),
      visit_children (S depth) children counter
        = Ok (rs, counter + list_sum (map mm_size children))
      /\ map node_id (flat_map flat rs) = seq counter (list_sum (map mm_size children))
      /\ Forall (rn_all well_sized) rs).
  { clear counter. induction IH as [|c cs Hc _ IHcs]; intros counter.
    - exists []. cbn. rewrite Nat.add_0_r. repeat split. constructor.
    - destruct (Hc (S depth) counter) as (r & Hr & Hids & Hsized & _).
      destruct (IHcs (counter + mm_size c)) as (rs & Hrs & Hids' & Hsized').
      exists (r :: rs). cbn [visit_children]. rewrite Hr. cbn [exc_bind snd fst].
      fold (visit_children (R := R) (S depth)). rewrite Hrs. cbn [exc_bind snd fst].
      change (list_sum (map mm_size (c :: cs)))
        with (mm_size c + list_sum (map mm_size cs)).
      cbn [flat_map]. rewrite Nat.add_assoc.
      split; [reflexivity|]. split; [|by constructor].
      rewrite map_app, Hids, Hids', seq_app. reflexivity. }
  destruct (Hkids (S counter)) as (rs & -> & Hids & Hsized). cbn [exc_bind fst snd].
  eexists. split.
  { cbn [mm_size]. rewrite <- Nat.add_succ_comm. reflexivity. }
  cbn [flat map positioned node_id mm_size seq rn_title rn_depth rn_id mm_title].
  rewrite Hids. split; [reflexivity|]. split; [|repeat split].
  apply rn_all_unfold. split; [|exact Hsized].
  unfold well_sized. cbn [rn_lines rn_width rn_height]. repeat split; lia.
Qed.

Lemma decorate_spec (t : MindMapNode) :
  exists r : _RenderNode R,
    _decorate_tree t = Ok r
    /\ map node_id (flat r) = seq 0 (mm_size t)
    /\ rn_all well_sized r
    /\ rn_title r = mm_title t /\ rn_depth r = 0 /\ rn_id r = 0.
Proof.
  destruct (visit_spec t 0 0) as (r & Hr & Hrest).
  exists r. unfold _decorate_tree. rewrite Hr. split; [reflexivity | exact Hrest].
Qed.
End TreeLemmas.

(** * Placement keeps the tree *)

Section PlaceKeeps.
Context {R : Type} {num : Num R}.

Lemma place_stacked_each (place : _RenderNode R -> R -> _RenderNode R) gap cs start :
  Forall2 (fun c p => exists center, p = place c center) cs (place_stacked place gap cs start).
Proof.
  revert start. induction cs as [|c cs IH]; intros start; cbn [place_stacked].
  - constructor.
  - constructor; [eauto | apply IH].
Qed.

Lemma place_stacked_length (place : _RenderNode R -> R -> _RenderNode R) gap cs start :
  length (place_stacked place gap cs start) = length cs.
Proof.
  revert start. induction cs as [|c cs IH]; intros start; cbn [place_stacked length];
    [reflexivity | by rewrite IH].
Qed.

Lemma preserved_children (node_id : nat) (cs ps : list (_RenderNode R)) :
  Forall2 preserved cs ps ->
  map info (flat_map flat ps) = map info (flat_map flat cs)
  /\ flat_map (fun child => (node_id, rn_id child) :: flat_edges child) ps
     = flat_map (fun child => (node_id, rn_id child) :: flat_edges child) cs.
Proof.
  induction 1 as [|c p cs ps (Hid & Hinfo & Hedges) _ [IHinfo IHedges]]; [done|].
  cbn [flat_map]. rewrite !map_app, Hinfo, IHinfo, Hid, Hedges, IHedges. done.
Qed.

Lemma place_stacked_Forall2 (rel : _RenderNode R -> _RenderNode R -> Prop)
    (place : _RenderNode R -> R -> _RenderNode R) gap cs start :
  Forall (fun c => forall center, rel c (place c center)) cs ->
  Forall2 rel cs (place_stacked place gap cs start).
Proof.
  intros Hall. revert start.
  induction Hall as [|c cs Hc _ IH]; intros start; cbn [place_stacked]; constructor; auto.
Qed.

Lemma place_subtree_preserved (node : _RenderNode R) :
  forall side depth center_y, preserved node (_place_subtree node side depth center_y).
Proof.
  induction node as [node_id title d children lines_ width height x y IH]
    using RenderNode_induction.
  intros side depth center_y.
  destruct children as [|c cs]; [by repeat split|].
  cbn [_place_subtree].
  set (placed := place_stacked _ _ _ _).
  assert (Hkids : Forall2 preserved (c :: cs) placed).
  { apply place_stacked_Forall2.
    eapply Forall_impl; [exact IH|]. cbn beta. intros child Hchild center. apply Hchild. }
  destruct (preserved_children node_id _ _ Hkids) as [Hinfo Hedges].
  split; [reflexivity|]. split.
  - cbn [flat map positioned info]. by rewrite Hinfo.
  - cbn [flat_edges]. exact Hedges.
Qed.

Lemma place_side_preserved (children : list (_RenderNode R)) side :
  Forall2 preserved children (place_side children side).
Proof.
  destruct children as [|c cs]; [constructor|].
  unfold place_side. apply place_stacked_Forall2.
  apply Forall_forall. intros child _ center. apply place_subtree_preserved.
Qed.
End PlaceKeeps.

(** * Exact arithmetic *)

Local Open Scope Q_scope.

Lemma Qltb_spec (a b : Q) : if Qltb a b then a < b else b <= a.
Proof.
  unfold Qltb. destruct (Qle_bool b a) eqn:Hle; simpl.
  - by apply Qle_bool_iff.
  - destruct (Qlt_le_dec a b) as [?|H]; [assumption|].
    apply Qle_bool_iff in H. congruence.
Qed.

Lemma py_max_spec (a b : Q) :
  a <= py_max a b /\ b <= py_max a b /\ (py_max a b = a \/ py_max a b = b).
Proof.
  unfold py_max. qnum. pose proof (Qltb_spec a b) as H.
  destruct (Qltb a b); repeat split; auto; lra.
Qed.

Lemma py_min_spec (a b : Q) :
  py_min a b <= a /\ py_min a b <= b /\ (py_min a b = a \/ py_min a b = b).
Proof.
  unfold py_min. qnum. pose proof (Qltb_spec b a) as H.
  destruct (Qltb b a); repeat split; auto; lra.
Qed.

Lemma fold_sum_acc (l : list Q) (acc : Q) :
  fold_left Qplus l acc == acc + fold_left Qplus l 0.
Proof.
  revert acc. induction l as [|a l IH]; intros acc; cbn [fold_left].
  - lra.
  - rewrite (IH (acc + a)), (IH (0 + a)). generalize (fold_left Qplus l 0). intros; lra.
Qed.

Lemma py_sum_nil : py_sum (R := Q) [] == 0.
Proof. reflexivity. Qed.

Lemma py_sum_cons (a : Q) (l : list Q) : py_sum (a :: l) == a + py_sum l.
Proof.
  unfold py_sum. qnum. cbn [fold_left]. rewrite fold_sum_acc.
  generalize (fold_left Qplus l 0). intros; lra.
Qed.

Lemma py_sum_ge (bound : Q) (l : list Q) :
  Forall (fun v => bound <= v) l -> bound * inject_Z (Z.of_nat (length l)) <= py_sum l.
Proof.
  induction 1 as [|a l Ha _ IH].
  - rewrite py_sum_nil. change (inject_Z (Z.of_nat (length (@nil Q)))) with 0. lra.
  - rewrite py_sum_cons. cbn [length]. rewrite Nat2Z.inj_succ, <- Z.add_1_r, inject_Z_plus.
    qlit. lra.
Qed.

Lemma py_sum_le (bound : Q) (l : list Q) :
  Forall (fun v => v <= bound) l -> py_sum l <= bound * inject_Z (Z.of_nat (length l)).
Proof.
  induction 1 as [|a l Ha _ IH].
  - rewrite py_sum_nil. change (inject_Z (Z.of_nat (length (@nil Q)))) with 0. lra.
  - rewrite py_sum_cons. cbn [length]. rewrite Nat2Z.inj_succ, <- Z.add_1_r, inject_Z_plus.
    qlit. lra.
Qed.

Lemma inject_nat_succ (n : nat) :
  inject_Z (Z.of_nat (S n)) == inject_Z (Z.of_nat n) + 1.
Proof. rewrite Nat2Z.inj_succ, <- Z.add_1_r, inject_Z_plus. reflexivity. Qed.

Lemma inject_nat_nonneg (n : nat) : 0 <= inject_Z (Z.of_nat n).
Proof. change 0 with (inject_Z 0). rewrite <- Zle_Qle. lia. Qed.

(** The box of a decorated node. *)
Lemma node_width_bounds (wrapped : list str) :
  135 <= node_width (R := Q) wrapped <= 360.
Proof.
  unfold node_width.
  set (inner := py_min MAX_NODE_WIDTH _).
  assert (Hinner : inner <= 360) by (apply py_min_spec).
  destruct (py_max_spec MIN_NODE_WIDTH inner) as (Hl & Hr & [Heq|Heq]);
    rewrite Heq in *; clearbody inner; qconst; lra.
Qed.

Lemma node_height_bounds (wrapped : list str) :
  (1 <= length wrapped <= 6)%nat -> 40 <= node_height (R := Q) wrapped <= 110.
Proof.
  intros Hlen. unfold node_height.
  assert (Hn : inject_Z (Z.of_nat (length wrapped)) <= 6).
  { change 6 with (inject_Z 6). rewrite <- Zle_Qle. lia. }
  set (inner := (NODE_PADDING_Y + _)%num).
  assert (Hinner : inner <= 110) by (subst inner; qconst; lra).
  destruct (py_max_spec (of_Z 40) inner) as (Hl & Hr & [Heq|Heq]);
    rewrite Heq in *; clearbody inner; qconst; lra.
Qed.

(** * No two boxes overlap *)

Lemma pairwise_app {A : Type} (rel : A -> A -> Prop) (l1 l2 : list A) :
  pairwise rel l1 -> pairwise rel l2 ->
  (forall a b, a ∈ l1 -> b ∈ l2 -> rel a b) ->
  pairwise rel (l1 ++ l2).
Proof.
  intros H1 H2 Hcross. induction H1 as [|a l1 Ha _ IH]; [exact H2|].
  cbn [app]. constructor.
  - apply Forall_app. split; [exact Ha|].
    apply Forall_forall. intros b Hb. apply Hcross; [left | exact Hb].
  - apply IH. intros a' b Ha' Hb. apply Hcross; [by right | exact Hb].
Qed.

Lemma pairwise_lookup {A : Type} (rel : A -> A -> Prop) (l : list A) :
  (forall a b, rel a b -> rel b a) ->
  pairwise rel l ->
  forall i j a b, i <> j -> l !! i = Some a -> l !! j = Some b -> rel a b.
Proof.
  intros Hsym Hpw. induction Hpw as [|c l Hc _ IH]; intros i j a b Hij Hi Hj.
  - by rewrite lookup_nil in Hi.
  - destruct i as [|i], j as [|j]; simpl in Hi, Hj.
    + congruence.
    + injection Hi as <-. rewrite Forall_forall in Hc. apply Hc.
      by eapply list_elem_of_lookup_2.
    + injection Hj as <-. apply Hsym. rewrite Forall_forall in Hc. apply Hc.
      by eapply list_elem_of_lookup_2.
    + eapply (IH i j); eauto.
Qed.

Lemma removelast_cons2 {A : Type} (a : A) (l : list A) :
  l <> [] -> removelast (a :: l) = a :: removelast l.
Proof. by destruct l. Qed.

Lemma disjoint_sym (a b : PositionedNode Q) : disjoint a b -> disjoint b a.
Proof. unfold disjoint. tauto. Qed.

Abbreviation Hq := (_subtree_height (R := Q)).

Lemma stack_height_one gap (c : _RenderNode Q) : stack_height gap [c] == Hq c.
Proof.
  unfold stack_height, sum_heights. cbn [map length]. rewrite py_sum_cons, py_sum_nil.
  change (inject_Z (Z.of_nat 1 - 1)) with 0. qlra.
Qed.

Lemma stack_height_cons gap (c d : _RenderNode Q) (rest : list (_RenderNode Q)) :
  stack_height gap (c :: d :: rest) == Hq c + gap + stack_height gap (d :: rest).
Proof.
  unfold stack_height, sum_heights. cbn [map]. rewrite !py_sum_cons.
  replace (Z.of_nat (length (c :: d :: rest)) - 1)%Z
    with ((Z.of_nat (length (d :: rest)) - 1) + 1)%Z by (cbn [length]; lia).
  rewrite inject_Z_plus. qlit. qlra.
Qed.

(** The subtree height of a decorated node. *)
Lemma subtree_height_eq node_id title depth children lines_ width height x y :
  Hq (MkRenderNode node_id title depth children lines_ width height x y)
  = match children with
    | [] => height
    | _ :: _ => py_max height (stack_height (of_Z 26) children)
    end.
Proof. destruct children; reflexivity. Qed.

Lemma subtree_height_ge (node : _RenderNode Q) : rn_height node <= Hq node.
Proof.
  destruct node as [node_id title depth children lines_ width height x y].
  rewrite subtree_height_eq. cbn [rn_height].
  destruct children; [qlra | apply py_max_spec].
Qed.

Lemma well_sized_box (node : _RenderNode Q) : well_sized node -> sized_box (positioned node).
Proof.
  destruct node as [node_id title depth children lines_ width height x y].
  intros (Hlen & Hw & Hh). cbn [rn_lines rn_width rn_height] in *. subst.
  split; cbn [positioned width height].
  - apply node_width_bounds.
  - by apply node_height_bounds.
Qed.

Lemma well_sized_height (node : _RenderNode Q) :
  well_sized node -> 40 <= rn_height node <= 110.
Proof.
  intros H. apply well_sized_box in H as [_ H]. by destruct node.
Qed.

Lemma beyond_deeper side depth b : beyond side (depth + 1) b -> beyond side depth b.
Proof. unfold beyond. rewrite inject_Z_plus. qlit. qlra. Qed.

Lemma inject_side side depth (v : Q) :
  side = 1%Z \/ side = (-1)%Z ->
  v == inject_Z (side * depth) * 420 -> inject_Z side * v == inject_Z depth * 420.
Proof.
  intros [->| ->] Hv; rewrite Hv.
  - rewrite Z.mul_1_l. qlit. qlra.
  - replace (-1 * depth)%Z with (- depth)%Z by lia. rewrite inject_Z_opp. qlit. qlra.
Qed.

Lemma placed_beyond side depth center n p :
  side = 1%Z \/ side = (-1)%Z ->
  placed_ok side depth center n p -> Forall (beyond side depth) (flat p).
Proof.
  intros Hside Hok. rewrite flat_unfold. constructor.
  - unfold beyond. destruct (positioned_fields p) as (-> & _).
    rewrite (inject_side side depth _ Hside (ok_x _ _ _ _ _ Hok)). qlra.
  - eapply Forall_impl; [exact (ok_below _ _ _ _ _ Hok)|]. apply beyond_deeper.
Qed.

(** A box at depth [depth] and a box beyond depth [depth + 1] on the same
    side are apart in x. *)
Lemma column_disjoint side depth (a b : PositionedNode Q) :
  side = 1%Z \/ side = (-1)%Z ->
  x a == inject_Z (side * depth) * 420 ->
  beyond side (depth + 1) b ->
  sized_box a -> sized_box b ->
  disjoint a b.
Proof.
  intros Hside Ha Hb [Hwa _] [Hwb _].
  pose proof (inject_side side depth _ Hside Ha) as Ha'.
  unfold beyond in Hb. rewrite inject_Z_plus in Hb.
  unfold disjoint, box_left, box_right.
  destruct Hside as [->| ->]; qlit; [left | right; left]; qlra.
Qed.

Section Stacked.
Variable place : _RenderNode Q -> Q -> _RenderNode Q.
Variables (gap : Q) (side depth : Z).
Hypothesis gap_ge : 26 <= gap.
Hypothesis side_unit : side = 1%Z \/ side = (-1)%Z.

(** Siblings placed in stacked bands: their boxes stay within the stack
    and do not overlap, and the sum of their centers keeps off both
    ends. *)
Lemma stacked_ok (rest : list (_RenderNode Q)) :
  forall (c : _RenderNode Q) (start : Q),
    Forall (fun n => 40 <= Hq n /\ forall center, placed_ok side depth center n (place n center))
      (c :: rest) ->
    let ps := place_stacked place gap (c :: rest) start in
    let stop := start + stack_height gap (c :: rest) in
    let count := inject_Z (Z.of_nat (length rest)) in
    Forall (within start stop) (flat_map flat ps)
    /\ Forall (beyond side depth) (flat_map flat ps)
    /\ Forall sized_box (flat_map flat ps)
    /\ pairwise disjoint (flat_map flat ps)
    /\ (start + 20) + (start + 86) * count <= py_sum (map rn_y ps)
    /\ py_sum (map rn_y ps) <= (stop - 20) + (stop - 86) * count.
Proof.
  induction rest as [|d rest IH]; intros c start Hall ps stop count;
    apply Forall_cons in Hall as [[Hc Hplace] Hall];
    specialize (Hplace (start + Hq c / 2));
    pose proof (ok_band _ _ _ _ _ Hplace) as Hband;
    pose proof (ok_y_low _ _ _ _ _ Hplace) as Hlow;
    pose proof (ok_y_high _ _ _ _ _ Hplace) as Hhigh;
    pose proof (placed_beyond _ _ _ _ _ side_unit Hplace) as Hbeyond.
  - (* one band *)
    subst ps stop count.
    change (place_stacked place gap [c] start) with [place c (start + Hq c / 2)].
    cbn [flat_map map]. rewrite app_nil_r.
    pose proof (stack_height_one gap c) as Hone.
    split; [|split; [exact Hbeyond|split; [exact (ok_sized _ _ _ _ _ Hplace)|
            split; [exact (ok_disjoint _ _ _ _ _ Hplace)|]]]].
    + eapply Forall_impl; [exact Hband|]. unfold within. intros b [? ?]. qlra.
    + rewrite py_sum_cons, py_sum_nil.
      change (inject_Z (Z.of_nat (length (@nil (_RenderNode Q))))) with 0.
      split; qlra.
  - (* a band and the stack after it *)
    pose proof (stack_height_cons gap c d rest) as Hcons.
    assert (Hd : 40 <= stack_height gap (d :: rest)).
    { clear -Hall gap_ge. revert d Hall. induction rest as [|e rest IHr]; intros d Hall.
      - apply Forall_cons in Hall as [[Hd _] _]. rewrite stack_height_one. exact Hd.
      - apply Forall_cons in Hall as [[Hd _] Hall]. rewrite stack_height_cons.
        specialize (IHr e Hall). qlra. }
    destruct (IH d (start + (Hq c + gap)) Hall)
      as (Hin & Hbey & Hsz & Hpw & Hlo & Hhi).
    subst ps stop count.
    set (ps' := place_stacked place gap (d :: rest) (start + (Hq c + gap))) in *.
    change (place_stacked place gap (c :: d :: rest) start)
      with (place c (start + Hq c / 2) :: ps').
    cbn [flat_map map]. rewrite py_sum_cons.
    pose proof (inject_nat_succ (length rest)) as Hcount.
    pose proof (inject_nat_nonneg (length rest)) as Hpos.
    change (length (d :: rest)) with (S (length rest)).
    revert Hlo Hhi Hcount Hpos.
    generalize (inject_Z (Z.of_nat (S (length rest)))) (inject_Z (Z.of_nat (length rest))).
    intros count count' Hlo Hhi Hcount Hpos.
    split; [|split; [|split; [|split; [|split]]]].
    + apply Forall_app. split.
      * eapply Forall_impl; [exact Hband|]. unfold within. intros b [? ?]. qlra.
      * eapply Forall_impl; [exact Hin|]. unfold within. cbn beta. intros b [? ?]. qlra.
    + apply Forall_app. split; assumption.
    + apply Forall_app. split; [exact (ok_sized _ _ _ _ _ Hplace) | assumption].
    + apply pairwise_app; [exact (ok_disjoint _ _ _ _ _ Hplace) | exact Hpw |].
      intros a b Ha Hb.
      rewrite Forall_forall in Hband. apply Hband in Ha as [_ Ha].
      rewrite Forall_forall in Hin. apply Hin in Hb as [Hb _].
      unfold disjoint. right. right. left. qlra.
    + rewrite Hcount in *. qconst. qdiv. nra.
    + rewrite Hcount in *. qconst. qdiv. nra.
Qed.
End Stacked.

Lemma mean_one (v : Q) : py_sum [v] / inject_Z (Z.of_nat (length [v])) == v.
Proof.
  rewrite py_sum_cons, py_sum_nil. change (inject_Z (Z.of_nat (length [v]))) with 1. qlra.
Qed.

Lemma place_subtree_eq node_id title d c cs lines_ width height x0 y0 side depth center_y :
  _place_subtree (R := Q)
    (MkRenderNode node_id title d (c :: cs) lines_ width height x0 y0) side depth center_y
  = let start := center_y - stack_height 26 (c :: cs) / 2 in
    let placed :=
      place_stacked (fun child ctr => _place_subtree child side (depth + 1) ctr)
        26 (c :: cs) start in
    MkRenderNode node_id title d placed lines_ width height
      (inject_Z (side * depth) * 420)
      (py_sum (map rn_y placed) / inject_Z (Z.of_nat (length (map rn_y placed)))).
Proof. reflexivity. Qed.

(** The invariant of [_place_subtree]: the subtree stays in its band up to
    a slack of 2, deeper nodes lie in columns further out, and no two of
    its boxes overlap. *)
Lemma place_subtree_ok (n : _RenderNode Q) :
  rn_all well_sized n ->
  forall side depth center,
    side = 1%Z \/ side = (-1)%Z ->
    placed_ok side depth center n (_place_subtree n side depth center).
Proof.
  induction n as [node_id title d children lines_ w_ h_ x0 y0 IH]
    using RenderNode_induction.
  intros Hsized side depth center Hside.
  apply rn_all_unfold in Hsized as [Hself Hkids]. cbn [rn_children] in Hkids.
  pose proof (well_sized_box _ Hself) as Hbox.
  pose proof (well_sized_height _ Hself) as Hheight. cbn [rn_height] in Hheight.
  destruct children as [|c cs].
  - (* a leaf *)
    cbn [_place_subtree].
    assert (Hbox' : sized_box (positioned
              (MkRenderNode node_id title d [] lines_ w_ h_
                 (of_Z (side * depth) * H_STEP)%num center))) by exact Hbox.
    constructor; cbn [rn_x rn_y rn_children flat flat_map _subtree_height].
    + qconst. reflexivity.
    + left. lra.
    + left. lra.
    + constructor; [|constructor]. unfold within, box_top, box_bottom.
      cbn [positioned y height]. qlra.
    + constructor.
    + constructor; [exact Hbox' | constructor].
    + constructor; [constructor | constructor].
  - (* a node with children *)
    rewrite place_subtree_eq. cbv zeta.
    set (start := center - stack_height 26 (c :: cs) / 2).
    set (placed := place_stacked _ 26 (c :: cs) start).
    assert (Hall : Forall (fun n => 40 <= Hq n /\
              forall ctr, placed_ok side (depth + 1) ctr n
                            (_place_subtree n side (depth + 1) ctr)) (c :: cs)).
    { rewrite Forall_forall in IH, Hkids. apply Forall_forall. intros child Hchild. split.
      - pose proof (Hkids _ Hchild) as Hc. apply rn_all_unfold in Hc as [Hc _].
        pose proof (well_sized_height _ Hc). pose proof (subtree_height_ge child). lra.
      - intros ctr. apply IH; auto. }
    destruct (stacked_ok (fun child ctr => _place_subtree child side (depth + 1) ctr)
                26 side (depth + 1) ltac:(lra) Hside cs c start Hall)
      as (Hin & Hbey & Hsz & Hpw & Hlo & Hhi).
    fold placed in Hin, Hbey, Hsz, Hpw, Hlo, Hhi.
    set (total := stack_height 26 (c :: cs)) in *.
    set (H := Hq (MkRenderNode node_id title d (c :: cs) lines_ w_ h_ x0 y0)).
    assert (HH : h_ <= H /\ total <= H).
    { subst H. rewrite subtree_height_eq. split; apply py_max_spec. }
    set (yN := py_sum (map rn_y placed) / inject_Z (Z.of_nat (length (map rn_y placed)))).
    assert (Hy : (center <= yN \/ center - H / 2 + 53 <= yN)
                 /\ (yN <= center \/ yN <= center + H / 2 - 53)).
    { destruct cs as [|c2 cs].
      - (* one child: the parent takes its center *)
        assert (HyN : yN == rn_y (_place_subtree c side (depth + 1) (start + Hq c / 2))).
        { exact (mean_one _). }
        apply Forall_cons in Hall as [[Hc Hplace] _].
        specialize (Hplace (start + Hq c / 2)).
        pose proof (ok_y_low _ _ _ _ _ Hplace) as Hlow.
        pose proof (ok_y_high _ _ _ _ _ Hplace) as Hhigh.
        pose proof (stack_height_one 26 c) as Hone. fold total in Hone.
        rewrite HyN. subst start. split; qlra.
      - (* two children or more: the mean keeps 53 off both ends *)
        assert (Hlen : length (map rn_y placed) = S (length (c2 :: cs))).
        { rewrite length_map. subst placed. by rewrite place_stacked_length. }
        subst yN. rewrite Hlen.
        pose proof (inject_nat_succ (length (c2 :: cs))) as Hcount.
        pose proof (inject_nat_succ (length cs)) as Hcount'.
        pose proof (inject_nat_nonneg (length cs)) as Hpos.
        change (length (c2 :: cs)) with (S (length cs)) in *.
        revert Hlo Hhi Hcount Hcount' Hpos.
        generalize (py_sum (map rn_y placed))
          (inject_Z (Z.of_nat (S (S (length cs)))))
          (inject_Z (Z.of_nat (S (length cs))))
          (inject_Z (Z.of_nat (length cs))).
        intros total_y k2 k1 k0 Hlo Hhi Hcount Hcount' Hpos.
        assert (Hk2 : 0 < k2) by lra.
        split; right.
        + apply Qle_shift_div_l; [exact Hk2|]. subst start. qconst. qdiv. nra.
        + apply Qle_shift_div_r; [exact Hk2|]. subst start. qconst. qdiv. nra. }
    clearbody yN. destruct Hy as [Hylow Hyhigh].
    constructor; cbn [rn_x rn_y rn_children flat].
    + reflexivity.
    + exact Hylow.
    + exact Hyhigh.
    + constructor.
      * unfold within, box_top, box_bottom. cbn [positioned y height].
        fold H. qlra.
      * eapply Forall_impl; [exact Hin|]. unfold within. cbn beta. fold H.
        subst start. clearbody total. intros b [? ?]. qlra.
    + exact Hbey.
    + constructor; [exact Hbox | exact Hsz].
    + constructor; [|exact Hpw].
      rewrite Forall_forall in Hbey, Hsz. apply Forall_forall. intros b Hb.
      eapply (column_disjoint side depth); eauto.
      cbn [positioned x]. reflexivity.
Qed.

Local Close Scope Q_scope.

(** * Side assignment *)

Section Split.
Context {R : Type} {num : Num R}.
Local Open Scope num_scope.

Lemma sum_heights_snoc (group : list (_RenderNode R)) (child : _RenderNode R) :
  sum_heights (group ++ [child]) = sum_heights group + _subtree_height child.
Proof. unfold sum_heights, py_sum. by rewrite map_app, fold_left_app. Qed.

(** The loop of [_split_top_level_children] carries the accumulated
    heights of the two groups and extends a greedy split. *)
Lemma split_loop_greedy (children : list (_RenderNode R)) :
  forall done left_ right_,
    greedy_split done left_ right_ ->
    exists left' right',
      fold_left split_step children
        (left_, right_, sum_heights left_, sum_heights right_)
      = (left', right', sum_heights left', sum_heights right')
      /\ greedy_split (done ++ children) left' right'.
Proof.
  induction children as [|c cs IH]; intros done left_ right_ Hg.
  - exists left_, right_. rewrite app_nil_r. by split.
  - cbn [fold_left]. unfold split_step at 2.
    replace (done ++ c :: cs) with ((done ++ [c]) ++ cs) by (by rewrite <- app_assoc).
    destruct (sum_heights left_ <=? sum_heights right_) eqn:Hle.
    + rewrite <- sum_heights_snoc. apply IH. by apply greedy_split_left.
    + rewrite <- sum_heights_snoc. apply IH. by apply greedy_split_right.
Qed.

Lemma greedy_split_perm (children left_ right_ : list (_RenderNode R)) :
  greedy_split children left_ right_ -> left_ ++ right_ ≡ₚ children.
Proof.
  induction 1 as [|cs l r c _ IH _|cs l r c _ IH _].
  - reflexivity.
  - rewrite <- IH. rewrite <- !app_assoc.
    apply Permutation_app_head, Permutation_app_comm.
  - rewrite <- IH. by rewrite app_assoc.
Qed.

Lemma repair_empty_perm (left_ right_ : list (_RenderNode R)) :
  (repair_empty (left_, right_)).1 ++ (repair_empty (left_, right_)).2 ≡ₚ left_ ++ right_.
Proof.
  unfold repair_empty. destruct left_ as [|l ls].
  - destruct right_ as [|r [|r' rs]]; reflexivity.
  - destruct right_ as [|r rs]; [|reflexivity].
    cbn [take drop fst snd]. rewrite take_0, drop_0, app_nil_r.
    symmetry. apply Permutation_cons_append.
Qed.

Lemma split_greedy (children : list (_RenderNode R)) :
  exists left_ right_,
    greedy_split children left_ right_
    /\ _split_top_level_children children = repair_empty (left_, right_).
Proof.
  destruct (split_loop_greedy children [] [] [] greedy_split_nil)
    as (left_ & right_ & Hfold & Hg).
  exists left_, right_. split; [exact Hg|].
  unfold _split_top_level_children.
  change (of_Z 0) with (sum_heights (R := R) []). by rewrite Hfold.
Qed.

Lemma split_perm (children : list (_RenderNode R)) :
  (_split_top_level_children children).1 ++ (_split_top_level_children children).2
  ≡ₚ children.
Proof.
  destruct (split_greedy children) as (left_ & right_ & Hg & ->).
  rewrite repair_empty_perm. by apply greedy_split_perm.
Qed.

(** The lone child of the root always ends up on the right. *)
Lemma split_single (child : _RenderNode R) :
  _split_top_level_children [child] = ([], [child]).
Proof.
  unfold _split_top_level_children. cbn [fold_left]. unfold split_step.
  destruct (of_Z 0 <=? of_Z 0); cbn; by rewrite ?take_0, ?drop_0.
Qed.
End Split.

(** * The root and its two sides *)

Section Root.
Context {R : Type} {num : Num R}.

Lemma positioned_id (node : _RenderNode R) : node_id (positioned node) = rn_id node.
Proof. by destruct node. Qed.

Lemma child_ids_in (cs : list (_RenderNode R)) (c : _RenderNode R) :
  c ∈ cs -> rn_id c ∈ map node_id (flat_map flat cs).
Proof.
  intros Hc. apply list_elem_of_fmap. exists (positioned c).
  split; [by rewrite positioned_id|].
  apply list_elem_of_In, in_flat_map. exists c.
  split; [by apply list_elem_of_In|]. destruct c. by left.
Qed.

Lemma child_ids_nodup (cs : list (_RenderNode R)) :
  NoDup (map node_id (flat_map flat cs)) -> NoDup (map rn_id cs).
Proof.
  induction cs as [|c cs IH]; intros Hnd; [constructor|].
  cbn [flat_map map] in *. rewrite map_app in Hnd.
  apply NoDup_app in Hnd as (Hc & Hcross & Hcs).
  constructor; [|by apply IH].
  intros Hin. apply list_elem_of_fmap in Hin as (c' & Hid & Hc').
  apply (Hcross (rn_id c)).
  - rewrite flat_unfold_id. by left.
  - rewrite Hid. by apply child_ids_in.
Qed.

Lemma same_object_skip (p : _RenderNode R) (ps : list (_RenderNode R)) (c : _RenderNode R) :
  rn_id p <> rn_id c -> same_object (p :: ps) c = same_object ps c.
Proof.
  intros Hne. unfold same_object. cbn [List.find].
  by destruct (Nat.eqb_spec (rn_id p) (rn_id c)).
Qed.

(** Looking the children up by identifier gives back their objects. *)
Lemma same_object_map (cs ps : list (_RenderNode R)) :
  NoDup (map rn_id cs) ->
  Forall2 (fun c p => rn_id p = rn_id c) cs ps ->
  map (same_object ps) cs = ps.
Proof.
  intros Hnd Hall. induction Hall as [|c p cs ps Hid _ IH]; [reflexivity|].
  cbn [map] in *. apply NoDup_cons in Hnd as [Hc Hnd]. f_equal.
  - unfold same_object. cbn [List.find]. by rewrite Hid, Nat.eqb_refl.
  - rewrite <- (IH Hnd) at 2. apply map_ext_in. intros c' Hc'.
    apply same_object_skip. rewrite Hid. intros Heq. apply Hc.
    apply list_elem_of_fmap. exists c'. split; [done | by apply list_elem_of_In].
Qed.

Lemma preserved_id_Forall2 (cs ps : list (_RenderNode R)) :
  Forall2 preserved cs ps -> Forall2 (fun c p => rn_id p = rn_id c) cs ps.
Proof. intros H. eapply Forall2_impl; [exact H|]. by intros c p (? & _). Qed.

(** The children of the placed root are the placed children of the two
    sides, each in the place of the child it comes from. *)
Lemma place_root_children (root : _RenderNode R) :
  NoDup (map node_id (flat root)) ->
  let groups := _split_top_level_children (rn_children root) in
  let placed := place_side groups.1 (-1) ++ place_side groups.2 1 in
  (rn_children root <> [] -> rn_children (place_root root) ≡ₚ placed)
  /\ Forall2 preserved (rn_children root) (rn_children (place_root root)).
Proof.
  destruct root as [node_id title depth children lines_ width height x0 y0].
  intros Hnd groups placed. rewrite flat_unfold_id in Hnd. cbn [rn_children] in *.
  apply NoDup_cons in Hnd as [_ Hnd]. apply child_ids_nodup in Hnd.
  destruct children as [|c cs]; [split; [done | constructor]|].
  assert (Hperm : groups.1 ++ groups.2 ≡ₚ c :: cs) by apply split_perm.
  assert (Hkept : Forall2 preserved (groups.1 ++ groups.2) placed).
  { apply Forall2_app; apply place_side_preserved. }
  assert (Hmap : map (same_object placed) (groups.1 ++ groups.2) = placed).
  { apply same_object_map; [|by apply preserved_id_Forall2].
    assert (Hids : map rn_id (groups.1 ++ groups.2) ≡ₚ map rn_id (c :: cs))
      by (by apply Permutation_map).
    by rewrite Hids. }
  assert (Hchildren : rn_children (place_root
            (MkRenderNode node_id title depth (c :: cs) lines_ width height x0 y0))
          = map (same_object placed) (c :: cs)).
  { cbn [place_root]. subst placed groups.
    by destruct (_split_top_level_children (c :: cs)). }
  rewrite Hchildren. split.
  - intros _. transitivity (map (same_object placed) (groups.1 ++ groups.2));
      [apply Permutation_map; by symmetry | by rewrite Hmap].
  - assert (Hkept' : Forall2 preserved (groups.1 ++ groups.2)
                       (map (same_object placed) (groups.1 ++ groups.2)))
      by (by rewrite Hmap).
    clear Hkept. rename Hkept' into Hkept.
    assert (Hone : forall child, child ∈ groups.1 ++ groups.2 ->
              preserved child (same_object placed child)).
    { revert Hkept. generalize (groups.1 ++ groups.2). clear.
      intros l Hl child Hchild. apply list_elem_of_lookup in Hchild as [i Hi].
      eapply Forall2_lookup_l in Hl as (p & Hp & Hpres); [|exact Hi].
      rewrite list_lookup_fmap, Hi in Hp. by injection Hp as <-. }
    apply Forall2_fmap_r, Forall_Forall2_diag, Forall_forall.
    intros child Hchild. apply Hone. by rewrite Hperm.
Qed.

Lemma place_root_preserved (root : _RenderNode R) :
  NoDup (map node_id (flat root)) -> preserved root (place_root root).
Proof.
  intros Hnd. destruct (place_root_children root Hnd) as [_ Hkids].
  destruct root as [node_id title depth children lines_ width height x0 y0].
  cbn [rn_children] in Hkids.
  destruct (preserved_children node_id _ _ Hkids) as [Hinfo Hedges].
  assert (Hshape : place_root (MkRenderNode node_id title depth children lines_ width height x0 y0)
    = MkRenderNode node_id title depth
        (rn_children (place_root
           (MkRenderNode node_id title depth children lines_ width height x0 y0)))
        lines_ width height (of_Z 0) (of_Z 0)).
  { cbn [place_root]. destruct children; [reflexivity|].
    by destruct (_split_top_level_children _). }
  rewrite Hshape. split; [reflexivity|]. split.
  - cbn [flat map positioned info]. by rewrite Hinfo.
  - cbn [flat_edges]. exact Hedges.
Qed.
End Root.

Local Open Scope Q_scope.

(** * The whole tree, in exact arithmetic *)

Lemma pairwise_perm {A : Type} (rel : A -> A -> Prop) (l l' : list A) :
  (forall a b, rel a b -> rel b a) ->
  l ≡ₚ l' -> pairwise rel l -> pairwise rel l'.
Proof.
  intros Hsym Hperm. induction Hperm as [|a l l' Hperm IH|a b l|l l' l'' _ IH1 _ IH2];
    intros Hpw.
  - exact Hpw.
  - inversion Hpw as [|? ? Ha Hl]; subst. constructor; [by rewrite <- Hperm | by apply IH].
  - inversion Hpw as [|? ? Hb Hl]; subst. inversion Hl as [|? ? Ha Hl']; subst.
    apply Forall_cons in Hb as [Hba Hb].
    constructor; [constructor; [by apply Hsym | exact Ha]|].
    constructor; assumption.
  - auto.
Qed.

Lemma pairwise_map {A B : Type} (rel : A -> A -> Prop) (rel' : B -> B -> Prop)
    (f : A -> B) (l : list A) :
  (forall a b, rel a b -> rel' (f a) (f b)) ->
  pairwise rel l -> pairwise rel' (map f l).
Proof.
  intros Hf. induction 1 as [|a l Ha _ IH]; cbn [map]; constructor; [|exact IH].
  apply Forall_fmap. eapply Forall_impl; [exact Ha|]. intros b. apply Hf.
Qed.

Lemma well_sized_children (cs : list (_RenderNode Q)) (side : Z) :
  side = 1%Z \/ side = (-1)%Z ->
  Forall (rn_all well_sized) cs ->
  Forall (fun n => 40 <= _subtree_height n /\
            forall center, placed_ok side 1 center n (_place_subtree n side 1 center)) cs.
Proof.
  intros Hside Hall. eapply Forall_impl; [exact Hall|]. intros child Hchild. split.
  - pose proof Hchild as Hc. apply rn_all_unfold in Hc as [Hc _].
    pose proof (well_sized_height _ Hc). pose proof (subtree_height_ge child). lra.
  - intros center. by apply place_subtree_ok.
Qed.

(** One side of the root: columns from depth 1 outwards, no overlap. *)
Lemma place_side_ok (children : list (_RenderNode Q)) (side : Z) :
  side = 1%Z \/ side = (-1)%Z ->
  Forall (rn_all well_sized) children ->
  Forall (beyond side 1) (flat_map flat (place_side children side))
  /\ Forall sized_box (flat_map flat (place_side children side))
  /\ pairwise disjoint (flat_map flat (place_side children side)).
Proof.
  intros Hside Hall. destruct children as [|c cs].
  - repeat split; constructor.
  - pose proof (well_sized_children _ side Hside Hall) as Hkids.
    destruct (stacked_ok (fun child ctr => _place_subtree child side 1 ctr)
                48 side 1 ltac:(lra) Hside cs c
                (- stack_height 48 (c :: cs) / 2) Hkids)
      as (_ & Hbey & Hsz & Hpw & _).
    repeat split; assumption.
Qed.

(** A box on the left of the root and a box on its right. *)
Lemma sides_disjoint (a b : PositionedNode Q) :
  beyond (-1) 1 a -> beyond 1 1 b -> sized_box a -> sized_box b -> disjoint a b.
Proof.
  unfold beyond, disjoint, box_left, box_right. intros Ha Hb [Hwa _] [Hwb _]. left. qlra.
Qed.

(** The box of the root and a box of either side. *)
Lemma root_disjoint (side : Z) (a b : PositionedNode Q) :
  side = 1%Z \/ side = (-1)%Z ->
  x a == 0 -> beyond side 1 b -> sized_box a -> sized_box b -> disjoint a b.
Proof.
  unfold beyond, disjoint, box_left, box_right.
  intros [->| ->] Ha Hb [Hwa _] [Hwb _]; [left | right; left]; qlra.
Qed.

(** The placed tree: every box has the size the decorator gave it, and no
    two boxes overlap. *)
Lemma place_root_ok (root : _RenderNode Q) :
  rn_all well_sized root ->
  NoDup (map node_id (flat root)) ->
  Forall sized_box (flat (place_root root))
  /\ pairwise disjoint (flat (place_root root))
  /\ rn_x (place_root root) = 0 /\ rn_y (place_root root) = 0
  /\ Forall (fun b => beyond 1 1 b \/ beyond (-1) 1 b)
        (flat_map flat (rn_children (place_root root))).
Proof.
  intros Hsized Hnd.
  destruct (place_root_children root Hnd) as [Hperm _]. cbv zeta in Hperm.
  destruct root as [node_id title depth children lines_ width height x0 y0].
  apply rn_all_unfold in Hsized as [Hself Hkids]. cbn [rn_children] in *.
  pose proof (well_sized_box _ Hself) as Hbox.
  destruct children as [|c cs].
  { cbn [place_root flat flat_map rn_x rn_y rn_children].
    split; [constructor; [exact Hbox | constructor]|].
    split; [constructor; constructor|]. repeat split. constructor. }
  specialize (Hperm ltac:(discriminate)).
  set (groups := _split_top_level_children (c :: cs)) in *.
  assert (Hgroups : groups.1 ++ groups.2 ≡ₚ c :: cs) by apply split_perm.
  assert (Hboth : Forall (rn_all well_sized) (groups.1 ++ groups.2)) by (by rewrite Hgroups).
  apply Forall_app in Hboth as [Hleft Hright].
  destruct (place_side_ok groups.1 (-1) ltac:(by right) Hleft) as (Hlb & Hls & Hlp).
  destruct (place_side_ok groups.2 1 ltac:(by left) Hright) as (Hrb & Hrs & Hrp).
  set (placed := place_side groups.1 (-1) ++ place_side groups.2 1) in *.
  assert (Hflat : flat_map flat (rn_children (place_root
            (MkRenderNode node_id title depth (c :: cs) lines_ width height x0 y0)))
          ≡ₚ flat_map flat placed) by (by apply Permutation_flat_map).
  assert (Hshape : place_root (MkRenderNode node_id title depth (c :: cs) lines_ width height x0 y0)
    = MkRenderNode node_id title depth
        (rn_children (place_root
           (MkRenderNode node_id title depth (c :: cs) lines_ width height x0 y0)))
        lines_ width height 0 0).
  { cbn [place_root]. by destruct (_split_top_level_children _). }
  set (kids := rn_children (place_root _)) in *. rewrite Hshape. clear Hshape.
  cbn [flat rn_x rn_y rn_children].
  assert (Hpsz : Forall sized_box (flat_map flat placed)).
  { subst placed. rewrite flat_map_app. by apply Forall_app. }
  assert (Hpby : Forall (fun b => beyond 1 1 b \/ beyond (-1) 1 b) (flat_map flat placed)).
  { subst placed. rewrite flat_map_app. apply Forall_app. split.
    - eapply Forall_impl; [exact Hlb|]. by right.
    - eapply Forall_impl; [exact Hrb|]. by left. }
  assert (Hppw : pairwise disjoint (flat_map flat placed)).
  { subst placed. rewrite flat_map_app. apply pairwise_app; [assumption..|].
    intros a b Ha Hb. rewrite Forall_forall in Hlb, Hls, Hrb, Hrs.
    apply sides_disjoint; auto. }
  rewrite <- Hflat in Hpsz, Hpby.
  split; [constructor; [exact Hbox | exact Hpsz]|].
  split; [|repeat split; exact Hpby].
  constructor.
  - rewrite Forall_forall in Hpsz, Hpby. apply Forall_forall. intros b Hb.
    destruct (Hpby _ Hb) as [Hb1|Hb1].
    + apply (root_disjoint 1); auto. reflexivity.
    + apply (root_disjoint (-1)); auto. reflexivity.
  - eapply pairwise_perm; [apply disjoint_sym | symmetry; exact Hflat | exact Hppw].
Qed.

Local Close Scope Q_scope.

(** * The layout *)

Section LayoutShape.
Context {R : Type} {num : Num R}.
Local Open Scope num_scope.

(** [_compute_layout] never raises: the node list it normalizes holds
    the root. *)
Lemma compute_layout_ok (t : MindMapNode) :
  exists (root : _RenderNode R) (min_x max_x min_y max_y : R),
    _decorate_tree t = Ok root
    /\ map node_id (flat root) = seq 0 (mm_size t)
    /\ rn_all well_sized root
    /\ rn_title root = mm_title t /\ rn_depth root = 0%nat
    /\ py_min_of (map (fun node => x node - width node / two) (flat (place_root root)))
       = Ok min_x
    /\ py_max_of (map (fun node => x node + width node / two) (flat (place_root root)))
       = Ok max_x
    /\ py_min_of (map (fun node => y node - height node / two) (flat (place_root root)))
       = Ok min_y
    /\ py_max_of (map (fun node => y node + height node / two) (flat (place_root root)))
       = Ok max_y
    /\ _compute_layout t
       = Ok (MkMindMapLayout
               ((max_x - min_x) + MARGIN * two) ((max_y - min_y) + MARGIN * two)
               (map (shift_node (MARGIN - min_x) (MARGIN - min_y)) (flat (place_root root)))
               (flat_edges (place_root root))).
Proof.
  destruct (decorate_spec (R := R) t) as (root & Hdec & Hids & Hsized & Htitle & Hdepth & _).
  pose proof (flat_unfold (place_root root)) as Hflat.
  destruct (flat (place_root root)) as [|b bs] eqn:Hnodes; [discriminate|].
  eexists root, _, _, _, _.
  do 5 (split; [assumption|]).
  unfold _compute_layout. rewrite Hdec. cbn [exc_bind].
  rewrite collect_nodes_flat, Hnodes.
  do 4 (split; [reflexivity|]). reflexivity.
Qed.

Lemma shift_node_info (shift_x shift_y : R) (nodes_ : list (PositionedNode R)) :
  map info (map (shift_node shift_x shift_y) nodes_) = map info nodes_.
Proof. rewrite map_map. by apply map_ext. Qed.

Lemma info_ids (l l' : list (PositionedNode R)) :
  map info l = map info l' -> map node_id l = map node_id l'.
Proof.
  intros H. apply (f_equal (map (fun i => i.1.1.1.1.1))) in H.
  by rewrite !map_map in H.
Qed.

Lemma info_head (l l' : list (PositionedNode R)) :
  map info l = map info l' -> info <$> head l = info <$> head l'.
Proof. destruct l, l'; cbn; congruence. Qed.

Lemma flat_edges_ids (node : _RenderNode R) :
  Forall (fun e => e.1 ∈ map node_id (flat node) /\ e.2 ∈ map node_id (flat node))
    (flat_edges node).
Proof.
  induction node as [id_ title_ depth_ children lines_ width_ height_ x0 y0 IH]
    using RenderNode_induction.
  cbn [flat flat_edges map positioned node_id].
  induction IH as [|c cs Hc _ IHcs]; [constructor|].
  cbn [flat_map]. rewrite map_app. constructor; [|apply Forall_app; split].
  - cbn [fst snd]. split; [by left|]. right. apply elem_of_app. left.
    rewrite flat_unfold_id. by left.
  - eapply Forall_impl; [exact Hc|]. cbn beta. intros e [H1 H2].
    split; right; apply elem_of_app; by left.
  - eapply Forall_impl; [exact IHcs|]. cbn beta. intros e [H1 H2].
    split.
    + apply elem_of_cons in H1 as [->|H1]; [by left|].
      right. apply elem_of_app. by right.
    + apply elem_of_cons in H2 as [->|H2]; [by left|].
      right. apply elem_of_app. by right.
Qed.

(** The identifiers of the layout: numbered from zero in list order,
    the edges between listed nodes, the root first. *)
Lemma layout_ids (t : MindMapNode) :
  exists layout : MindMapLayout R,
    _compute_layout t = Ok layout
    /\ map node_id (nodes layout) = seq 0 (mm_size t)
    /\ Forall (fun e => e.1 ∈ map node_id (nodes layout)
                        /\ e.2 ∈ map node_id (nodes layout)) (edges layout)
    /\ exists first rest,
         nodes layout = first :: rest
         /\ node_id first = 0%nat /\ title first = mm_title t /\ depth first = 0%nat.
Proof.
  destruct (compute_layout_ok t)
    as (root & min_x & max_x & min_y & max_y & Hdec & Hids & Hsized & Htitle & Hdepth
        & _ & _ & _ & _ & Hlayout).
  eexists. split; [exact Hlayout|]. cbn [nodes edges].
  assert (Hnd : NoDup (map node_id (flat root))) by (rewrite Hids; apply NoDup_seq).
  destruct (place_root_preserved root Hnd) as (Hid & Hinfo & Hedges).
  assert (Hinfo' : map info (map (shift_node (MARGIN - min_x) (MARGIN - min_y))
                               (flat (place_root root))) = map info (flat root))
    by (by rewrite shift_node_info).
  pose proof (info_ids _ _ Hinfo') as Hids'.
  split; [by rewrite Hids'|]. split.
  - rewrite Hids', Hedges. apply flat_edges_ids.
  - assert (Hfirst : info (positioned (place_root root)) = info (positioned root)).
    { apply info_head in Hinfo. rewrite !flat_head in Hinfo.
      cbn [fmap option_fmap option_map] in Hinfo. congruence. }
    rewrite (flat_unfold (place_root root)). cbn [map]. eexists _, _. split; [reflexivity|].
    unfold info in Hfirst. injection Hfirst as Hi Ht _ Hd _ _.
    cbn [shift_node node_id title depth].
    rewrite Hi, Ht, Hd. rewrite flat_unfold_id in Hids.
    destruct root as [id_ title_ depth_ children lines_ width_ height_ x0 y0].
    cbn [rn_title rn_depth rn_id positioned node_id title
         depth] in *.
    destruct (mm_size t); [discriminate|]. injection Hids as Hzero _.
    repeat split; congruence.
Qed.
End LayoutShape.

(** C5: for a parsed outline the layout is produced, its nodes carry the
    identifiers 0, 1, 2, ... in list order (the order of the pre-order
    counter), so no identifier occurs twice; both ends of every edge are
    identifiers of listed nodes; and the first node is the root of the
    tree, at depth zero. *)
Theorem layout_identifiers {R : Type} {num : Num R} (markdown : str) (t : MindMapNode) :
  parse_mind_map_markdown markdown = Ok (Some t) ->
  exists layout : MindMapLayout R,
    _compute_layout t = Ok layout
    /\ map node_id (nodes layout) = seq 0 (length (nodes layout))
    /\ NoDup (map node_id (nodes layout))
    /\ Forall (fun e => e.1 ∈ map node_id (nodes layout)
                        /\ e.2 ∈ map node_id (nodes layout)) (edges layout)
    /\ exists first rest,
         nodes layout = first :: rest
         /\ node_id first = 0%nat /\ title first = mm_title t /\ depth first = 0%nat.
Proof.
  intros _. destruct (layout_ids (R := R) t) as (layout & Hlayout & Hids & Hedges & Hfirst).
  exists layout. split; [exact Hlayout|].
  assert (Hlen : length (nodes layout) = mm_size t).
  { rewrite <- (length_map node_id), Hids. apply length_seq. }
  rewrite Hlen. split; [exact Hids|]. split; [|split; assumption].
  rewrite Hids. apply NoDup_seq.
Qed.

Lemma layout_identifiers_witness :
  exists layout : MindMapLayout Q,
    _compute_layout (MkMindMapNode (lit "A")
                       [MkMindMapNode (lit "B") []; MkMindMapNode (lit "C") []]) = Ok layout
    /\ map node_id (nodes layout) = [0; 1; 2]%nat.
Proof.
  destruct (layout_identifiers (R := Q) (doc ["- A"; "  - B"; "  - C"]%string)
              (MkMindMapNode (lit "A")
                 [MkMindMapNode (lit "B") []; MkMindMapNode (lit "C") []]))
    as (layout & Hlayout & Hids & _).
  - vm_compute. reflexivity.
  - exists layout. split; [exact Hlayout|].
    rewrite Hids. apply (f_equal (@length _)) in Hids.
    rewrite length_map in Hids at 1. rewrite length_seq in Hids.
    assert (Hlen : length (nodes layout) = 3%nat).
    { vm_compute in Hlayout. injection Hlayout as <-. reflexivity. }
    rewrite Hlen. reflexivity.
Defined.

Local Open Scope Q_scope.

Lemma fold_py_min_spec (l : list Q) (a : Q) :
  (fold_left py_min l a = a \/ fold_left py_min l a ∈ l)
  /\ fold_left py_min l a <= a /\ Forall (fun v => fold_left py_min l a <= v) l.
Proof.
  revert a. induction l as [|b l IH]; intros a; cbn [fold_left].
  - split; [by left|]. split; [lra | constructor].
  - destruct (IH (py_min a b)) as (Hin & Hle & Hall).
    destruct (py_min_spec a b) as (Ha & Hb & Hab).
    split; [|split; [lra|constructor; [lra | exact Hall]]].
    destruct Hin as [Hin|Hin]; [|right; by right].
    rewrite Hin. destruct Hab as [->| ->]; [by left | right; by left].
Qed.

Lemma fold_py_max_spec (l : list Q) (a : Q) :
  (fold_left py_max l a = a \/ fold_left py_max l a ∈ l)
  /\ a <= fold_left py_max l a /\ Forall (fun v => v <= fold_left py_max l a) l.
Proof.
  revert a. induction l as [|b l IH]; intros a; cbn [fold_left].
  - split; [by left|]. split; [lra | constructor].
  - destruct (IH (py_max a b)) as (Hin & Hle & Hall).
    destruct (py_max_spec a b) as (Ha & Hb & Hab).
    split; [|split; [lra|constructor; [lra | exact Hall]]].
    destruct Hin as [Hin|Hin]; [|right; by right].
    rewrite Hin. destruct Hab as [->| ->]; [by left | right; by left].
Qed.

Lemma py_min_of_spec (edge : PositionedNode Q -> Q) (boxes : list (PositionedNode Q)) (m : Q) :
  py_min_of (map edge boxes) = Ok m -> least edge m boxes.
Proof.
  destruct boxes as [|b bs]; [discriminate|]. cbn [map py_min_of]. intros [= <-].
  destruct (fold_py_min_spec (map edge bs) (edge b)) as (Hin & Hle & Hall). split.
  - constructor; [exact Hle|]. apply Forall_forall. intros b' Hb'.
    rewrite Forall_forall in Hall. apply Hall, list_elem_of_fmap. by exists b'.
  - destruct Hin as [Hin|Hin].
    + left. by rewrite Hin.
    + right. apply list_elem_of_fmap in Hin as (b' & Hb' & Hin).
      apply Exists_exists. exists b'. split; [exact Hin | by rewrite Hb'].
Qed.

Lemma py_max_of_spec (edge : PositionedNode Q -> Q) (boxes : list (PositionedNode Q)) (m : Q) :
  py_max_of (map edge boxes) = Ok m -> greatest edge m boxes.
Proof.
  destruct boxes as [|b bs]; [discriminate|]. cbn [map py_max_of]. intros [= <-].
  destruct (fold_py_max_spec (map edge bs) (edge b)) as (Hin & Hle & Hall). split.
  - constructor; [exact Hle|]. apply Forall_forall. intros b' Hb'.
    rewrite Forall_forall in Hall. apply Hall, list_elem_of_fmap. by exists b'.
  - destruct Hin as [Hin|Hin].
    + left. by rewrite Hin.
    + right. apply list_elem_of_fmap in Hin as (b' & Hb' & Hin).
      apply Exists_exists. exists b'. split; [exact Hin | by rewrite Hb'].
Qed.

Lemma disjoint_shift (shift_x shift_y : Q) (a b : PositionedNode Q) :
  disjoint a b -> disjoint (shift_node shift_x shift_y a) (shift_node shift_x shift_y b).
Proof.
  unfold disjoint, box_left, box_right, box_top, box_bottom.
  cbn [shift_node x y width height]. qlra.
Qed.

(** The layout in exact arithmetic: what is known of its node list. *)
Lemma layout_geometry (t : MindMapNode) :
  exists layout : MindMapLayout Q,
    _compute_layout t = Ok layout
    /\ pairwise disjoint (nodes layout)
    /\ Forall sized_box (nodes layout)
    /\ least box_left 130 (nodes layout)
    /\ least box_top 130 (nodes layout)
    /\ greatest box_right (layout_width layout - 130) (nodes layout)
    /\ greatest box_bottom (layout_height layout - 130) (nodes layout).
Proof.
  destruct (compute_layout_ok (R := Q) t)
    as (root & min_x & max_x & min_y & max_y & Hdec & Hids & Hsized & _ & _
        & Hminx & Hmaxx & Hminy & Hmaxy & Hlayout).
  assert (Hnd : NoDup (map node_id (flat root))) by (rewrite Hids; apply NoDup_seq).
  destruct (place_root_ok root Hsized Hnd) as (Hsz & Hpw & _).
  apply (py_min_of_spec box_left) in Hminx. apply (py_max_of_spec box_right) in Hmaxx.
  apply (py_min_of_spec box_top) in Hminy. apply (py_max_of_spec box_bottom) in Hmaxy.
  eexists. split; [exact Hlayout|]. cbn [nodes layout_width layout_height].
  generalize dependent (flat (place_root root)).
  intros boxes Hminx Hmaxx Hminy Hmaxy _ Hsz Hpw.
  split; [eapply pairwise_map; [|exact Hpw]; apply disjoint_shift|].
  split; [apply Forall_fmap; eapply Forall_impl; [exact Hsz|]; by intros b|].
  destruct Hminx as [Hax Hex], Hmaxx as [Haxx Hexx], Hminy as [Hay Hey], Hmaxy as [Hayy Heyy].
  unfold least, greatest.
  rewrite !Forall_fmap, !Exists_fmap.
  split; [split|split; [split|split; [split|split]]].
  1: eapply Forall_impl; [exact Hax|].
  2: eapply Exists_impl; [exact Hex|].
  3: eapply Forall_impl; [exact Hay|].
  4: eapply Exists_impl; [exact Hey|].
  5: eapply Forall_impl; [exact Haxx|].
  6: eapply Exists_impl; [exact Hexx|].
  7: eapply Forall_impl; [exact Hayy|].
  8: eapply Exists_impl; [exact Heyy|].
  all: cbn beta; intros b; unfold compose, box_left, box_right, box_top, box_bottom;
    cbn [shift_node x y width height]; intros Hb; qlra.
Qed.

(** C1: for a parsed outline the layout is produced and any two nodes at
    different places of its node list have disjoint x-extents or
    disjoint y-extents (exact arithmetic). *)
Theorem layout_boxes_disjoint (markdown : str) (t : MindMapNode) :
  parse_mind_map_markdown markdown = Ok (Some t) ->
  exists layout : MindMapLayout Q,
    _compute_layout t = Ok layout
    /\ forall i j a b,
         i <> j -> nodes layout !! i = Some a -> nodes layout !! j = Some b ->
         disjoint a b.
Proof.
  intros _. destruct (layout_geometry t) as (layout & Hlayout & Hpw & _).
  exists layout. split; [exact Hlayout|].
  apply pairwise_lookup; [apply disjoint_sym | exact Hpw].
Qed.

(** C2, as amended: in exact arithmetic the least left edge and the least
    top edge over the nodes are the margin, and the greatest right edge
    and bottom edge are the canvas width and height less one margin. *)
Theorem layout_bounds_normalized (markdown : str) (t : MindMapNode) :
  parse_mind_map_markdown markdown = Ok (Some t) ->
  exists layout : MindMapLayout Q,
    _compute_layout t = Ok layout
    /\ least box_left 130 (nodes layout)
    /\ least box_top 130 (nodes layout)
    /\ greatest box_right (layout_width layout - 130) (nodes layout)
    /\ greatest box_bottom (layout_height layout - 130) (nodes layout).
Proof.
  intros _. destruct (layout_geometry t) as (layout & Hlayout & _ & _ & Hrest).
  exists layout. split; [exact Hlayout | exact Hrest].
Qed.

Lemma layout_boxes_disjoint_witness :
  exists layout : MindMapLayout Q,
    _compute_layout (MkMindMapNode (lit "A")
                       [MkMindMapNode (lit "B") []; MkMindMapNode (lit "C") []]) = Ok layout
    /\ forall i j a b,
         i <> j -> nodes layout !! i = Some a -> nodes layout !! j = Some b ->
         disjoint a b.
Proof.
  apply (layout_boxes_disjoint (doc ["- A"; "  - B"; "  - C"]%string)).
  vm_compute. reflexivity.
Defined.

Lemma layout_bounds_normalized_witness :
  exists layout : MindMapLayout Q,
    _compute_layout (MkMindMapNode (lit "A")
                       [MkMindMapNode (lit "B") []; MkMindMapNode (lit "C") []]) = Ok layout
    /\ least box_left 130 (nodes layout)
    /\ least box_top 130 (nodes layout)
    /\ greatest box_right (layout_width layout - 130) (nodes layout)
    /\ greatest box_bottom (layout_height layout - 130) (nodes layout).
Proof.
  apply (layout_bounds_normalized (doc ["- A"; "  - B"; "  - C"]%string)).
  vm_compute. reflexivity.
Defined.

(** The literal [6.8] of the source is the binary64 number the model
    divides out. *)
Example glyph_width_binary64 :
  GLYPH_WIDTH (R := float) = 0x1.b333333333333p+2%float.
Proof. reflexivity. Qed.

(** C2 as stated fails on the binary64 numbers the code computes: for the
    outline below the least left edge after normalization is
    129.99999999999997, below the margin of 130. *)
Lemma layout_min_not_margin_binary64 :
  exists (t : MindMapNode) (layout : MindMapLayout float) (least_left : float),
    parse_mind_map_markdown (doc ["- r"; "  - AAAAAAAAAAAAAAAA"; "  - b"]%string)
      = Ok (Some t)
    /\ _compute_layout t = Ok layout
    /\ py_min_of (map (fun node => x node - width node / two)%num (nodes layout))
       = Ok least_left
    /\ (least_left <? MARGIN)%num = true.
Proof.
  eexists _, _, _. split; [vm_compute; reflexivity|].
  split; [vm_compute; reflexivity|].
  split; [vm_compute; reflexivity|].
  vm_compute. reflexivity.
Qed.

Local Close Scope Q_scope.

(** * The renderers *)

Section RenderLemmas.
Context {R : Type} {num : Num R} {txt : NumText R}.
Local Open Scope num_scope.

Lemma exc_map_ok {A B : Type} (f : A -> exc B) (l : list A) :
  Forall (fun a => exists b, f a = Ok b) l ->
  exists bs, exc_map f l = Ok bs /\ Forall2 (fun a b => f a = Ok b) l bs.
Proof.
  induction 1 as [|a l [b Hb] _ (bs & Hbs & Hall)].
  - exists []. split; [reflexivity | constructor].
  - exists (b :: bs). cbn [exc_map]. rewrite Hb, Hbs. split; [reflexivity|].
    by constructor.
Qed.

Lemma index_fold_some (nodes_ : list (PositionedNode R)) :
  forall (m : gmap nat (PositionedNode R)) (k : nat),
    k ∈ map node_id nodes_ \/ is_Some (m !! k) ->
    is_Some (fold_left (fun m node => <[node_id node := node]> m) nodes_ m !! k).
Proof.
  induction nodes_ as [|n ns IH]; intros m k Hk; cbn [fold_left].
  - destruct Hk as [Hk|Hk]; [|exact Hk]. by apply elem_of_nil in Hk.
  - apply IH. destruct Hk as [Hk|Hk].
    + cbn [map] in Hk. apply elem_of_cons in Hk as [->|Hk]; [|by left].
      right. rewrite lookup_insert_eq. by eexists.
    + right. destruct (decide (node_id n = k)) as [->|Hne].
      * rewrite lookup_insert_eq. by eexists.
      * by rewrite lookup_insert_ne.
Qed.

Lemma index_fold_in (nodes_ : list (PositionedNode R)) :
  forall (m : gmap nat (PositionedNode R)) (k : nat) (n : PositionedNode R),
    fold_left (fun m node => <[node_id node := node]> m) nodes_ m !! k = Some n ->
    (n ∈ nodes_ /\ node_id n = k) \/ m !! k = Some n.
Proof.
  induction nodes_ as [|n0 ns IH]; intros m k n Hn; cbn [fold_left] in Hn.
  - by right.
  - apply IH in Hn as [[Hin Hid]|Hn]; [left; split; [by right | exact Hid]|].
    destruct (decide (node_id n0 = k)) as [<-|Hne].
    + rewrite lookup_insert_eq in Hn. injection Hn as <-. left. split; [by left | done].
    + rewrite lookup_insert_ne in Hn by done. by right.
Qed.

(** Every edge end is found in [by_id], and what is found is a listed
    node with that identifier. *)
Lemma edge_ends_ok (layout : MindMapLayout R) :
  Forall (fun e => e.1 ∈ map node_id (nodes layout)
                   /\ e.2 ∈ map node_id (nodes layout)) (edges layout) ->
  exists ends,
    exc_map (edge_ends (index_by_id (nodes layout))) (edges layout) = Ok ends
    /\ Forall2 (joins layout) (edges layout) ends.
Proof.
  intros Hedges.
  destruct (exc_map_ok (edge_ends (index_by_id (nodes layout))) (edges layout))
    as (ends & Hends & Hall).
  { eapply Forall_impl; [exact Hedges|]. cbn beta. intros e [H1 H2].
    unfold edge_ends, getitem, index_by_id.
    destruct (index_fold_some (nodes layout) ∅ e.1 (or_introl H1)) as [p ->].
    destruct (index_fold_some (nodes layout) ∅ e.2 (or_introl H2)) as [c ->].
    by eexists. }
  exists ends. split; [exact Hends|].
  eapply Forall2_impl; [exact Hall|]. cbn beta. intros e [p c].
  unfold edge_ends, getitem, index_by_id.
  destruct (fold_left _ _ _ !! e.1) as [p'|] eqn:Hp; [|discriminate].
  destruct (fold_left _ _ _ !! e.2) as [c'|] eqn:Hc; [|discriminate].
  cbn [exc_bind]. intros [= <- <-].
  apply index_fold_in in Hp as [[? ?]|Hp]; [|by rewrite lookup_empty in Hp].
  apply index_fold_in in Hc as [[? ?]|Hc]; [|by rewrite lookup_empty in Hc].
  by repeat split.
Qed.

Lemma exc_map_then {A B C : Type} (g : A -> exc B) (h : B -> C) (f : A -> exc C)
    (l : list A) (bs : list B) :
  (forall a, f a = let* b := g a in Ok (h b)) ->
  exc_map g l = Ok bs -> exc_map f l = Ok (map h bs).
Proof.
  intros Hf. revert bs. induction l as [|a l IH]; intros bs; cbn [exc_map].
  - by intros [= <-].
  - rewrite Hf. destruct (g a) as [b|]; [|discriminate]. cbn [exc_bind].
    destruct (exc_map g l) as [bs'|]; [|discriminate]. cbn [exc_bind].
    intros [= <-]. by rewrite (IH bs').
Qed.

(** The document of a layout whose edges join listed nodes. *)
Lemma svg_document_shape (layout : MindMapLayout R)
    (ends : list (PositionedNode R * PositionedNode R)) :
  exc_map (edge_ends (index_by_id (nodes layout))) (edges layout) = Ok ends ->
  svg_document layout
  = let* canvas_width := py_int (layout_width layout) in
    let* canvas_height := py_int (layout_height layout) in
    Ok ([SvgOpen canvas_width canvas_height; SvgBackground]
          ++ map svg_line_of ends
          ++ flat_map svg_node (nodes layout) ++ [SvgClose]).
Proof.
  intros Hends. unfold svg_document.
  destruct (py_int (layout_width layout)) as [w|]; [|reflexivity]. cbn [exc_bind].
  destruct (py_int (layout_height layout)) as [h|]; [|reflexivity]. cbn [exc_bind].
  rewrite (exc_map_then (edge_ends (index_by_id (nodes layout))) svg_line_of
             _ _ ends); [|clear|exact Hends].
  - cbn [exc_bind]. by rewrite <- !app_assoc.
  - intros e. unfold svg_edge, edge_ends.
    destruct (getitem _ e.1); [|reflexivity]. cbn [exc_bind].
    destruct (getitem _ e.2); reflexivity.
Qed.

(** What the two renderers build from the layout of a parsed outline. *)
Lemma render_shape (markdown : str) (t : MindMapNode) :
  parse_mind_map_markdown markdown = Ok (Some t) ->
  exists (layout : MindMapLayout R) (ends : list (PositionedNode R * PositionedNode R)),
    _compute_layout t = Ok layout
    /\ Forall2 (joins layout) (edges layout) ends
    /\ render_mind_map_svg (R := R) markdown
       = (let* canvas_width := py_int (layout_width layout) in
          let* canvas_height := py_int (layout_height layout) in
          Ok (Some ([SvgOpen canvas_width canvas_height; SvgBackground]
                      ++ map svg_line_of ends
                      ++ flat_map svg_node (nodes layout) ++ [SvgClose])))
    /\ forall max_width max_height,
         render_mind_map_drawing markdown max_width max_height
         = let* drawing := downscale (natural_drawing layout ends) max_width max_height in
           Ok (Some drawing).
Proof.
  intros Hparse.
  destruct (layout_ids (R := R) t) as (layout & Hlayout & _ & Hedges & _).
  destruct (edge_ends_ok layout Hedges) as (ends & Hends & Hall).
  exists layout, ends. split; [exact Hlayout|]. split; [exact Hall|]. split.
  - unfold render_mind_map_svg. rewrite Hparse. cbn [exc_bind]. rewrite Hlayout.
    cbn [exc_bind]. rewrite (svg_document_shape layout ends Hends).
    destruct (py_int (layout_width layout)) as [w|]; [|reflexivity]. cbn [exc_bind].
    by destruct (py_int (layout_height layout)).
  - intros max_width max_height.
    unfold render_mind_map_drawing. rewrite Hparse. cbn [exc_bind]. rewrite Hlayout.
    cbn [exc_bind].
    rewrite (exc_map_then (edge_ends (index_by_id (nodes layout))) (line_of layout)
               _ _ ends); [|clear|exact Hends].
    + reflexivity.
    + intros e. unfold drawing_edge, edge_ends.
      destruct (getitem _ e.1); [|reflexivity]. cbn [exc_bind].
      destruct (getitem _ e.2); reflexivity.
Qed.

Lemma omap_imap_none {A B C : Type} (g : B -> option C) (l : list A) :
  forall f : nat -> A -> B, (forall i a, g (f i a) = None) -> omap g (imap f l) = [].
Proof.
  induction l as [|a l IH]; intros f Hf; [reflexivity|].
  cbn [imap omap list_omap]. rewrite Hf. apply IH. intros i a'. apply Hf.
Qed.

Lemma omap_map_none {A B C : Type} (g : B -> option C) (f : A -> B) (l : list A) :
  (forall a, g (f a) = None) -> omap g (map f l) = [].
Proof.
  intros Hf. induction l as [|a l IH]; [reflexivity|].
  cbn [map omap list_omap]. by rewrite Hf.
Qed.

Lemma omap_map_some {A B C : Type} (g : B -> option C) (f : A -> B) (h : A -> C)
    (l : list A) :
  (forall a, g (f a) = Some (h a)) -> omap g (map f l) = map h l.
Proof.
  intros Hf. induction l as [|a l IH]; [reflexivity|].
  cbn [map omap list_omap]. by rewrite Hf, IH.
Qed.

Lemma omap_flat_map_one {A B C : Type} (g : B -> option C) (f : A -> list B) (h : A -> C)
    (l : list A) :
  (forall a, omap g (f a) = [h a]) -> omap g (flat_map f l) = map h l.
Proof.
  intros Hf. induction l as [|a l IH]; [reflexivity|].
  cbn [flat_map map]. by rewrite omap_app, Hf, IH.
Qed.

Lemma omap_flat_map_none {A B C : Type} (g : B -> option C) (f : A -> list B)
    (l : list A) :
  (forall a, omap g (f a) = []) -> omap g (flat_map f l) = [].
Proof.
  intros Hf. induction l as [|a l IH]; [reflexivity|].
  cbn [flat_map]. by rewrite omap_app, Hf, IH.
Qed.

Lemma svg_node_rects (node : PositionedNode R) :
  svg_rects (svg_node node)
  = [(format_2f (x node - width node / two), format_2f (y node - height node / two),
      format_2f (width node), format_2f (height node))].
Proof.
  unfold svg_rects, svg_node, svg_rect, svg_tspans.
  destruct (_palette (depth node)) as [fill stroke].
  cbn [app omap list_omap]. rewrite omap_app, omap_imap_none by done. reflexivity.
Qed.

Lemma svg_node_lines (node : PositionedNode R) : svg_lines (svg_node node) = [].
Proof.
  unfold svg_lines, svg_node, svg_rect, svg_tspans.
  destruct (_palette (depth node)) as [fill stroke].
  cbn [app omap list_omap]. rewrite omap_app, omap_imap_none by done. reflexivity.
Qed.

Lemma drawing_node_rects (layout : MindMapLayout R) (node : PositionedNode R) :
  drawing_rects (drawing_node layout node)
  = [(x node - width node / two,
      layout_height layout - (y node + height node / two), width node, height node)].
Proof.
  unfold drawing_rects, drawing_node, drawing_rect, drawing_labels.
  destruct (_palette (depth node)) as [fill stroke].
  cbn [omap list_omap]. rewrite omap_imap_none by done. reflexivity.
Qed.

Lemma drawing_node_lines (layout : MindMapLayout R) (node : PositionedNode R) :
  drawing_lines (drawing_node layout node) = [].
Proof.
  unfold drawing_lines, drawing_node, drawing_rect, drawing_labels.
  destruct (_palette (depth node)) as [fill stroke].
  cbn [omap list_omap]. rewrite omap_imap_none by done. reflexivity.
Qed.

Lemma downscale_contents (drawing scaled : Drawing R) max_width max_height :
  downscale drawing max_width max_height = Ok scaled ->
  d_contents scaled = d_contents drawing.
Proof.
  unfold downscale. destruct (truthy max_width || truthy max_height); [|by intros [= <-]].
  destruct (factor max_width _) as [fw|]; [|discriminate]. cbn [exc_bind].
  destruct (factor max_height _) as [fh|]; [|discriminate]. cbn [exc_bind].
  destruct (py_min_of _) as [scale|]; [|discriminate]. cbn [exc_bind].
  destruct (scale <? of_Z 1); by intros [= <-].
Qed.
End RenderLemmas.

Local Open Scope Q_scope.

(** * Numbers as the vector graphic writes them *)

(** ** Digits *)

Lemma digits_value_acc (u : Decimal.uint) :
  forall acc : positive,
    digits_value (Npos acc) (uint_text u) = Some (Npos (Pos.of_uint_acc u acc)).
Proof.
  induction u as [|u IH|u IH|u IH|u IH|u IH|u IH|u IH|u IH|u IH|u IH]; intros acc;
    [reflexivity|..];
    cbn [uint_text digits_value Pos.of_uint_acc];
    change (digit_value _) with (Some 0%N) || change (digit_value _) with (Some 1%N)
    || change (digit_value _) with (Some 2%N) || change (digit_value _) with (Some 3%N)
    || change (digit_value _) with (Some 4%N) || change (digit_value _) with (Some 5%N)
    || change (digit_value _) with (Some 6%N) || change (digit_value _) with (Some 7%N)
    || change (digit_value _) with (Some 8%N) || change (digit_value _) with (Some 9%N);
    rewrite <- IH; f_equal; lia.
Qed.

Lemma digits_value_uint (u : Decimal.uint) :
  digits_value 0 (uint_text u) = Some (N.of_uint u).
Proof.
  unfold N.of_uint.
  induction u as [|u IH|u IH|u IH|u IH|u IH|u IH|u IH|u IH|u IH|u IH];
    [reflexivity | exact IH | ..];
    cbn [uint_text digits_value Pos.of_uint];
    change (digit_value _) with (Some 1%N) || change (digit_value _) with (Some 2%N)
    || change (digit_value _) with (Some 3%N) || change (digit_value _) with (Some 4%N)
    || change (digit_value _) with (Some 5%N) || change (digit_value _) with (Some 6%N)
    || change (digit_value _) with (Some 7%N) || change (digit_value _) with (Some 8%N)
    || change (digit_value _) with (Some 9%N);
    apply digits_value_acc.
Qed.

(** Reading the digits of a number gives the number back. *)
Lemma digits_value_digits (n : N) : digits_value 0 (decimal_digits n) = Some n.
Proof. unfold decimal_digits. by rewrite digits_value_uint, DecimalN.Unsigned.of_to. Qed.

Lemma uint_text_digits (u : Decimal.uint) :
  Forall (fun c => is_Some (digit_value c)) (uint_text u).
Proof.
  induction u; cbn [uint_text]; constructor; try assumption; by eexists.
Qed.

Lemma digit_not_mark (c : ascii) :
  is_Some (digit_value c) -> char_eqb c "." = false /\ char_eqb c "-" = false.
Proof.
  intros [d Hd]. unfold char_eqb. split.
  - destruct (Ascii.eqb_spec c "."%char) as [->|_]; [discriminate | reflexivity].
  - destruct (Ascii.eqb_spec c "-"%char) as [->|_]; [discriminate | reflexivity].
Qed.

Lemma span_until {A : Type} (p : A -> bool) (l1 l2 : list A) (c : A) :
  Forall (fun a => p a = true) l1 -> p c = false ->
  span p (l1 ++ c :: l2) = (l1, c :: l2).
Proof.
  intros Hall Hc. induction Hall as [|a l1 Ha _ IH]; cbn [app span].
  - by rewrite Hc.
  - by rewrite Ha, IH.
Qed.

(** The two digits after the point. *)
Lemma two_digits (cents : N) :
  (cents < 100)%N ->
  let text := (if (cents <? 10)%N then ["0"%char] else []) ++ decimal_digits cents in
  length text = 2%nat /\ digits_value 0 text = Some cents
  /\ Forall (fun c => is_Some (digit_value c)) text.
Proof.
  intros Hlt text. split; [|split].
  - assert (Hall : forallb (fun c : nat =>
        Nat.eqb (length ((if (N.of_nat c <? 10)%N then ["0"%char] else [])
                         ++ decimal_digits (N.of_nat c))) 2)
        (seq 0 100) = true) by (vm_compute; reflexivity).
    rewrite forallb_forall in Hall.
    specialize (Hall (N.to_nat cents)). rewrite N2Nat.id in Hall.
    apply Nat.eqb_eq, Hall, in_seq. lia.
  - subst text. destruct (cents <? 10)%N; cbn [app]; [|apply digits_value_digits].
    cbn [digits_value]. change (digit_value "0") with (Some 0%N). cbn.
    apply digits_value_digits.
  - subst text. apply Forall_app. split; [|apply uint_text_digits].
    destruct (cents <? 10)%N; [|constructor]. constructor; [by eexists | constructor].
Qed.

(** ** Rounding *)

(** The hundredths are within half a hundredth of the magnitude. *)
Lemma hundredths_near (q : Q) :
  (- Z.pos (Qden q) <= 2 * (Z.of_N (hundredths q) * Z.pos (Qden q) - 100 * Z.abs (Qnum q))
   <= Z.pos (Qden q))%Z.
Proof.
  unfold hundredths.
  set (n := (Z.abs_N (Qnum q) * 100)%N). set (d := N.pos (Qden q)).
  pose proof (N.div_mod n d ltac:(done)) as Hdiv.
  pose proof (N.mod_lt n d ltac:(done)) as Hmod.
  assert (Hn : (100 * Z.abs (Qnum q))%Z = Z.of_N n) by (subst n; lia).
  assert (Hd : Z.pos (Qden q) = Z.of_N d) by reflexivity.
  rewrite Hn, Hd. clear Hn Hd.
  set (k := (n / d)%N) in *. set (r := (n mod d)%N) in *.
  assert (Hz : Z.of_N n = (Z.of_N d * Z.of_N k + Z.of_N r)%Z) by lia.
  rewrite Hz. clearbody k r n d.
  assert (Hsame : (Z.of_N k * Z.of_N d - (Z.of_N d * Z.of_N k + Z.of_N r)
                   = - Z.of_N r)%Z) by ring.
  assert (Hnext : (Z.of_N (k + 1) * Z.of_N d - (Z.of_N d * Z.of_N k + Z.of_N r)
                   = Z.of_N d - Z.of_N r)%Z).
  { rewrite N2Z.inj_add. change (Z.of_N 1) with 1%Z. ring. }
  destruct (2 * r ?= d)%N eqn:Hcmp.
  - apply N.compare_eq in Hcmp.
    destruct (N.even k); [rewrite Hsame | rewrite Hnext]; clear -Hmod Hcmp; lia.
  - rewrite N.compare_lt_iff in Hcmp. rewrite Hsame. clear -Hmod Hcmp. lia.
  - rewrite N.compare_gt_iff in Hcmp. rewrite Hnext. clear -Hmod Hcmp. lia.
Qed.

(** What a sign, digits, a point and digits read as. *)
Lemma decimal_value_parts (negative : bool) (whole fraction : str) (w f : N) :
  Forall (fun c => is_Some (digit_value c)) whole ->
  digits_value 0 whole = Some w -> digits_value 0 fraction = Some f ->
  decimal_value (sign_text negative ++ whole ++ "."%char :: fraction)
  = Some (let v := inject_Z (Z.of_N w)
                   + inject_Z (Z.of_N f) / inject_Z (10 ^ Z.of_nat (length fraction)) in
          if negative then - v else v).
Proof.
  intros Hdigits Hw Hf.
  assert (Hspan : span (fun c => negb (char_eqb c ".")) (whole ++ "."%char :: fraction)
                  = (whole, "."%char :: fraction)).
  { apply span_until; [|reflexivity]. eapply Forall_impl; [exact Hdigits|]. cbn beta.
    intros c Hc. by rewrite (proj1 (digit_not_mark c Hc)). }
  destruct negative; cbn [sign_text app]; unfold decimal_value.
  - change (char_eqb "-" "-") with true. cbv iota. by rewrite Hspan, Hw, Hf.
  - assert (Hfirst : match whole ++ "."%char :: fraction with
                     | c :: rest => if char_eqb c "-" then (true, rest)
                                    else (false, whole ++ "."%char :: fraction)
                     | [] => (false, whole ++ "."%char :: fraction)
                     end = (false, whole ++ "."%char :: fraction)).
    { destruct whole as [|c rest]; [reflexivity|].
      apply Forall_cons in Hdigits as [Hc _]. cbn [app].
      by rewrite (proj2 (digit_not_mark c Hc)). }
    by rewrite Hfirst, Hspan, Hw, Hf.
Qed.

(** The text of a number reads as a number within half a hundredth of
    it. *)
Lemma format_2f_accurate (v : Q) :
  exists d : Q, decimal_value (format_2f v) = Some d /\ - (1 # 200) <= d - v <= 1 # 200.
Proof.
  change (format_2f v) with (format_2f_Q v). unfold format_2f_Q, fixed_2.
  set (h := hundredths v).
  pose proof (two_digits (h mod 100) ltac:(by apply N.mod_lt)) as (Hlen & Hval & _).
  cbv zeta in Hlen, Hval.
  eexists. split.
  { apply decimal_value_parts; [apply uint_text_digits | apply digits_value_digits|].
    exact Hval. }
  cbv zeta. rewrite Hlen. change (inject_Z (10 ^ Z.of_nat 2)) with 100.
  pose proof (hundredths_near v) as Hnear. fold h in Hnear.
  pose proof (N.div_mod h 100 ltac:(done)) as Hdiv.
  assert (Hz : Z.of_N h = (100 * Z.of_N (h / 100) + Z.of_N (h mod 100))%Z) by lia.
  rewrite Hz in Hnear. clear Hdiv Hz Hlen Hval.
  generalize dependent (Z.of_N (h / 100)). generalize (Z.of_N (h mod 100)).
  intros cents whole Hnear. clear h.
  destruct v as [num den]. cbn [Qnum Qden] in *.
  destruct (Z.ltb_spec num 0) as [Hneg|Hpos];
    unfold Qle, Qminus, Qplus, Qopp, Qdiv, Qmult, Qinv, inject_Z; cbn; nia.
Qed.
(** * The two renderers on one layout *)

(** In exact arithmetic [int] is taken of a number, so the vector graphic
    of an outline that parses is always written. *)
Lemma render_svg_ok (markdown : str) (t : MindMapNode) :
  parse_mind_map_markdown markdown = Ok (Some t) ->
  exists svg : list svg_elem, render_mind_map_svg (R := Q) markdown = Ok (Some svg).
Proof.
  intros Hparse.
  destruct (render_shape (R := Q) markdown t Hparse) as (layout & ends & _ & _ & Hsvg & _).
  eexists. etrans; [exact Hsvg | reflexivity].
Qed.

(** C9, as amended: for a parsed outline both renderers succeed on the
    same layout (exact arithmetic), and they agree up to the two decimals
    the vector graphic writes.  Node by node, in the order of the node
    list, the vector graphic has the rectangle whose attributes are the
    numbers x - width/2, y - height/2, width and height written with two
    decimals, and the page drawing has the rectangle at exactly
    (x - width/2, canvas height - (y + height/2)) of extent width by
    height.  Edge by edge, the vector graphic has the line between the
    centers of the two listed nodes, written with two decimals, and the
    page drawing the line between the same centers with every y replaced
    by canvas height - y.  A number written with two decimals reads as a
    number within half a hundredth of it.  A downscale leaves the shapes
    as they are. *)
Theorem renderers_agree_to_two_decimals (markdown : str) (t : MindMapNode) :
  parse_mind_map_markdown markdown = Ok (Some t) ->
  exists (layout : MindMapLayout Q) (svg : list svg_elem) (drawing : Drawing Q)
         (ends : list (PositionedNode Q * PositionedNode Q)),
    _compute_layout t = Ok layout
    /\ render_mind_map_svg (R := Q) markdown = Ok (Some svg)
    /\ render_mind_map_drawing markdown None None = Ok (Some drawing)
    /\ svg_rects svg
       = map (fun node => (format_2f (x node - width node / 2),
                           format_2f (y node - height node / 2),
                           format_2f (width node), format_2f (height node)))
           (nodes layout)
    /\ drawing_rects (d_contents drawing)
       = map (fun node => (x node - width node / 2,
                           layout_height layout - (y node + height node / 2),
                           width node, height node)) (nodes layout)
    /\ Forall2 (joins layout) (edges layout) ends
    /\ svg_lines svg
       = map (fun pc => (format_2f (x pc.1), format_2f (y pc.1),
                         format_2f (x pc.2), format_2f (y pc.2))) ends
    /\ drawing_lines (d_contents drawing)
       = map (fun pc => (x pc.1, layout_height layout - y pc.1,
                         x pc.2, layout_height layout - y pc.2)) ends
    /\ (forall v : Q, exists d : Q,
          decimal_value (format_2f v) = Some d /\ - (1 # 200) <= d - v <= 1 # 200)
    /\ forall max_width max_height scaled,
         render_mind_map_drawing markdown max_width max_height = Ok (Some scaled) ->
         d_contents scaled = d_contents drawing.
Proof.
  intros Hparse.
  destruct (render_shape (R := Q) markdown t Hparse)
    as (layout & ends & Hlayout & Hends & Hsvg & Hdraw).
  eexists layout, _, (natural_drawing layout ends), ends.
  split; [exact Hlayout|]. split; [etrans; [exact Hsvg | reflexivity]|]. split; [by rewrite Hdraw|].
  split; [|split; [|split; [exact Hends|split; [|split; [|split]]]]].
  - unfold svg_rects. rewrite !omap_app. fold svg_rects.
    rewrite (omap_map_none _ svg_line_of) by done.
    rewrite (omap_flat_map_one _ svg_node _ _ svg_node_rects).
    cbn [omap list_omap app]. by rewrite app_nil_r.
  - cbn [natural_drawing d_contents]. unfold drawing_rects. rewrite omap_app.
    fold (drawing_rects (R := Q)).
    rewrite (omap_map_none _ (line_of layout)) by done.
    rewrite (omap_flat_map_one _ (drawing_node layout) _ _ (drawing_node_rects layout)).
    reflexivity.
  - unfold svg_lines. rewrite !omap_app. fold svg_lines.
    rewrite (omap_map_some _ svg_line_of
               (fun pc => (format_2f (x pc.1), format_2f (y pc.1),
                           format_2f (x pc.2), format_2f (y pc.2)))) by done.
    rewrite (omap_flat_map_none _ svg_node _ svg_node_lines).
    cbn [omap list_omap app]. by rewrite app_nil_r.
  - cbn [natural_drawing d_contents]. unfold drawing_lines. rewrite omap_app.
    fold (drawing_lines (R := Q)).
    rewrite (omap_map_some _ (line_of layout)
               (fun pc => (x pc.1, layout_height layout - y pc.1,
                           x pc.2, layout_height layout - y pc.2))) by done.
    rewrite (omap_flat_map_none _ (drawing_node layout) _ (drawing_node_lines layout)).
    by rewrite app_nil_r.
  - exact format_2f_accurate.
  - intros max_width max_height scaled. rewrite Hdraw.
    destruct (downscale _ _ _) as [d|] eqn:Hd; [|discriminate]. cbn [exc_bind].
    intros [= <-]. by apply downscale_contents in Hd.
Qed.

Lemma renderers_agree_to_two_decimals_witness :
  exists (layout : MindMapLayout Q) (svg : list svg_elem) (drawing : Drawing Q),
    render_mind_map_svg (R := Q) (doc ["- A"; "  - B"; "  - C"]%string) = Ok (Some svg)
    /\ render_mind_map_drawing (doc ["- A"; "  - B"; "  - C"]%string) None None
       = Ok (Some drawing)
    /\ length (svg_rects svg) = length (nodes layout)
    /\ length (drawing_rects (d_contents drawing)) = length (nodes layout).
Proof.
  destruct (renderers_agree_to_two_decimals (doc ["- A"; "  - B"; "  - C"]%string)
              (MkMindMapNode (lit "A")
                 [MkMindMapNode (lit "B") []; MkMindMapNode (lit "C") []]))
    as (layout & svg & drawing & ends & _ & Hsvg & Hdraw & Hr & Hd & _).
  - vm_compute. reflexivity.
  - exists layout, svg, drawing. split; [exact Hsvg|]. split; [exact Hdraw|].
    rewrite Hr, Hd, !length_map. split; reflexivity.
Defined.

(** C9 as stated fails on the numbers of the vector graphic, which are
    written with two decimals.  In the outline below the canvas is 454
    high and the page drawing has the box of [a] at exactly
    (550, 643/3) with extent 135 by 40, so that the claim puts the
    rectangle of the vector graphic at y = 454 - 643/3 - 40 = 599/3; the
    vector graphic writes [199.67]. *)
Lemma svg_rectangle_is_rounded :
  exists (svg : list svg_elem) (drawing : Drawing Q) (left bottom across up : Q),
    render_mind_map_svg (R := Q)
      (doc ["- r"; "  - a"; "    - b"; "    - c";
            "    - one two three four five six seven eight nine ten"]%string)
    = Ok (Some svg)
    /\ render_mind_map_drawing
         (doc ["- r"; "  - a"; "    - b"; "    - c";
               "    - one two three four five six seven eight nine ten"]%string)
         None None
       = Ok (Some drawing)
    /\ d_height drawing == 454
    /\ drawing_rects (d_contents drawing) !! 1%nat = Some (left, bottom, across, up)
    /\ left == 550 /\ bottom == 643 # 3 /\ across == 135 /\ up == 40
    /\ svg_rects svg !! 1%nat
       = Some (lit "550.00", lit "199.67", lit "135.00", lit "40.00")
    /\ decimal_value (lit "199.67") = Some (19967 # 100)
    /\ ~ 19967 # 100 == 454 - (643 # 3) - 40.
Proof.
  eexists _, _, _, _, _, _.
  split; [vm_compute; reflexivity|]. split; [vm_compute; reflexivity|].
  split; [vm_compute; reflexivity|]. split; [vm_compute; reflexivity|].
  split; [vm_compute; reflexivity|]. split; [vm_compute; reflexivity|].
  split; [vm_compute; reflexivity|]. split; [vm_compute; reflexivity|].
  split; [vm_compute; reflexivity|]. split; [vm_compute; reflexivity|].
  intros H. vm_compute in H. discriminate.
Qed.

(** * The downscale and the absence of exceptions *)

Lemma truthy_bound (v : option Q) :
  truthy v = match bound_of v with Some _ => true | None => false end.
Proof.
  destruct v as [a|]; [|reflexivity]. unfold truthy, bound_of. qnum.
  by destruct (Qeq_bool a 0).
Qed.

Lemma factor_ok (bound : option Q) (extent : Q) :
  0 < extent -> factor bound extent = Ok (factors_of bound extent).
Proof.
  intros Hpos. unfold factor, factors_of. destruct bound as [a|]; [|reflexivity].
  rewrite truthy_bound. unfold bound_of. destruct (Qeq_bool a 0); [reflexivity|].
  unfold py_div. qnum.
  destruct (Qeq_bool extent 0) eqn:Hz; [|reflexivity].
  apply Qeq_bool_iff in Hz. lra.
Qed.

Lemma factor_le (extent a s : Q) :
  0 < extent -> (s <= a / extent <-> extent * s <= a).
Proof.
  intros Hpos. split; intros H.
  - apply (Qmult_le_compat_r _ _ extent) in H; [|lra].
    assert (Heq : a / extent * extent == a) by (field; lra).
    rewrite Heq in H. lra.
  - apply Qle_shift_div_l; [exact Hpos | lra].
Qed.

(** The scale of [downscale] is the largest factor that fits. *)
Lemma scale_largest_fit (w h : Q) (max_width max_height : option Q) :
  0 < w -> 0 < h ->
  largest_fit w h max_width max_height
    (fold_left py_min (factors_of max_width w ++ factors_of max_height h) 1).
Proof.
  intros Hw Hh.
  destruct (fold_py_min_spec (factors_of max_width w ++ factors_of max_height h) 1)
    as (Hin & Hone & Hall).
  set (scale := fold_left py_min _ 1) in *.
  apply Forall_app in Hall as [Hfw Hfh]. split; [split; [exact Hone|split]|].
  - intros a Ha. unfold factors_of in Hfw. rewrite Ha in Hfw.
    apply Forall_cons in Hfw as [Hfw _]. by apply factor_le.
  - intros a Ha. unfold factors_of in Hfh. rewrite Ha in Hfh.
    apply Forall_cons in Hfh as [Hfh _]. by apply factor_le.
  - intros s' (Hs1 & Hsw & Hsh).
    destruct Hin as [->|Hin]; [exact Hs1|].
    apply elem_of_app in Hin as [Hin|Hin]; unfold factors_of in Hin.
    + destruct (bound_of max_width) as [a|]; [|by apply elem_of_nil in Hin].
      apply list_elem_of_singleton in Hin. rewrite Hin. apply factor_le; auto.
    + destruct (bound_of max_height) as [a|]; [|by apply elem_of_nil in Hin].
      apply list_elem_of_singleton in Hin. rewrite Hin. apply factor_le; auto.
Qed.

(** [downscale] never raises on a drawing of positive extent; it applies
    the scale when that is below one and keeps the drawing otherwise. *)
Lemma downscale_ok (drawing : Drawing Q) (max_width max_height : option Q) :
  0 < d_width drawing -> 0 < d_height drawing ->
  let scale :=
    fold_left py_min (factors_of max_width (d_width drawing)
                      ++ factors_of max_height (d_height drawing)) 1 in
  downscale drawing max_width max_height
  = Ok (if Qltb scale 1
        then MkDrawing (d_width drawing * scale) (d_height drawing * scale)
               (d_contents drawing)
               (fst (d_scale drawing) * scale, snd (d_scale drawing) * scale)
        else drawing).
Proof.
  intros Hw Hh scale. unfold downscale.
  rewrite !truthy_bound, (factor_ok _ _ Hw), (factor_ok _ _ Hh). cbn [exc_bind].
  destruct (bound_of max_width) as [a|] eqn:Ha;
    destruct (bound_of max_height) as [b|] eqn:Hb; cbn [orb].
  4: { subst scale. unfold factors_of. rewrite Ha, Hb. reflexivity. }
  all: cbn [app py_min_of exc_bind]; subst scale; qnum;
    by destruct (Qltb _ _).
Qed.

Lemma layout_extent (t : MindMapNode) (layout : MindMapLayout Q) :
  _compute_layout t = Ok layout -> 395 <= layout_width layout /\ 300 <= layout_height layout.
Proof.
  intros Hlayout.
  destruct (layout_geometry t) as (layout' & Hlayout' & _ & Hsz & [Hl _] & [Ht _] & [_ Hr] & [_ Hb]).
  assert (layout' = layout) as -> by congruence.
  rewrite Forall_forall in Hsz, Hl, Ht.
  apply Exists_exists in Hr as (b & Hb_in & Hbr).
  apply Exists_exists in Hb as (c & Hc_in & Hcb).
  pose proof (Hsz _ Hb_in) as [Hbw _]. pose proof (Hl _ Hb_in) as Hbl.
  pose proof (Hsz _ Hc_in) as [_ Hch]. pose proof (Ht _ Hc_in) as Hct.
  unfold box_left, box_right, box_top, box_bottom in *. split; qlra.
Qed.

(** The page renderer returns a drawing for every outline that parses,
    whatever the bounds. *)
Lemma render_drawing_ok (markdown : str) (t : MindMapNode) (max_width max_height : option Q) :
  parse_mind_map_markdown markdown = Ok (Some t) ->
  exists drawing : Drawing Q,
    render_mind_map_drawing markdown max_width max_height = Ok (Some drawing).
Proof.
  intros Hparse.
  destruct (render_shape (R := Q) markdown t Hparse)
    as (layout & ends & Hlayout & _ & _ & Hdraw).
  destruct (layout_extent t layout Hlayout) as [Hw Hh].
  assert (Hwn : 0 < d_width (natural_drawing layout ends)) by (cbn; lra).
  assert (Hhn : 0 < d_height (natural_drawing layout ends)) by (cbn; lra).
  pose proof (downscale_ok _ max_width max_height Hwn Hhn) as Hscaled.
  cbv zeta in Hscaled. rewrite Hdraw, Hscaled. eexists. reflexivity.
Qed.

(** C8, as amended: a bound that is absent or zero is no constraint.  In
    exact arithmetic the page drawing is the natural drawing with its
    width, its height and its transform multiplied by one factor, the
    largest factor that is at most one and brings the natural width and
    height within the constraints; the shapes are kept; and when that
    factor is one the natural drawing is returned as it is. *)
Theorem drawing_downscale (markdown : str) (t : MindMapNode)
    (max_width max_height : option Q) :
  parse_mind_map_markdown markdown = Ok (Some t) ->
  exists (layout : MindMapLayout Q) (natural drawing : Drawing Q) (scale : Q),
    _compute_layout t = Ok layout
    /\ render_mind_map_drawing markdown None None = Ok (Some natural)
    /\ d_width natural = layout_width layout
    /\ d_height natural = layout_height layout
    /\ render_mind_map_drawing markdown max_width max_height = Ok (Some drawing)
    /\ largest_fit (d_width natural) (d_height natural) max_width max_height scale
    /\ d_width drawing == d_width natural * scale
    /\ d_height drawing == d_height natural * scale
    /\ fst (d_scale drawing) == scale /\ snd (d_scale drawing) == scale
    /\ d_contents drawing = d_contents natural
    /\ (scale == 1 -> drawing = natural).
Proof.
  intros Hparse.
  destruct (render_shape (R := Q) markdown t Hparse)
    as (layout & ends & Hlayout & _ & _ & Hdraw).
  destruct (layout_extent t layout Hlayout) as [Hw Hh].
  set (natural := natural_drawing layout ends) in *.
  assert (Hwn : 0 < d_width natural) by (cbn; lra).
  assert (Hhn : 0 < d_height natural) by (cbn; lra).
  pose proof (downscale_ok natural max_width max_height Hwn Hhn) as Hscaled.
  pose proof (scale_largest_fit _ _ max_width max_height Hwn Hhn) as Hfit.
  cbv zeta in Hscaled.
  set (scale := fold_left py_min _ 1) in *.
  eexists layout, natural, _, scale.
  split; [exact Hlayout|]. split; [by rewrite Hdraw|].
  split; [reflexivity|]. split; [reflexivity|].
  split; [by rewrite Hdraw, Hscaled|].
  split; [exact Hfit|].
  pose proof (Qltb_spec scale 1) as Hlt. destruct Hfit as [[Hone _] _].
  destruct (Qltb scale 1); cbn [d_width d_height d_scale d_contents fst snd].
  - repeat split; try reflexivity; try (cbn; qlra).
  - assert (Hs1 : scale == 1) by lra.
    repeat split; try reflexivity; try (rewrite Hs1; cbn; qlra).
Qed.

Lemma drawing_downscale_witness :
  exists (natural drawing : Drawing Q) (scale : Q),
    render_mind_map_drawing (doc ["- A"; "  - B"; "  - C"]%string) None None
      = Ok (Some natural)
    /\ render_mind_map_drawing (doc ["- A"; "  - B"; "  - C"]%string) (Some 500) None
       = Ok (Some drawing)
    /\ largest_fit (d_width natural) (d_height natural) (Some 500) None scale
    /\ d_width drawing == d_width natural * scale.
Proof.
  destruct (drawing_downscale (doc ["- A"; "  - B"; "  - C"]%string)
              (MkMindMapNode (lit "A")
                 [MkMindMapNode (lit "B") []; MkMindMapNode (lit "C") []])
              (Some 500) None)
    as (layout & natural & drawing & scale & _ & Hn & _ & _ & Hd & Hfit & Hw & _).
  - vm_compute. reflexivity.
  - exists natural, drawing, scale.
    split; [exact Hn|]. split; [exact Hd|]. split; [exact Hfit | exact Hw].
Defined.

(** C8 as stated fails in two ways.  A bound of zero is taken for no
    bound, so the drawing of the one-node outline keeps its width of 395;
    and on the binary64 numbers the code computes, the same drawing
    scaled to a width of 250 reports a width just above 250. *)
Lemma downscale_exceeds_bound :
  (exists drawing : Drawing Q,
      render_mind_map_drawing (doc ["- A"]%string) (Some 0) None = Ok (Some drawing)
      /\ d_width drawing == 395 /\ ~ d_width drawing <= 0)
  /\ (exists drawing : Drawing float,
        render_mind_map_drawing (doc ["- A"]%string) (Some 250%float) None
          = Ok (Some drawing)
        /\ PrimFloat.ltb 250 (d_width drawing) = true).
Proof.
  split.
  - eexists. split; [vm_compute; reflexivity|]. cbn [d_width]. split; [reflexivity|].
    intros H. apply Qle_bool_iff in H. vm_compute in H. discriminate.
  - eexists. split; [vm_compute; reflexivity|]. vm_compute. reflexivity.
Qed.

Local Close Scope Q_scope.

(** * The bound on nested calls *)

Lemma exc_map_total {A B : Type} (f : A -> exc B) (g : A -> B) (l : list A) :
  Forall (fun a => f a = Ok (g a)) l -> exc_map f l = Ok (map g l).
Proof.
  induction 1 as [|a l Ha _ IH]; [reflexivity|]. cbn [exc_map map]. by rewrite Ha, IH.
Qed.

Lemma exc_fold_total {A B : Type} (step : B -> A -> exc B) (g : B -> A -> B) (l : list A) :
  Forall (fun a => forall acc, step acc a = Ok (g acc a)) l ->
  forall acc, exc_fold step l acc = Ok (fold_left g l acc).
Proof.
  induction 1 as [|a l Ha _ IH]; intros acc; [reflexivity|].
  cbn [exc_fold fold_left]. rewrite Ha. cbn [exc_bind]. apply IH.
Qed.

Lemma list_max_elem (l : list nat) (n : nat) : n ∈ l -> n <= list_max l.
Proof.
  intros Hn. pose proof (proj1 (list_max_le l (list_max l)) (Nat.le_refl _)) as Hall.
  rewrite List.Forall_forall in Hall. apply Hall. by apply list_elem_of_In.
Qed.

Section BoundedWalks.
Context {R : Type} {num : Num R}.
Local Open Scope num_scope.

(** ** The decorator *)

Lemma bounded_visit_eq inner title children depth counter :
  Bounded.visit (R := R) (S (S inner)) (MkMindMapNode title children) depth counter =
  let* wrapped := _wrap_text title (wrap_width depth) in
  let* out := bounded_visit_children inner (S depth) children (S counter) in
  Ok (MkRenderNode counter title depth (fst out) wrapped
        (node_width wrapped) (node_height wrapped) (of_Z 0) (of_Z 0),
      snd out).
Proof. reflexivity. Qed.

Lemma bounded_visit_one title children depth counter :
  Bounded.visit (R := R) 1 (MkMindMapNode title children) depth counter
  = Raise RecursionError.
Proof.
  cbn [Bounded.visit].
  destruct (wrap_text_ok title (wrap_width depth)) as (wrapped & -> & _);
    [unfold wrap_width; lia | reflexivity].
Qed.

(** The decorated tree has the levels of the outline. *)
Lemma visit_levels (t : MindMapNode) :
  forall depth counter r, visit (R := R) t depth counter = Ok r ->
    rn_levels (fst r) = mm_height t.
Proof.
  induction t as [title children IH] using MindMapNode_induction.
  intros depth counter r. rewrite visit_eq.
  destruct (_wrap_text title (wrap_width depth)) as [wrapped|]; [|discriminate].
  cbn [exc_bind].
  destruct (visit_children (S depth) children (S counter)) as [out|] eqn:Hout;
    [|discriminate].
  cbn [exc_bind]. intros [= <-]. cbn [fst rn_levels mm_height]. do 2 f_equal.
  revert out Hout. generalize (S counter). clear counter.
  induction IH as [|c cs Hc _ IHcs]; intros counter out.
  - cbn [visit_children]. by intros [= <-].
  - cbn [visit_children]. destruct (visit c (S depth) counter) as [r|] eqn:Hr; [|discriminate].
    cbn [exc_bind]. fold (visit_children (R := R) (S depth)).
    destruct (visit_children (S depth) cs r.2) as [rs|] eqn:Hrs; [|discriminate].
    cbn [exc_bind]. intros [= <-]. cbn [fst map].
    by rewrite (Hc _ _ _ Hr), (IHcs _ _ Hrs).
Qed.

(** With two frames for every level [visit] returns what it returns
    without a bound, and with fewer it raises. *)
Lemma visit_bounded (t : MindMapNode) :
  forall frames depth counter,
    (2 * mm_height t <= frames ->
       Bounded.visit (R := R) frames t depth counter = visit t depth counter)
    /\ (frames < 2 * mm_height t ->
          Bounded.visit (R := R) frames t depth counter = Raise RecursionError).
Proof.
  induction t as [title children IH] using MindMapNode_induction.
  intros frames depth counter. cbn [mm_height].
  destruct frames as [|[|inner]].
  - split; [lia | reflexivity].
  - split; [lia | intros _; apply bounded_visit_one].
  - rewrite bounded_visit_eq, visit_eq.
    destruct (wrap_text_ok title (wrap_width depth)) as (wrapped & -> & _);
      [unfold wrap_width; lia|]. cbn [exc_bind].
    assert (Hkids : forall counter,
      (Forall (fun c => 2 * mm_height c <= inner) children ->
         bounded_visit_children (R := R) inner (S depth) children counter
         = visit_children (S depth) children counter)
      /\ (Exists (fun c => inner < 2 * mm_height c) children ->
            bounded_visit_children (R := R) inner (S depth) children counter
            = Raise RecursionError)).
    { clear counter. induction IH as [|c cs Hc _ IHcs]; intros counter.
      - split; [reflexivity | by intros H%Exists_nil].
      - destruct (Hc inner (S depth) counter) as [Hfit Hdeep].
        cbn [bounded_visit_children visit_children].
        fold (bounded_visit_children (R := R) inner (S depth)).
        fold (visit_children (R := R) (S depth)).
        split.
        + intros [H1 H2]%Forall_cons. rewrite (Hfit H1).
          destruct (visit c (S depth) counter) as [r|]; [|reflexivity]. cbn [exc_bind].
          by rewrite (proj1 (IHcs r.2) H2).
        + intros Hex. destruct (le_lt_dec (2 * mm_height c) inner) as [Hle|Hlt].
          * apply Exists_cons in Hex as [Hex|Hex]; [lia|]. rewrite (Hfit Hle).
            destruct (visit_spec (R := R) c (S depth) counter) as (r & -> & _).
            cbn [exc_bind snd]. by rewrite (proj2 (IHcs _) Hex).
          * by rewrite (Hdeep Hlt). }
    split.
    + intros Hfit. rewrite (proj1 (Hkids (S counter))); [reflexivity|].
      apply Forall_forall. intros c Hc.
      pose proof (list_max_elem (map mm_height children) (mm_height c)) as Hmax.
      specialize (Hmax ltac:(by apply list_elem_of_fmap_2)). lia.
    + intros Hdeep. rewrite (proj2 (Hkids (S counter))); [reflexivity|].
      destruct (decide (Exists (fun c => inner < 2 * mm_height c) children)) as [Hex|Hno];
        [exact Hex|].
      exfalso. apply Forall_Exists_neg in Hno.
      assert (Hmax : list_max (map mm_height children) <= inner / 2).
      { apply list_max_le, List.Forall_forall. intros h Hh.
        apply in_map_iff in Hh as (c & <- & Hc). rewrite List.Forall_forall in Hno.
        specialize (Hno c Hc). cbn beta in Hno.
        apply Nat.div_le_lower_bound; lia. }
      pose proof (Nat.Div0.mul_div_le inner 2). lia.
Qed.
(** ** Heights *)

Lemma rn_levels_child (node child : _RenderNode R) :
  child ∈ rn_children node -> S (rn_levels child) <= rn_levels node.
Proof.
  destruct node as [id_ ttl d children lines_ w h x0 y0]. cbn [rn_children rn_levels].
  intros Hc. pose proof (list_max_elem (map rn_levels children) (rn_levels child)) as Hmax.
  specialize (Hmax ltac:(by apply list_elem_of_fmap_2)). lia.
Qed.

Lemma rn_levels_pos (node : _RenderNode R) : 1 <= rn_levels node.
Proof. destruct node. cbn [rn_levels]. lia. Qed.

Lemma subtree_height_bounded (node : _RenderNode R) :
  forall frames, 2 * rn_levels node - 1 <= frames ->
    Bounded._subtree_height frames node = Ok (_subtree_height node).
Proof.
  induction node as [id_ ttl d children lines_ w h x0 y0 IH] using RenderNode_induction.
  intros frames Hfit.
  set (node := MkRenderNode id_ ttl d children lines_ w h x0 y0) in *.
  pose proof (rn_levels_pos node) as Hpos.
  destruct frames as [|inside]; [lia|].
  destruct children as [|c cs]; [reflexivity|].
  assert (Hkids : forall child, child ∈ c :: cs -> S (rn_levels child) <= rn_levels node)
    by (intros child Hchild; by apply rn_levels_child).
  destruct inside as [|inner].
  { specialize (Hkids c ltac:(by left)). pose proof (rn_levels_pos c). lia. }
  subst node. cbn [Bounded._subtree_height _subtree_height].
  rewrite (exc_map_total _ _subtree_height); [reflexivity|].
  rewrite Forall_forall in IH. apply Forall_forall. intros child Hchild.
  apply IH; [exact Hchild|]. specialize (Hkids child Hchild). lia.
Qed.

Lemma sum_of_heights_bounded (inside : nat) (children : list (_RenderNode R)) :
  Forall (fun child => 2 * rn_levels child <= inside) children ->
  1 <= inside ->
  Bounded.sum_of_heights inside children = Ok (py_sum (map _subtree_height children)).
Proof.
  intros Hfit Hone. destruct inside as [|inner]; [lia|]. unfold Bounded.sum_of_heights.
  rewrite (exc_map_total _ _subtree_height); [reflexivity|].
  eapply Forall_impl; [exact Hfit|]. cbn beta. intros child Hchild.
  apply subtree_height_bounded. lia.
Qed.

(** ** The two groups *)

Lemma split_bounded (frames : nat) (children : list (_RenderNode R)) :
  Forall (fun child => 2 * rn_levels child <= frames) children ->
  1 <= frames ->
  Bounded._split_top_level_children frames children
  = Ok (_split_top_level_children children).
Proof.
  intros Hfit Hone. destruct frames as [|inside]; [lia|].
  unfold Bounded._split_top_level_children, _split_top_level_children.
  rewrite (exc_fold_total _ split_step); [|].
  - cbn [exc_bind]. by destruct (fold_left _ _ _) as [[[left_ right_] lh] rh].
  - eapply Forall_impl; [exact Hfit|]. cbn beta. intros child Hchild [[[left_ right_] lh] rh].
    unfold Bounded.split_step, split_step.
    rewrite subtree_height_bounded by lia. cbn [exc_bind].
    by destruct (lh <=? rh).
Qed.

(** ** Placement *)

Lemma place_stacked_bounded
    (measure : _RenderNode R -> exc R)
    (place : _RenderNode R -> R -> exc (_RenderNode R))
    (place' : _RenderNode R -> R -> _RenderNode R) (gap : R)
    (children : list (_RenderNode R)) :
  Forall (fun child => measure child = Ok (_subtree_height child)
                       /\ forall center, place child center = Ok (place' child center))
    children ->
  forall start,
    Bounded.place_stacked measure place gap children start
    = Ok (place_stacked place' gap children start).
Proof.
  induction 1 as [|c cs [Hm Hp] _ IH]; intros start; [reflexivity|].
  cbn [Bounded.place_stacked place_stacked]. rewrite Hm. cbn [exc_bind].
  rewrite Hp. cbn [exc_bind]. by rewrite IH.
Qed.

Lemma place_subtree_bounded (node : _RenderNode R) :
  forall frames side depth center, 2 * rn_levels node - 1 <= frames ->
    Bounded._place_subtree frames node side depth center
    = Ok (_place_subtree node side depth center).
Proof.
  induction node as [id_ ttl d children lines_ w h x0 y0 IH] using RenderNode_induction.
  intros frames side depth center Hfit.
  set (node := MkRenderNode id_ ttl d children lines_ w h x0 y0) in *.
  pose proof (rn_levels_pos node) as Hpos.
  destruct frames as [|inside]; [lia|].
  destruct children as [|c cs]; [reflexivity|].
  assert (Hkids : Forall (fun child => 2 * rn_levels child <= inside) (c :: cs)).
  { apply Forall_forall. intros child Hchild.
    pose proof (rn_levels_child node child Hchild). lia. }
  assert (Hone : 1 <= inside).
  { apply Forall_cons in Hkids as [Hc _]. pose proof (rn_levels_pos c). lia. }
  subst node. cbn [Bounded._place_subtree _place_subtree].
  rewrite (sum_of_heights_bounded inside (c :: cs) Hkids Hone). cbn [exc_bind].
  rewrite (place_stacked_bounded _ _
             (fun child ctr => _place_subtree child side (depth + 1) ctr)); [reflexivity|].
  rewrite Forall_forall in IH, Hkids. apply Forall_forall. intros child Hchild. split.
  - apply subtree_height_bounded. specialize (Hkids child Hchild). lia.
  - intros ctr. apply IH; [exact Hchild|]. specialize (Hkids child Hchild). lia.
Qed.

Lemma place_side_bounded (frames : nat) (children : list (_RenderNode R)) (side : Z) :
  Forall (fun child => 2 * rn_levels child + 1 <= frames) children ->
  1 <= frames ->
  Bounded.place_side frames children side = Ok (place_side children side).
Proof.
  intros Hfit Hone. destruct frames as [|inside]; [lia|].
  destruct children as [|c cs]; [reflexivity|].
  unfold Bounded.place_side, place_side.
  rewrite sum_of_heights_bounded.
  - cbn [exc_bind].
    apply (place_stacked_bounded _ _ (fun child ctr => _place_subtree child side 1 ctr)).
    eapply Forall_impl; [exact Hfit|]. cbn beta. intros child Hchild. split.
    + apply subtree_height_bounded. lia.
    + intros ctr. apply place_subtree_bounded. lia.
  - eapply Forall_impl; [exact Hfit|]. cbn beta. intros child Hchild. lia.
  - apply Forall_cons in Hfit as [Hc _]. pose proof (rn_levels_pos c). lia.
Qed.

Lemma place_root_bounded (frames : nat) (root : _RenderNode R) :
  2 * rn_levels root <= frames ->
  Bounded.place_root frames root = Ok (place_root root).
Proof.
  intros Hfit. pose proof (rn_levels_pos root) as Hpos.
  assert (Hkids : Forall (fun child => 2 * rn_levels child + 1 <= frames)
                    (rn_children root)).
  { apply Forall_forall. intros child Hchild.
    pose proof (rn_levels_child root child Hchild). lia. }
  destruct root as [id_ ttl d children lines_ w h x0 y0]. cbn [rn_children] in Hkids.
  destruct children as [|c cs]; [reflexivity|].
  unfold Bounded.place_root, place_root.
  rewrite split_bounded; [|eapply Forall_impl; [exact Hkids|]; cbn beta; lia|lia].
  cbn [exc_bind].
  pose proof (split_perm (c :: cs)) as Hperm.
  destruct (_split_top_level_children (c :: cs)) as [left_ right_]. cbn [fst snd] in Hperm.
  rewrite <- Hperm in Hkids. apply Forall_app in Hkids as [Hl Hr].
  rewrite (place_side_bounded frames left_ (-1) Hl) by lia. cbn [exc_bind].
  rewrite (place_side_bounded frames right_ 1 Hr) by lia. reflexivity.
Qed.

(** ** Collecting *)

Lemma dfs_bounded (node : _RenderNode R) :
  forall frames st, rn_levels node <= frames ->
    Bounded.dfs frames node st = Ok (dfs node st).
Proof.
  induction node as [id_ ttl d children lines_ w h x0 y0 IH] using RenderNode_induction.
  intros frames st Hfit.
  set (node := MkRenderNode id_ ttl d children lines_ w h x0 y0) in *.
  pose proof (rn_levels_pos node) as Hpos.
  destruct frames as [|inside]; [lia|].
  assert (Hkids : Forall (fun child => rn_levels child <= inside) children).
  { apply Forall_forall. intros child Hchild.
    pose proof (rn_levels_child node child Hchild). lia. }
  subst node. cbn [Bounded.dfs dfs].
  apply (exc_fold_total _ (fun st child => dfs child (st.1, st.2 ++ [(id_, rn_id child)]))).
  rewrite Forall_forall in IH, Hkids. apply Forall_forall. intros child Hchild acc.
  apply IH; [exact Hchild | by apply Hkids].
Qed.

(** ** Placement keeps the levels of the tree *)

Lemma place_subtree_levels (node : _RenderNode R) :
  forall side depth center,
    rn_levels (_place_subtree node side depth center) = rn_levels node.
Proof.
  induction node as [id_ ttl d children lines_ w h x0 y0 IH] using RenderNode_induction.
  intros side depth center. destruct children as [|c cs]; [reflexivity|].
  cbn [_place_subtree]. set (placed := place_stacked _ _ _ _).
  cbn [rn_levels]. do 2 f_equal.
  assert (Hall : Forall2 (fun child p => rn_levels p = rn_levels child) (c :: cs) placed).
  { apply place_stacked_Forall2. eapply Forall_impl; [exact IH|]. cbn beta.
    intros child Hchild ctr. apply Hchild. }
  clearbody placed. clear IH.
  induction Hall as [|child p kids ps Hp _ IHall]; [reflexivity|].
  cbn [map]. by rewrite Hp, IHall.
Qed.

Lemma place_side_levels (children : list (_RenderNode R)) (side : Z) :
  Forall (fun p => exists child, child ∈ children
                     /\ rn_id p = rn_id child /\ rn_levels p = rn_levels child)
    (place_side children side).
Proof.
  destruct children as [|c cs]; [constructor|]. unfold place_side.
  set (placed := place_stacked _ _ _ _).
  pose proof (place_stacked_each (fun child ctr => _place_subtree child side 1 ctr)
                TOP_LEVEL_GAP (c :: cs)
                (- (py_sum (map _subtree_height (c :: cs))
                    + TOP_LEVEL_GAP * of_Z (Z.of_nat (length (c :: cs)) - 1)) / two))
    as Heach.
  fold placed in Heach. clearbody placed.
  apply Forall_forall. intros p Hp. apply list_elem_of_lookup in Hp as [i Hi].
  destruct (Forall2_lookup_r _ _ _ i p Heach Hi) as (child & Hchild & ctr & ->).
  exists child. split; [by eapply list_elem_of_lookup_2|].
  split; [exact (proj1 (place_subtree_preserved child side 1 ctr))|].
  apply place_subtree_levels.
Qed.

Lemma same_id_same_child (children : list (_RenderNode R)) (a b : _RenderNode R) :
  NoDup (map rn_id children) -> a ∈ children -> b ∈ children ->
  rn_id a = rn_id b -> a = b.
Proof.
  intros Hnd Ha Hb Hid.
  apply list_elem_of_lookup in Ha as [i Hi]. apply list_elem_of_lookup in Hb as [j Hj].
  assert (Hij : i = j).
  { apply (NoDup_lookup _ i j (rn_id a) Hnd).
    - by rewrite list_lookup_fmap, Hi.
    - by rewrite list_lookup_fmap, Hj, Hid. }
  subst j. congruence.
Qed.

Lemma place_root_levels (root : _RenderNode R) :
  NoDup (map node_id (flat root)) ->
  rn_levels (place_root root) = rn_levels root.
Proof.
  intros Hnd. destruct root as [id_ ttl d children lines_ w h x0 y0].
  rewrite flat_unfold_id in Hnd. cbn [rn_children] in Hnd.
  apply NoDup_cons in Hnd as [_ Hnd]. apply child_ids_nodup in Hnd.
  destruct children as [|c cs]; [reflexivity|].
  pose proof (split_perm (c :: cs)) as Hperm.
  pose proof (place_side_levels (_split_top_level_children (c :: cs)).1 (-1)) as Hl.
  pose proof (place_side_levels (_split_top_level_children (c :: cs)).2 1) as Hr.
  cbn [place_root]. destruct (_split_top_level_children (c :: cs)) as [left_ right_].
  cbn [fst snd] in *. cbn [rn_levels]. do 2 f_equal.
  set (placed := place_side left_ (-1) ++ place_side right_ 1).
  assert (Hplaced : Forall (fun p => exists child, child ∈ c :: cs
                      /\ rn_id p = rn_id child /\ rn_levels p = rn_levels child) placed).
  { apply Forall_app. split; (eapply Forall_impl; [eassumption|]); cbn beta;
      intros p (child & Hchild & Hp); exists child; (split; [|exact Hp]);
      rewrite <- Hperm; apply elem_of_app; [by left | by right]. }
  clearbody placed. rewrite map_map. apply map_ext_in. intros child Hchild.
  apply list_elem_of_In in Hchild. unfold same_object.
  destruct (List.find _ placed) as [p|] eqn:Hfind; [|reflexivity].
  change (default child (Some p)) with p.
  apply find_some in Hfind as [Hp Hid]. apply Nat.eqb_eq in Hid.
  rewrite Forall_forall in Hplaced.
  destruct (Hplaced p ltac:(by apply list_elem_of_In)) as (child' & Hchild' & Hid' & Hlev).
  rewrite Hlev. f_equal. apply (same_id_same_child (c :: cs)); [done..|congruence].
Qed.

(** ** The layout *)

(** With two frames for every level of the outline and two more
    [_compute_layout] returns what it returns without a bound; with
    fewer it raises. *)
Lemma compute_layout_bounded (t : MindMapNode) (frames : nat) :
  (2 * mm_height t + 2 <= frames ->
     Bounded._compute_layout (R := R) frames t = _compute_layout t)
  /\ (frames < 2 * mm_height t + 2 ->
        Bounded._compute_layout (R := R) frames t = Raise RecursionError).
Proof.
  destruct frames as [|[|inside]]; [split; [lia | reflexivity]..|].
  destruct (visit_bounded t inside 0 0) as [Hfit Hdeep].
  unfold Bounded._compute_layout, Bounded._decorate_tree. split.
  - intros Hle. rewrite Hfit by lia.
    destruct (decorate_spec (R := R) t) as (root & Hdec & Hids & _).
    unfold _compute_layout. unfold _decorate_tree in Hdec |- *.
    destruct (visit t 0 0) as [r|] eqn:Hvisit; [|discriminate].
    cbn [exc_bind] in Hdec |- *. injection Hdec as Hroot.
    pose proof (visit_levels t 0 0 r Hvisit) as Hlevels. rewrite Hroot in *.
    assert (Hnd : NoDup (map node_id (flat root))) by (rewrite Hids; apply NoDup_seq).
    rewrite place_root_bounded by lia. cbn [exc_bind].
    unfold Bounded._collect_nodes, _collect_nodes.
    rewrite dfs_bounded by (rewrite (place_root_levels root Hnd); lia).
    cbn [exc_bind]. reflexivity.
  - intros Hlt. by rewrite Hdeep by lia.
Qed.

(** ** The renderers *)

Lemma render_svg_bounded {txt : NumText R} (frames : nat) (markdown : str)
    (t : MindMapNode) :
  parse_mind_map_markdown markdown = Ok (Some t) ->
  (2 * mm_height t + 3 <= frames ->
     Bounded.render_mind_map_svg (R := R) frames markdown
     = render_mind_map_svg (R := R) markdown)
  /\ (frames < 2 * mm_height t + 3 ->
        Bounded.render_mind_map_svg (R := R) frames markdown = Raise RecursionError).
Proof.
  intros Hparse. destruct frames as [|inside]; [split; [lia | reflexivity]|].
  destruct (compute_layout_bounded t inside) as [Hfit Hdeep].
  unfold Bounded.render_mind_map_svg, render_mind_map_svg. rewrite Hparse.
  cbn [exc_bind]. split; intros H; [by rewrite Hfit by lia | by rewrite Hdeep by lia].
Qed.

Lemma render_drawing_bounded (frames : nat) (markdown : str) (t : MindMapNode)
    (max_width max_height : option R) :
  parse_mind_map_markdown markdown = Ok (Some t) ->
  (2 * mm_height t + 3 <= frames ->
     Bounded.render_mind_map_drawing frames markdown max_width max_height
     = render_mind_map_drawing markdown max_width max_height)
  /\ (frames < 2 * mm_height t + 3 ->
        Bounded.render_mind_map_drawing frames markdown max_width max_height
        = Raise RecursionError).
Proof.
  intros Hparse. destruct frames as [|inside]; [split; [lia | reflexivity]|].
  destruct (compute_layout_bounded t inside) as [Hfit Hdeep].
  unfold Bounded.render_mind_map_drawing, render_mind_map_drawing. rewrite Hparse.
  cbn [exc_bind]. split; intros H; [by rewrite Hfit by lia | by rewrite Hdeep by lia].
Qed.

Lemma render_bounded_none {txt : NumText R} (frames : nat) (markdown : str)
    (max_width max_height : option R) :
  parse_mind_map_markdown markdown = Ok None -> 1 <= frames ->
  Bounded.render_mind_map_svg (R := R) frames markdown = Ok None
  /\ Bounded.render_mind_map_drawing frames markdown max_width max_height = Ok None.
Proof.
  intros Hparse Hone. destruct frames as [|inside]; [lia|].
  unfold Bounded.render_mind_map_svg, Bounded.render_mind_map_drawing.
  by rewrite Hparse.
Qed.
End BoundedWalks.


(** C4, as amended: the parser raises on no input, and the renderers
    raise nothing but [RecursionError], which they raise when the outline
    nests deeper than the interpreter allows (exact arithmetic for the
    numbers).  [frames] is the number of calls that may still nest when a
    renderer is called.  Without a bullet the parser returns [None], and
    so do both renderers once they can be called at all.  With bullets
    the parser returns a tree; both renderers return an output when there
    are two frames for every level of the tree and three more, and both
    raise [RecursionError] when there are fewer. *)
Theorem pipeline_raises_only_when_nested_too_deep
    (markdown : str) (max_width max_height : option Q) (frames : nat) :
  exists tree : option MindMapNode,
    parse_mind_map_markdown markdown = Ok tree
    /\ (snd (scan markdown) = [] <-> tree = None)
    /\ match tree with
       | None =>
           (1 <= frames ->
            Bounded.render_mind_map_svg (R := Q) frames markdown = Ok None
            /\ Bounded.render_mind_map_drawing frames markdown max_width max_height
               = Ok None)
           /\ (frames = 0 ->
               Bounded.render_mind_map_svg (R := Q) frames markdown = Raise RecursionError
               /\ Bounded.render_mind_map_drawing frames markdown max_width max_height
                  = Raise RecursionError)
       | Some t =>
           (2 * mm_height t + 3 <= frames ->
            exists (svg : list svg_elem) (drawing : Drawing Q),
              Bounded.render_mind_map_svg (R := Q) frames markdown = Ok (Some svg)
              /\ Bounded.render_mind_map_drawing frames markdown max_width max_height
                 = Ok (Some drawing))
           /\ (frames < 2 * mm_height t + 3 ->
               Bounded.render_mind_map_svg (R := Q) frames markdown = Raise RecursionError
               /\ Bounded.render_mind_map_drawing frames markdown max_width max_height
                  = Raise RecursionError)
       end.
Proof.
  pose proof (parse_outcome markdown) as Hparse.
  destruct (snd (scan markdown)) as [|bullet bullets] eqn:Hscan.
  - exists None. split; [exact Hparse|]. split; [done|]. split.
    + intros Hone. by apply render_bounded_none.
    + by intros ->.
  - destruct Hparse as [t Hparse]. exists (Some t). split; [exact Hparse|].
    split; [done|].
    destruct (render_svg_bounded (R := Q) frames markdown t Hparse) as [Hsvg Hsvg'].
    destruct (render_drawing_bounded (R := Q) frames markdown t max_width max_height Hparse)
      as [Hdraw Hdraw'].
    split.
    + intros Hfit.
      destruct (render_svg_ok markdown t Hparse) as [svg Hs].
      destruct (render_drawing_ok markdown t max_width max_height Hparse) as [drawing Hd].
      exists svg, drawing. by rewrite Hsvg, Hdraw.
    + intros Hdeep. by rewrite Hsvg', Hdraw'.
Qed.

(** C4 as stated fails on an outline that is nested deep.  With the 1000
    calls that CPython allows to nest by default, all of them still
    free, both renderers raise [RecursionError] on the outline of 500
    bullets each nested in the one before: the decorator takes two frames
    for each level of the tree. *)
Lemma renderers_raise_on_deep_outline :
  Bounded.render_mind_map_svg (R := Q) 1000 (nested_outline 500) = Raise RecursionError
  /\ Bounded.render_mind_map_drawing (R := Q) 1000 (nested_outline 500) None None
     = Raise RecursionError.
Proof.
  assert (Hparse : parse_mind_map_markdown (nested_outline 500) = Ok (Some (chain 499)))
    by (vm_compute; reflexivity).
  assert (Hheight : mm_height (chain 499) = 500) by (vm_compute; reflexivity).
  split.
  - apply (proj2 (render_svg_bounded 1000 _ _ Hparse)). rewrite Hheight. lia.
  - apply (proj2 (render_drawing_bounded 1000 _ _ None None Hparse)). rewrite Hheight. lia.
Qed.

Local Open Scope Q_scope.

(** * The two sides of a decorated root *)

Lemma greedy_split_nil_inv {R : Type} {num : Num R} (left_ right_ : list (_RenderNode R)) :
  greedy_split [] left_ right_ -> left_ = [] /\ right_ = [].
Proof.
  inversion 1 as [|cs l r c _ _ Hcs|cs l r c _ _ Hcs]; [done|..];
    by destruct cs.
Qed.

Lemma sum_heights_pos (group : list (_RenderNode Q)) :
  Forall (fun c => 0 < _subtree_height c) group -> group <> [] -> 0 < sum_heights group.
Proof.
  intros Hall Hne. destruct Hall as [|c cs Hc Hcs]; [done|].
  unfold sum_heights. cbn [map]. rewrite py_sum_cons.
  assert (0 <= py_sum (map _subtree_height cs)).
  { clear -Hcs. induction Hcs as [|d ds Hd _ IH]; cbn [map].
    - rewrite py_sum_nil. lra.
    - rewrite py_sum_cons. lra. }
  lra.
Qed.

(** With positive subtree heights the first child goes left and the
    second goes right. *)
Lemma greedy_split_sides (children left_ right_ : list (_RenderNode Q)) :
  Forall (fun c => 0 < _subtree_height c) children ->
  greedy_split children left_ right_ ->
  (children <> [] -> left_ <> [])
  /\ ((2 <= length children)%nat -> right_ <> []).
Proof.
  intros Hpos Hg.
  induction Hg as [|cs l r c Hg IH Hle|cs l r c Hg IH Hle].
  - split; [done | cbn; lia].
  - apply Forall_app in Hpos as [Hpos _]. destruct (IH Hpos) as [IHl IHr].
    split; [intros _; by destruct l|].
    rewrite length_app. cbn [length]. intros Hlen.
    destruct (decide (2 <= length cs)%nat) as [H2|H1]; [by apply IHr|].
    (* one child so far: it is on the left, which is then the taller side *)
    intros ->.
    assert (Hcs : cs <> []) by (destruct cs; [cbn in Hlen; lia | done]).
    assert (Hl : l ≡ₚ cs).
    { rewrite <- (greedy_split_perm _ _ _ Hg). by rewrite app_nil_r. }
    assert (Hlpos : 0 < sum_heights l).
    { apply sum_heights_pos; [by rewrite Hl | by apply IHl]. }
    qnum. apply Qle_bool_iff in Hle. change (sum_heights []) with 0 in Hle. lra.
  - apply Forall_app in Hpos as [Hpos _]. destruct (IH Hpos) as [IHl IHr].
    split; [|intros _; by destruct r].
    intros _. destruct cs as [|c0 cs]; [|apply IHl; done].
    apply greedy_split_nil_inv in Hg as [-> ->].
    qnum. change (sum_heights []) with 0 in Hle. vm_compute in Hle. discriminate.
Qed.

Lemma decorated_heights (root : _RenderNode Q) :
  rn_all well_sized root ->
  Forall (fun c => 0 < _subtree_height c) (rn_children root).
Proof.
  intros Hsized. apply rn_all_unfold in Hsized as [_ Hkids].
  eapply Forall_impl; [exact Hkids|]. intros child Hchild.
  apply rn_all_unfold in Hchild as [Hchild _].
  pose proof (well_sized_height _ Hchild). pose proof (subtree_height_ge child). lra.
Qed.

(** C6: the children of a decorated root are split by the greedy
    balance; the code returns that split after its two repairs, and with
    two children or more the repairs change nothing and both groups are
    non-empty. *)
Theorem split_greedy_balance (t : MindMapNode) (root : _RenderNode Q) :
  _decorate_tree t = Ok root ->
  exists left_ right_ : list (_RenderNode Q),
    greedy_split (rn_children root) left_ right_
    /\ _split_top_level_children (rn_children root) = repair_empty (left_, right_)
    /\ ((2 <= length (rn_children root))%nat ->
        _split_top_level_children (rn_children root) = (left_, right_)
        /\ left_ <> [] /\ right_ <> []).
Proof.
  intros Hdec.
  destruct (decorate_spec (R := Q) t) as (root' & Hdec' & _ & Hsized & _).
  assert (root' = root) as -> by congruence.
  destruct (split_greedy (rn_children root)) as (left_ & right_ & Hg & Hsplit).
  exists left_, right_. split; [exact Hg|]. split; [exact Hsplit|].
  intros Hlen.
  destruct (greedy_split_sides _ _ _ (decorated_heights _ Hsized) Hg) as [Hl Hr].
  assert (Hne : rn_children root <> []) by (destruct (rn_children root); [cbn in Hlen; lia | done]).
  specialize (Hl Hne). specialize (Hr Hlen).
  rewrite Hsplit. unfold repair_empty.
  destruct left_; [done|]. destruct right_; [done|]. repeat split; done.
Qed.

Lemma split_greedy_balance_witness :
  exists (root : _RenderNode Q) (left_ right_ : list (_RenderNode Q)),
    _decorate_tree (MkMindMapNode (lit "A")
                      [MkMindMapNode (lit "B") []; MkMindMapNode (lit "C") []]) = Ok root
    /\ greedy_split (rn_children root) left_ right_
    /\ _split_top_level_children (rn_children root) = (left_, right_)
    /\ left_ <> [] /\ right_ <> [].
Proof.
  let r := eval vm_compute in
    (_decorate_tree (R := Q)
       (MkMindMapNode (lit "A")
          [MkMindMapNode (lit "B") []; MkMindMapNode (lit "C") []])) in
  match r with
  | Ok ?root =>
      destruct (split_greedy_balance
                  (MkMindMapNode (lit "A")
                     [MkMindMapNode (lit "B") []; MkMindMapNode (lit "C") []]) root)
        as (left_ & right_ & Hg & _ & Htwo);
        [vm_compute; reflexivity|];
      destruct Htwo as (Hsplit & Hleft & Hright); [cbn; lia|];
      exists root, left_, right_;
      (split; [vm_compute; reflexivity|]); repeat split; assumption
  end.
Defined.

Lemma place_root_single (node_id : nat) title depth (child : _RenderNode Q) lines_
    width height x0 y0 :
  rn_children (place_root
     (MkRenderNode node_id title depth [child] lines_ width height x0 y0))
  = place_side [child] 1.
Proof.
  cbn [place_root]. rewrite split_single. cbn [rn_children place_side app map].
  unfold place_side. cbn [place_stacked]. unfold same_object. cbn [List.find].
  match goal with
  | |- context [_place_subtree child 1 1 ?c] =>
      destruct (place_subtree_preserved (R := Q) child 1 1 c) as [Hid _]
  end.
  rewrite Hid, Nat.eqb_refl. reflexivity.
Qed.

(** C10: the lone child of a decorated root is put in the right group and
    the left group is empty; the child is placed on side +1 at depth 1,
    and every node of its subtree has a positive x before the
    normalization. *)
Theorem lone_child_goes_right (t : MindMapNode) (root child : _RenderNode Q) :
  _decorate_tree t = Ok root ->
  rn_children root = [child] ->
  _split_top_level_children (rn_children root) = ([], [child])
  /\ (exists center, rn_children (place_root root) = [_place_subtree child 1 1 center])
  /\ Forall (fun b => 0 < x b) (flat_map flat (rn_children (place_root root))).
Proof.
  intros Hdec Hone.
  destruct (decorate_spec (R := Q) t) as (root' & Hdec' & _ & Hsized & _).
  assert (root' = root) as -> by congruence.
  rewrite Hone. split; [apply split_single|].
  apply rn_all_unfold in Hsized as [_ Hkids]. rewrite Hone in Hkids.
  destruct root as [node_id title depth children lines_ width height x0 y0].
  cbn [rn_children] in Hone. subst children. rewrite place_root_single.
  split; [eexists; reflexivity|].
  destruct (place_side_ok [child] 1 ltac:(by left) Hkids) as (Hbeyond & _).
  eapply Forall_impl; [exact Hbeyond|]. unfold beyond. intros b Hb. qlra.
Qed.

Lemma lone_child_goes_right_witness :
  exists root child : _RenderNode Q,
    _decorate_tree (MkMindMapNode (lit "A") [MkMindMapNode (lit "B") []]) = Ok root
    /\ _split_top_level_children (rn_children root) = ([], [child])
    /\ Forall (fun b => 0 < x b) (flat_map flat (rn_children (place_root root))).
Proof.
  let r := eval vm_compute in
    (_decorate_tree (R := Q) (MkMindMapNode (lit "A") [MkMindMapNode (lit "B") []])) in
  match r with
  | Ok ?root =>
      match eval vm_compute in (rn_children root) with
      | [?child] =>
          destruct (lone_child_goes_right
                      (MkMindMapNode (lit "A") [MkMindMapNode (lit "B") []]) root child)
            as (Hsplit & _ & Hx);
            [vm_compute; reflexivity | vm_compute; reflexivity |];
          exists root, child;
          (split; [vm_compute; reflexivity|]); split; assumption
      end
  end.
Defined.

Local Close Scope Q_scope.

(** * Cleaned text *)

Lemma lstrip_suffix (s : str) : lstrip s `suffix_of` s.
Proof.
  induction s as [|c s IH]; [done|]. simpl. destruct (isspace c); [|done].
  by apply suffix_cons_r.
Qed.

Lemma rstrip_prefix (s : str) : rstrip s `prefix_of` s.
Proof.
  unfold rstrip. destruct (lstrip_suffix (rev s)) as [k Hk].
  exists (rev k). rewrite <- rev_app_distr, <- Hk. by rewrite rev_involutive.
Qed.

(** Every step of [_clean_text] but the first keeps an order-preserving
    part of the characters it is given. *)
Lemma remove_pair_eq (c c1 c2 : ascii) (s : str) :
  remove_pair c (c1 :: c2 :: s)
  = if char_eqb c c1 && char_eqb c c2 then remove_pair c s
    else c1 :: remove_pair c (c2 :: s).
Proof. reflexivity. Qed.

Lemma remove_pair_sublist (c : ascii) (s : str) : remove_pair c s `sublist_of` s.
Proof.
  assert (H : forall n s, length s <= n -> remove_pair c s `sublist_of` s).
  { clear s. induction n as [|n IH]; intros [|c1 [|c2 s]] Hn; try done;
      try (simpl in Hn; lia).
    rewrite remove_pair_eq. destruct (char_eqb c c1 && char_eqb c c2).
    - do 2 apply sublist_cons. apply IH. simpl in Hn. lia.
    - apply sublist_skip. apply IH. simpl in *. lia. }
  by apply (H (length s)).
Qed.

Lemma remove_char_sublist (c : ascii) (s : str) : remove_char c s `sublist_of` s.
Proof.
  unfold remove_char. induction s as [|d s IH]; [done|]. simpl.
  destruct (negb _); [by apply sublist_skip | by apply sublist_cons].
Qed.

Lemma remove_char_gone (c : ascii) (s : str) : c ∉ remove_char c s.
Proof.
  unfold remove_char. intros Hin. apply list_elem_of_In, filter_In in Hin as [_ Hne].
  unfold char_eqb in Hne. by rewrite Ascii.eqb_refl in Hne.
Qed.

Lemma span_app {A : Type} (p : A -> bool) (l : list A) :
  l = (span p l).1 ++ (span p l).2.
Proof.
  induction l as [|a l IH]; [done|]. simpl. destruct (p a); [|done].
  destruct (span p l) as [pre rest]. simpl in *. by f_equal.
Qed.

Lemma tag_match_suffix (s rest : str) :
  tag_match s = Some rest -> rest `suffix_of` s /\ length rest < length s.
Proof.
  unfold tag_match. pose proof (span_app (fun c => negb (char_eqb c ">")) s) as Hs.
  destruct (span _ s) as [[|a pre] [|b r]]; try discriminate.
  intros [= <-]. simpl in Hs. split.
  - exists (a :: pre ++ [b]). rewrite Hs. simpl. by rewrite <- app_assoc.
  - rewrite Hs. simpl. rewrite length_app. simpl. lia.
Qed.

Lemma sub_tags_sublist (fuel : nat) (s : str) : sub_tags fuel s `sublist_of` s.
Proof.
  revert s. induction fuel as [|fuel IH]; intros s; [by destruct s|].
  destruct s as [|c s]; [done|]. cbn [sub_tags].
  destruct (char_eqb c "<"); [|by apply sublist_skip].
  destruct (tag_match s) as [rest|] eqn:Hm; [|by apply sublist_skip].
  apply tag_match_suffix in Hm as [[k ->] _].
  apply sublist_cons, sublist_inserts_l, IH.
Qed.

Lemma collapse_ws_elem (b : bool) (s : str) (c : ascii) :
  c ∈ collapse_ws b s -> c = " "%char \/ (c ∈ s /\ isspace c = false).
Proof.
  revert b. induction s as [|d s IH]; intros b; simpl; [by intros ?%elem_of_nil|].
  destruct (isspace d) eqn:Hd.
  - destruct b.
    + intros [?|[? ?]]%IH; [by left | right; split; [by right | done]].
    + intros [->|[?|[? ?]]%IH]%elem_of_cons; [by left | by left |].
      right; split; [by right | done].
  - intros [->|[?|[? ?]]%IH]%elem_of_cons.
    + right. split; [by left | done].
    + by left.
    + right; split; [by right | done].
Qed.

Lemma single_spaced_cons (c1 c2 : ascii) (s : str) :
  single_spaced (c1 :: c2 :: s)
  = negb (char_eqb c1 " " && char_eqb c2 " ") && single_spaced (c2 :: s).
Proof. reflexivity. Qed.

Lemma collapse_ws_spaced (b : bool) (s : str) :
  single_spaced (collapse_ws b s) = true
  /\ (b = true -> forall c, head (collapse_ws b s) = Some c -> c <> " "%char).
Proof.
  revert b. induction s as [|d s IH]; intros b; [done|].
  cbn [collapse_ws]. destruct (isspace d) eqn:Hd.
  - destruct b.
    + apply (IH true).
    + split; [|done]. destruct (IH true) as [Hs Hh].
      destruct (collapse_ws true s) as [|e r] eqn:He; [done|].
      rewrite single_spaced_cons, Hs, andb_true_r.
      specialize (Hh eq_refl e eq_refl).
      change (char_eqb " " " ") with true. cbn [andb].
      unfold char_eqb. destruct (Ascii.eqb_spec e " "); [done | done].
  - destruct (IH false) as [Hs _]. split.
    + destruct (collapse_ws false s) as [|e r] eqn:He; [done|].
      rewrite single_spaced_cons, Hs, andb_true_r.
      unfold char_eqb. destruct (Ascii.eqb_spec d " ") as [->|]; [|done].
      by vm_compute in Hd.
    + intros _ c [= <-] ->. by vm_compute in Hd.
Qed.

Lemma single_spaced_suffix (a b : str) : single_spaced (a ++ b) = true -> single_spaced b = true.
Proof.
  induction a as [|c a IH]; [done|]. intros H. apply IH.
  change ((c :: a) ++ b) with (c :: (a ++ b)) in H.
  destruct (a ++ b) as [|d r]; [done|].
  rewrite single_spaced_cons in H. by apply andb_true_iff in H as [_ H].
Qed.

Lemma single_spaced_prefix (a b : str) : single_spaced (a ++ b) = true -> single_spaced a = true.
Proof.
  induction a as [|c a IH]; [done|]. destruct a as [|d a]; [done|].
  change ((c :: d :: a) ++ b) with (c :: d :: (a ++ b)).
  rewrite !single_spaced_cons. intros [H1 H2]%andb_true_iff.
  rewrite H1. by apply IH.
Qed.

Lemma strip_infix (s : str) : exists before after, s = before ++ strip s ++ after.
Proof.
  unfold strip. destruct (lstrip_suffix s) as [before Hb].
  destruct (rstrip_prefix (lstrip s)) as [after Ha].
  exists before, after. by rewrite <- Ha.
Qed.

Lemma strip_sublist (s : str) : strip s `sublist_of` s.
Proof.
  destruct (strip_infix s) as (before & after & Hs). rewrite Hs at 2.
  apply sublist_inserts_l, sublist_inserts_r. done.
Qed.

Lemma rstrip_last (s : str) (c : ascii) : last (rstrip s) = Some c -> isspace c = false.
Proof.
  unfold rstrip. pose proof (lstrip_head (rev s)) as Hh.
  destruct (lstrip (rev s)) as [|d r]; [done|]. simpl.
  rewrite last_snoc. by intros [= <-].
Qed.

Lemma strip_ends (s : str) :
  (forall c, head (strip s) = Some c -> isspace c = false)
  /\ (forall c, last (strip s) = Some c -> isspace c = false).
Proof.
  split; [|apply rstrip_last]. unfold strip. intros c Hc.
  pose proof (lstrip_head s) as Hh.
  destruct (rstrip_prefix (lstrip s)) as [k Hk].
  destruct (rstrip (lstrip s)) as [|d r]; [done|]. injection Hc as ->.
  rewrite Hk in Hh. exact Hh.
Qed.

Lemma tagless_suffix (a b : str) : tagless (a ++ b) -> tagless b.
Proof. induction a as [|c a IH]; [done|]. intros [_ H]. by apply IH. Qed.

Lemma tagless_prefix (a b : str) : tagless (a ++ b) -> tagless a.
Proof.
  induction a as [|c a IH]; [done|]. intros [Hc H]. split; [|by apply IH].
  intros [Hh|Hn]%Hc.
  - destruct a as [|d a]; [right; apply not_elem_of_nil | by left].
  - right. intros Hin. apply Hn, elem_of_app. by left.
Qed.

Lemma tagless_no_tag (s : str) : tagless s -> ~ has_tag s.
Proof.
  intros Hs (before & inner & after & -> & Hne & Hin).
  apply tagless_suffix in Hs as [Hs _]. destruct (Hs eq_refl) as [Hh|Hn].
  - destruct inner as [|d r]; [done|]. injection Hh as ->. apply Hin. by left.
  - apply Hn, elem_of_app. right. by left.
Qed.

Lemma tag_match_none (s : str) :
  tag_match s = None -> s = [] \/ head s = Some ">"%char \/ ">"%char ∉ s.
Proof.
  unfold tag_match. intros H. destruct s as [|c s]; [by left|]. right.
  cbn [span] in H. destruct (negb (char_eqb c ">")) eqn:Hc.
  - right.
    pose proof (span_app (fun c => negb (char_eqb c ">")) s) as Hs.
    destruct (span _ s) as [pre [|b r]] eqn:Hsp; [|discriminate].
    clear H. simpl in Hs. rewrite app_nil_r in Hs. subst pre.
    assert (Hall : forall t, (span (fun c => negb (char_eqb c ">")) t).2 = [] ->
                             ">"%char ∉ t).
    { clear. induction t as [|d t IH]; [intros _; apply not_elem_of_nil|].
      cbn [span]. destruct (negb (char_eqb d ">")) eqn:Hd.
      - destruct (span _ t) as [pre rest]. cbn [snd] in *. intros ->.
        apply not_elem_of_cons. split; [|by apply IH].
        intros <-. by vm_compute in Hd.
      - discriminate. }
    apply not_elem_of_cons. split.
    + intros <-. by vm_compute in Hc.
    + apply Hall. by rewrite Hsp.
  - left. cbn [head]. f_equal. unfold char_eqb in Hc.
    apply negb_false_iff in Hc. by apply Ascii.eqb_eq in Hc.
Qed.

Lemma sub_tags_tagless (fuel : nat) (s : str) :
  length s <= fuel -> tagless (sub_tags fuel s).
Proof.
  revert s. induction fuel as [|fuel IH]; intros [|c s] Hlen; try done;
    [simpl in Hlen; lia|].
  cbn [sub_tags]. simpl in Hlen.
  destruct (char_eqb c "<") eqn:Hc.
  - destruct (tag_match s) as [rest|] eqn:Hm.
    + apply tag_match_suffix in Hm as [_ Hl]. apply IH. lia.
    + split; [|apply IH; lia]. intros _.
      apply tag_match_none in Hm as [->|[Hh|Hn]].
      * right. destruct fuel; apply not_elem_of_nil.
      * left. destruct s as [|d s]; [done|]. injection Hh as ->.
        destruct fuel; [simpl in Hlen; lia|]. reflexivity.
      * right. intros Hin. apply Hn. eapply elem_of_sublist; [exact Hin|].
        apply sub_tags_sublist.
  - split; [|apply IH; lia]. intros ->. by vm_compute in Hc.
Qed.

Lemma collapse_ws_tagless (b : bool) (s : str) : tagless s -> tagless (collapse_ws b s).
Proof.
  revert b. induction s as [|c s IH]; intros b; [done|]. intros [Hc Hs].
  cbn [collapse_ws]. destruct (isspace c) eqn:Hsp.
  - destruct b; [by apply IH|]. split; [|by apply IH]. intros [=].
  - split; [|by apply IH]. intros [Hh|Hn]%Hc.
    + left. destruct s as [|d s]; [done|]. injection Hh as ->. reflexivity.
    + right. intros [[=]|[Hin _]]%collapse_ws_elem. by apply Hn.
Qed.

Lemma strip_tagless (s : str) : tagless s -> tagless (strip s).
Proof.
  destruct (strip_infix s) as (before & after & Hs). rewrite Hs at 1.
  intros H. by apply tagless_suffix, tagless_prefix in H.
Qed.

(** X1: [_clean_text] returns a text in normal form: without a backtick
    or a star, with no whitespace but single spaces, and with no space at
    either end. *)
Theorem clean_text_normal_form (text : str) :
  let cleaned := _clean_text text in
  ("`"%char ∉ cleaned)
  /\ ("*"%char ∉ cleaned)
  /\ Forall (fun c => isspace c = true -> c = " "%char) cleaned
  /\ single_spaced cleaned = true
  /\ (forall c, head cleaned = Some c -> isspace c = false)
  /\ (forall c, last cleaned = Some c -> isspace c = false).
Proof.
  cbv zeta. unfold _clean_text.
  set (s0 := sub_links _ _).
  set (s1 := remove_char "`" s0).
  set (s2 := remove_pair "*" s1).
  set (s3 := remove_pair "_" s2).
  set (s4 := remove_char "*" s3).
  set (s5 := sub_tags (length s4) s4).
  assert (Hin : forall c, c ∈ strip (collapse_ws false s5) ->
                          c = " "%char \/ (c ∈ s5 /\ isspace c = false)).
  { intros c Hc. eapply collapse_ws_elem, elem_of_sublist; [exact Hc|].
    apply strip_sublist. }
  assert (H45 : s5 `sublist_of` s4) by apply sub_tags_sublist.
  split; [|split; [|split; [|split]]].
  - intros [[=]|[Hc _]]%Hin. apply (remove_char_gone "`" s0).
    eapply elem_of_sublist; [exact Hc|].
    etrans; [exact H45|]. etrans; [apply remove_char_sublist|].
    etrans; [apply remove_pair_sublist|]. apply remove_pair_sublist.
  - intros [[=]|[Hc _]]%Hin. apply (remove_char_gone "*" s3).
    eapply elem_of_sublist; [exact Hc | exact H45].
  - apply Forall_forall. intros c [->|[_ Hc]]%Hin Hsp; [done | congruence].
  - destruct (strip_infix (collapse_ws false s5)) as (before & after & Hs).
    pose proof (collapse_ws_spaced false s5) as [Hsp _]. rewrite Hs in Hsp.
    by apply single_spaced_suffix, single_spaced_prefix in Hsp.
  - apply strip_ends.
Qed.

(** X2: no tag is left in what [_clean_text] returns. *)
Theorem clean_text_no_tag (text : str) : ~ has_tag (_clean_text text).
Proof.
  apply tagless_no_tag. unfold _clean_text.
  apply strip_tagless, collapse_ws_tagless, sub_tags_tagless. done.
Qed.

(** * Wrapping at the edges *)

Lemma wrap_negative_loop (max_chars : Z) (words : list str) :
  (max_chars < 0)%Z ->
  exc_fold (wrap_word max_chars) words ([], []) = Ok ([], []).
Proof.
  intros Hneg. induction words as [|w ws IH]; [done|].
  cbn [exc_fold wrap_word]. unfold len.
  destruct (Z.ltb_spec max_chars (Z.of_nat (length w))) as [_|?]; [|lia].
  unfold slices. destruct (Z.eqb_spec max_chars 0) as [?|_]; [lia|].
  destruct (Z.ltb_spec max_chars 0) as [_|?]; [|lia].
  cbn [exc_bind flush app]. exact IH.
Qed.

Lemma split_ws_strip_nonempty (s : str) : strip s <> [] -> split_ws (strip s) <> [].
Proof.
  intros H. apply split_ws_aux_nonempty. right. by apply strip_has_word.
Qed.

(** X3: [_wrap_text] at the widths the decorator never passes.  A blank
    text gives one empty line whatever the width; for any other text a
    width of zero raises [ValueError] and a negative width gives no line
    at all. *)
Theorem wrap_text_degenerate_width (text : str) (max_chars : Z) :
  (strip text = [] -> _wrap_text text max_chars = Ok [[]])
  /\ (strip text <> [] -> max_chars = 0%Z ->
      _wrap_text text max_chars = Raise ValueError)
  /\ (strip text <> [] -> (max_chars < 0)%Z -> _wrap_text text max_chars = Ok []).
Proof.
  unfold _wrap_text. split; [by intros ->|]. split.
  - intros Hne ->. pose proof (split_ws_strip_nonempty text Hne) as Hw.
    pose proof (split_ws_aux_words (strip text) []) as Hwords.
    fold (split_ws (strip text)) in Hwords.
    destruct (strip text) as [|c s] eqn:Hs; [done|].
    destruct (negb (has_space (c :: s)) && (0 <? len (c :: s))%Z); [reflexivity|].
    destruct (split_ws (c :: s)) as [|w ws]; [done|].
    apply Forall_cons in Hwords as [Hw1 _].
    cbn [exc_fold wrap_word]. unfold len.
    destruct (Z.ltb_spec 0 (Z.of_nat (length w))) as [_|Hle]; [reflexivity|].
    destruct w; [done | simpl in Hle; lia].
  - intros Hne Hneg. destruct (strip text) as [|c s] eqn:Hs; [done|].
    destruct (negb (has_space (c :: s)) && (max_chars <? len (c :: s))%Z).
    + unfold slices. destruct (Z.eqb_spec max_chars 0) as [?|_]; [lia|].
      destruct (Z.ltb_spec max_chars 0) as [_|?]; [reflexivity | lia].
    + by rewrite wrap_negative_loop.
Qed.

(** * Wrapping keeps the characters *)

Lemma visible_app (a b : str) : visible (a ++ b) = visible a ++ visible b.
Proof. unfold visible. apply List.filter_app. Qed.

Lemma visible_blank (s : str) : Forall (fun c => isspace c = true) s -> visible s = [].
Proof.
  induction 1 as [|c s Hc _ IH]; [done|]. unfold visible in *. simpl. by rewrite Hc.
Qed.

Lemma lstrip_blank (s : str) :
  exists before, s = before ++ lstrip s /\ Forall (fun c => isspace c = true) before.
Proof.
  induction s as [|c s (before & Hs & Hb)]; [by exists []|]. simpl.
  destruct (isspace c) eqn:Hc; [|by exists []].
  exists (c :: before). split; [by rewrite Hs at 1 | by constructor].
Qed.

Lemma visible_lstrip (s : str) : visible (lstrip s) = visible s.
Proof.
  destruct (lstrip_blank s) as (before & Hs & Hb). rewrite Hs at 2.
  by rewrite visible_app, (visible_blank _ Hb).
Qed.

Lemma visible_rev (s : str) : visible (rev s) = rev (visible s).
Proof.
  unfold visible. induction s as [|c s IH]; [done|]. simpl.
  rewrite List.filter_app, IH. simpl. by destruct (negb (isspace c)); rewrite ?app_nil_r.
Qed.

Lemma visible_strip (s : str) : visible (strip s) = visible s.
Proof.
  unfold strip, rstrip.
  by rewrite visible_rev, visible_lstrip, visible_rev, rev_involutive, visible_lstrip.
Qed.

Lemma visible_split_ws_aux (s cur : str) :
  visible (concat (split_ws_aux s cur)) = visible (rev cur) ++ visible s.
Proof.
  revert cur. induction s as [|c s IH]; intros cur.
  - destruct cur; [done|]. cbn [split_ws_aux concat]. by rewrite !app_nil_r.
  - cbn [split_ws_aux]. destruct (isspace c) eqn:Hc.
    + assert (Hv : visible (c :: s) = visible s) by (unfold visible; simpl; by rewrite Hc).
      rewrite Hv. destruct cur as [|d cur].
      * by rewrite IH.
      * cbn [concat]. by rewrite visible_app, IH.
    + rewrite IH. cbn [rev]. rewrite visible_app, <- app_assoc. f_equal.
      unfold visible. simpl. by rewrite Hc.
Qed.

Lemma visible_split_ws (s : str) : visible (concat (split_ws s)) = visible s.
Proof. apply visible_split_ws_aux. Qed.

Lemma visible_fill_line max_chars line words l rest :
  fill_line max_chars line words = (l, rest) ->
  visible l ++ visible (concat rest) = visible line ++ visible (concat words).
Proof.
  revert line. induction words as [|w ws IH]; intros line; cbn [fill_line].
  - by intros [= <- <-].
  - destruct (_ <=? _)%Z.
    + intros H%IH. rewrite H. cbn [concat].
      rewrite !visible_app, <- !app_assoc. done.
    + by intros [= <- <-].
Qed.

Lemma visible_greedy_wrap max_chars words lines_ :
  greedy_wrap max_chars words lines_ ->
  visible (concat lines_) = visible (concat words).
Proof.
  induction 1 as [|word words pieces lines_ _ (Hcat & _) _ IH
                  |word words line rest lines_ _ Hfill _ IH]; [done| |].
  - rewrite concat_app, visible_app, Hcat, IH. cbn [concat]. by rewrite visible_app.
  - cbn [concat]. rewrite !visible_app, IH. by eapply visible_fill_line.
Qed.

(** X4: wrapping neither invents nor reorders characters.  For a positive
    width the characters of the returned lines that are not whitespace
    are the first ones of the text, and all of them when fewer than six
    lines are returned. *)
Theorem wrap_text_keeps_characters (text : str) (max_chars : Z) :
  (0 < max_chars)%Z ->
  exists lines_ : list str,
    _wrap_text text max_chars = Ok lines_
    /\ visible (concat lines_) `prefix_of` visible text
    /\ (length lines_ < 6 -> visible (concat lines_) = visible text).
Proof.
  intros Hpos.
  destruct (wrap_text_cases text max_chars Hpos)
    as (full & Hret & Hblank & Hfixed & Hgreedy & _ & _).
  assert (Hfull : visible (concat full) = visible text).
  { rewrite <- (visible_strip text). destruct (strip text) as [|c s] eqn:Hs.
    - by rewrite Hblank.
    - destruct (has_space (c :: s)) eqn:Hsp.
      + rewrite (visible_greedy_wrap _ _ _ (Hgreedy ltac:(done) (or_introl eq_refl))).
        apply visible_split_ws.
      + destruct (Z.ltb_spec max_chars (len (c :: s))) as [Hlt|Hle].
        * by destruct (Hfixed eq_refl Hlt) as [-> _].
        * rewrite (visible_greedy_wrap _ _ _ (Hgreedy ltac:(done) (or_intror Hle))).
          apply visible_split_ws. }
  exists (take 6 full). split; [exact Hret|]. split.
  - rewrite <- Hfull. rewrite <- (take_drop 6 full) at 2.
    rewrite concat_app, visible_app. by apply prefix_app_r.
  - intros Hlen. rewrite length_take in Hlen.
    rewrite take_ge by lia. exact Hfull.
Qed.

Lemma wrap_text_keeps_characters_witness :
  exists lines_ : list str,
    _wrap_text (lit "the quick brown fox") 10 = Ok lines_
    /\ visible (concat lines_) = lit "thequickbrownfox".
Proof.
  destruct (wrap_text_keeps_characters (lit "the quick brown fox") 10)
    as (lines_ & Hret & _ & Hall); [lia|].
  exists lines_. split; [exact Hret|].
  rewrite Hall; [reflexivity|].
  vm_compute in Hret. injection Hret as <-. simpl. lia.
Defined.

(** * The palette *)

(** X5: [_palette] never leaves its tables: from depth five on every depth
    gets the last pair of colours, no colour is empty, and the six pairs
    for the depths zero to five differ from one another. *)
Theorem palette_saturates :
  (forall depth, 5 <= depth -> _palette depth = _palette 5)
  /\ (forall depth, fst (_palette depth) <> ""%string /\ snd (_palette depth) <> ""%string)
  /\ (forall d1 d2, d1 <= 5 -> d2 <= 5 -> _palette d1 = _palette d2 -> d1 = d2).
Proof.
  split; [|split].
  - intros depth Hd. unfold _palette. cbn [length]. by rewrite !Nat.min_r by (simpl; lia).
  - intros depth. unfold _palette. cbn [length].
    remember (Nat.min depth (6 - 1)) as i eqn:Hi.
    assert (Hidx : i <= 5) by (subst i; simpl; lia). clear Hi.
    do 6 (destruct i as [|i]; [by split|]). lia.
  - intros d1 d2 H1 H2.
    do 6 (destruct d1 as [|d1]; [do 6 (destruct d2 as [|d2]; [done|]); lia|]). lia.
Qed.

(** * The parser builds the outline *)

Lemma span_spec {A : Type} (p : A -> bool) (l : list A) :
  l = (span p l).1 ++ (span p l).2
  /\ Forall (fun a => p a = true) (span p l).1
  /\ match (span p l).2 with [] => True | a :: _ => p a = false end.
Proof.
  induction l as [|a l (IH1 & IH2 & IH3)]; [by repeat split|]. cbn [span].
  destruct (p a) eqn:Hp; [|by repeat split].
  destruct (span p l) as [pre rest]. cbn [fst snd] in *.
  split; [by rewrite IH1 at 1|]. split; [by constructor | done].
Qed.

Lemma pop_deeper_keep depth d p stack :
  (d < depth)%Z -> pop_deeper depth ((d, p) :: stack) = (d, p) :: stack.
Proof.
  intros Hd. cbn [pop_deeper]. destruct stack; [done|].
  destruct (Z.leb_spec depth d); [lia | done].
Qed.

Lemma pop_deeper_app depth (pre stack : list (Z * nat)) :
  Forall (fun e => (depth <= fst e)%Z) pre -> stack <> [] ->
  pop_deeper depth (pre ++ stack) = pop_deeper depth stack.
Proof.
  intros Hpre Hne. induction Hpre as [|[d r] pre Hd _ IH]; [done|].
  cbn [app pop_deeper]. destruct (pre ++ stack) eqn:Happ.
  - by destruct pre, stack.
  - cbn [fst] in Hd. destruct (Z.leb_spec depth d); [exact IH | lia].
Qed.

(** Reading a node needs the part of the heap from the node on only, and
    no more fuel than there are objects in it. *)
Lemma read_node_stable (h h' : heap) :
  (forall i o, h !! i = Some o -> Forall (fun r => i < r < length h) (o_children o)) ->
  forall fuel fuel' ref,
    ref < length h -> length h - ref <= fuel -> length h - ref <= fuel' ->
    (forall i, ref <= i < length h -> h' !! i = h !! i) ->
    read_node fuel' h' ref = read_node fuel h ref.
Proof.
  intros Hkids. induction fuel as [|fuel IH]; intros fuel' ref Hlt Hf Hf' Hsame; [lia|].
  destruct fuel' as [|fuel']; [lia|]. cbn [read_node].
  rewrite Hsame by lia. destruct (h !! ref) as [o|] eqn:Ho; [|done].
  f_equal. specialize (Hkids _ _ Ho).
  induction Hkids as [|r rs Hr _ IHrs]; [done|]. cbn [map]. f_equal; [|exact IHrs].
  apply IH; [lia | lia | lia |]. intros i Hi. apply Hsame. lia.
Qed.

Lemma exc_fold_app {A B : Type} (step : B -> A -> exc B) (xs ys : list A) (acc : B) :
  exc_fold step (xs ++ ys) acc
  = let* acc' := exc_fold step xs acc in exc_fold step ys acc'.
Proof.
  revert acc. induction xs as [|x xs IH]; intros acc; [done|].
  cbn [app exc_fold]. destruct (step acc x); [apply IH | done].
Qed.

Lemma heap_ok_below (h : heap) (pre stack : list (Z * nat)) :
  heap_ok (h, pre ++ stack) -> stack <> [] -> heap_ok (h, stack).
Proof.
  intros (_ & Hrefs & Hkids & Hroot) Hne.
  apply Forall_app in Hrefs as [_ Hrefs]. done.
Qed.

Lemma attach_keep (h : heap) (stack : list (Z * nat)) (d : Z) (p depth : nat) (text : str) :
  (d < Z.of_nat depth)%Z ->
  attach (h, (d, p) :: stack) (depth, text)
  = Ok (alter (append_child (length h)) p (h ++ [MkObj text []]),
        (Z.of_nat depth, length h) :: (d, p) :: stack).
Proof. intros Hd. unfold attach. by rewrite pop_deeper_keep. Qed.

Lemma attach_below (h : heap) (pre stack : list (Z * nat)) (b : nat * str) :
  Forall (fun e => (Z.of_nat (fst b) <= fst e)%Z) pre -> stack <> [] ->
  attach (h, pre ++ stack) b = attach (h, stack) b.
Proof.
  intros Hpre Hne. destruct b as [depth text]. unfold attach.
  by rewrite pop_deeper_app.
Qed.

(** The loop over a run of bullets that are all deeper than the top of
    the stack: the top is still on the stack at the end, it has got the
    forest of the run as new children, and the rest of the heap is as it
    was. *)
Lemma attach_run (n : nat) :
  forall (inside : list (nat * str)) (h : heap) (stack : list (Z * nat)) (d : Z) (p : nat),
    length inside <= n ->
    Forall (fun b => (d < Z.of_nat (fst b))%Z) inside ->
    heap_ok (h, (d, p) :: stack) ->
    exists (h' : heap) (extra : list (Z * nat)) (kids_new : list nat),
      exc_fold attach inside (h, (d, p) :: stack) = Ok (h', extra ++ (d, p) :: stack)
      /\ Forall (fun e => (d < fst e)%Z) extra
      /\ heap_ok (h', extra ++ (d, p) :: stack)
      /\ length h' = length inside + length h
      /\ (forall i, i < length h -> i <> p -> h' !! i = h !! i)
      /\ (exists o, h !! p = Some o
                    /\ h' !! p = Some (MkObj (o_title o) (o_children o ++ kids_new)))
      /\ Forall (fun r => length h <= r) kids_new
      /\ outline inside (map (read_node (length h') h') kids_new).
Proof.
  assert (Hbase : forall h stack d p, heap_ok (h, (d, p) :: stack) ->
    exists (h' : heap) (extra : list (Z * nat)) (kids_new : list nat),
      exc_fold attach [] (h, (d, p) :: stack) = Ok (h', extra ++ (d, p) :: stack)
      /\ Forall (fun e => (d < fst e)%Z) extra
      /\ heap_ok (h', extra ++ (d, p) :: stack)
      /\ length h' = length (A := nat * str) [] + length h
      /\ (forall i, i < length h -> i <> p -> h' !! i = h !! i)
      /\ (exists o, h !! p = Some o
                    /\ h' !! p = Some (MkObj (o_title o) (o_children o ++ kids_new)))
      /\ Forall (fun r => length h <= r) kids_new
      /\ outline [] (map (read_node (length h') h') kids_new)).
  { intros h stack d p Hok. exists h, [], [].
    split; [done|]. split; [constructor|]. split; [exact Hok|].
    split; [done|]. split; [done|]. split; [|split; constructor].
    destruct Hok as (_ & Hrefs & _). apply Forall_cons in Hrefs as [Hp _].
    cbn [snd] in Hp. destruct (lookup_lt_is_Some_2 h p Hp) as [o Ho].
    exists o. split; [exact Ho|]. rewrite Ho, app_nil_r. by destruct o. }
  induction n as [|n IH]; intros inside h stack d p Hlen Hdeep Hok;
    destruct inside as [|[d1 t1] rest]; try (by apply Hbase); [simpl in Hlen; lia|].
  apply Forall_cons in Hdeep as [Hd1 Hdeep]. cbn [fst] in Hd1.
  cbn [length] in Hlen.
  destruct (span_spec (fun b : nat * str => d1 <? fst b) rest) as (Hrest & Hin1 & Hafter).
  destruct (span (fun b : nat * str => d1 <? fst b) rest) as [in1 after1].
  cbn [fst snd] in *. subst rest. rewrite length_app in Hlen.
  apply Forall_app in Hdeep as [_ Hdeep_after].
  pose proof Hok as (_ & Hrefs & Hkids & _).
  apply Forall_cons in Hrefs as [Hp _]. cbn [snd] in Hp.
  destruct (lookup_lt_is_Some_2 h p Hp) as [o Ho].
  (* the first bullet of the run *)
  pose proof (attach_keep h stack d p d1 t1 Hd1) as Hstep.
  set (h1 := alter (append_child (length h)) p (h ++ [MkObj t1 []])) in *.
  assert (Hlen1 : length h1 = S (length h)).
  { subst h1. rewrite length_alter, length_app. simpl. lia. }
  assert (Hok1 : heap_ok (h1, (Z.of_nat d1, length h) :: (d, p) :: stack)).
  { destruct (attach_ok _ (d1, t1) Hok) as (st' & Hst' & Hok'). congruence. }
  assert (Hold1 : forall i, i < length h -> i <> p -> h1 !! i = h !! i).
  { intros i Hi Hne. subst h1. by rewrite list_lookup_alter_ne, lookup_app_l by done. }
  assert (Hp1 : h1 !! p = Some (MkObj (o_title o) (o_children o ++ [length h]))).
  { subst h1. by rewrite list_lookup_alter_eq, lookup_app_l, Ho by done. }
  assert (Hn1 : h1 !! length h = Some (MkObj t1 [])).
  { subst h1. rewrite list_lookup_alter_ne by lia.
    rewrite lookup_app_r by lia. by rewrite Nat.sub_diag. }
  (* the bullets below it *)
  destruct (IH in1 h1 ((d, p) :: stack) (Z.of_nat d1) (length h)) as
    (h2 & extra1 & kids1 & Hfold1 & Hextra1 & Hok2 & Hlen2 & Hold2 & (o1 & Ho1 & Hn2)
     & Hkids1 & Hout1); [lia | | exact Hok1 |].
  { eapply Forall_impl; [exact Hin1|]. cbn beta. intros b Hb.
    apply Nat.ltb_lt in Hb. lia. }
  rewrite Hn1 in Ho1. injection Ho1 as <-. cbn [o_title o_children app] in Hn2.
  pose proof Hok2 as (_ & _ & Hkids2 & _).
  assert (Hp2 : h2 !! p = Some (MkObj (o_title o) (o_children o ++ [length h]))).
  { rewrite Hold2 by lia. exact Hp1. }
  assert (Hnode : forall h3 : heap,
             (forall i, length h <= i < length h2 -> h3 !! i = h2 !! i) ->
             length h2 <= length h3 ->
             read_node (length h3) h3 (length h)
             = MkMindMapNode t1 (map (read_node (length h2) h2) kids1)).
  { intros h3 Hsame Hle.
    destruct (length h3) as [|fuel] eqn:Hfuel; [lia|]. cbn [read_node].
    rewrite Hsame, Hn2 by lia. cbn [o_title o_children]. f_equal.
    pose proof (Hkids2 _ _ Hn2) as Hbound. cbn [o_children] in Hbound.
    apply map_ext_Forall. rewrite Forall_forall in Hbound, Hkids1.
    apply Forall_forall. intros r Hr.
    specialize (Hbound r Hr). specialize (Hkids1 r Hr).
    apply (read_node_stable h2 h3 Hkids2); [lia | lia | lia |].
    intros i Hi. apply Hsame. lia. }
  assert (Hfold : exc_fold attach ((d1, t1) :: in1 ++ after1) (h, (d, p) :: stack)
                  = exc_fold attach after1
                      (h2, (extra1 ++ [(Z.of_nat d1, length h)]) ++ (d, p) :: stack)).
  { cbn [exc_fold]. rewrite Hstep. cbn [exc_bind].
    rewrite exc_fold_app, Hfold1. cbn [exc_bind]. by rewrite <- app_assoc. }
  assert (Hextra : Forall (fun e : Z * nat => (d < fst e)%Z)
                     (extra1 ++ [(Z.of_nat d1, length h)])).
  { apply Forall_app. split.
    - eapply Forall_impl; [exact Hextra1|]. cbn beta. intros; lia.
    - constructor; [cbn; lia | constructor]. }
  destruct after1 as [|b after1].
  - (* the run ends here *)
    exists h2, (extra1 ++ [(Z.of_nat d1, length h)]), [length h].
    rewrite app_nil_r in *.
    split; [by rewrite Hfold|]. split; [exact Hextra|].
    split; [by rewrite <- app_assoc|]. split; [cbn [length]; lia|].
    split; [intros i Hi Hne; rewrite Hold2 by lia; by apply Hold1|].
    split; [by exists o|]. split; [by constructor|].
    cbn [map]. rewrite (Hnode h2) by (done || lia).
    rewrite <- (app_nil_r in1) at 1.
    apply (outline_cons d1 t1 in1 [] _ []); [|done|exact Hout1|constructor].
    eapply Forall_impl; [exact Hin1|]. cbn beta. intros b Hb. by apply Nat.ltb_lt.
  - (* a bullet that is not deeper follows *)
    apply Nat.ltb_ge in Hafter.
    destruct (IH (b :: after1) h2 stack d p) as
      (h3 & extra3 & kids3 & Hfold3 & Hextra3 & Hok3 & Hlen3 & Hold3 & (o2 & Ho2 & Hp3)
       & Hkids3 & Hout3); [lia | exact Hdeep_after | |].
    { apply (heap_ok_below h2 (extra1 ++ [(Z.of_nat d1, length h)])); [|done].
      by rewrite <- app_assoc. }
    rewrite Hp2 in Ho2. injection Ho2 as <-. cbn [o_title o_children] in Hp3.
    exists h3, extra3, (length h :: kids3).
    split.
    { rewrite Hfold, <- Hfold3. cbn [exc_fold]. rewrite attach_below; [done| |done].
      apply Forall_app. split.
      - eapply Forall_impl; [exact Hextra1|]. cbn beta. intros; lia.
      - constructor; [cbn; lia | constructor]. }
    split; [exact Hextra3|]. split; [exact Hok3|].
    split; [rewrite Hlen3, Hlen2, Hlen1; cbn [length]; rewrite length_app; cbn [length]; lia|].
    split; [intros i Hi Hne; rewrite Hold3, Hold2 by lia; by apply Hold1|].
    split; [exists o; split; [exact Ho|]; by rewrite Hp3, <- app_assoc|].
    split.
    { constructor; [lia|]. eapply Forall_impl; [exact Hkids3|]. cbn beta. intros; lia. }
    cbn [map]. rewrite (Hnode h3).
    + apply outline_cons; [|exact Hafter|exact Hout1|exact Hout3].
      eapply Forall_impl; [exact Hin1|]. cbn beta. intros c Hc. by apply Nat.ltb_lt.
    + intros i Hi. apply Hold3; lia.
    + lia.
Qed.

Lemma outline_nonempty bullets trees : outline bullets trees -> bullets <> [] -> trees <> [].
Proof. by destruct 1. Qed.

Lemma outline_titles bullets trees :
  outline bullets trees -> flat_map titles trees = map snd bullets.
Proof.
  induction 1 as [|depth text inside after kids rest _ _ _ IHin _ IHafter]; [done|].
  cbn [flat_map titles map snd app]. by rewrite map_app, IHin, IHafter.
Qed.

Lemma normalize_depths_texts first bullets :
  map snd (normalize_depths first bullets) = map snd bullets.
Proof. unfold normalize_depths. rewrite map_map. by apply map_ext. Qed.

(** What the parser returns, with the forest of the outline. *)
Lemma parse_outline (markdown : str) :
  match snd (scan markdown) with
  | [] => parse_mind_map_markdown markdown = Ok None
  | ((first, _) :: _) as bullets =>
      exists trees : list MindMapNode,
        outline (normalize_depths first bullets) trees
        /\ parse_mind_map_markdown markdown =
             Ok (Some (match trees with
                       | [only] => only
                       | _ => MkMindMapNode
                                (default fallback_title (first_titled_heading markdown)) trees
                       end))
  end.
Proof.
  unfold parse_mind_map_markdown.
  pose proof (scan_title markdown) as Htitle.
  destruct (scan markdown) as [heading_title bullets]. cbn [fst snd] in *.
  destruct bullets as [|[first text] bullets]; [reflexivity|].
  set (normalized := normalize_depths first ((first, text) :: bullets)).
  destruct (attach_run (length normalized) normalized [MkObj (lit "__pseudo__") []] []
              (-1)%Z pseudo_root)
    as (h & extra & top & Hfold & _ & _ & _ & _ & (o & Ho & Htop) & _ & Hout);
    [done | | exact initial_state_ok |].
  { apply Forall_forall. intros; lia. }
  injection Ho as <-. cbn [o_title o_children app] in Htop.
  exists (map (read_node (length h) h) top). split; [exact Hout|].
  unfold initial_state. rewrite Hfold. cbn [exc_bind]. rewrite Htop. cbn [o_children].
  destruct (map (read_node (length h) h) top) as [|t1 [|t2 ts]]; rewrite ?Htitle; reflexivity.
Qed.

Lemma scan_bullets_clean (lines_ : list str) (st : option str * list (nat * str)) :
  Forall (fun b => snd b <> [] /\ exists raw, snd b = _clean_text raw) (snd st) ->
  Forall (fun b => snd b <> [] /\ exists raw, snd b = _clean_text raw)
    (snd (fold_left scan_line lines_ st)).
Proof.
  revert st. induction lines_ as [|l ls IH]; intros st Hst; [exact Hst|].
  cbn [fold_left]. apply IH. destruct st as [ht bs]. unfold scan_line.
  destruct (bullet_match l) as [[g1 g2]|]; [|exact Hst].
  destruct (_clean_text g2) as [|c r] eqn:Hc; [exact Hst|].
  cbn [snd] in *. apply Forall_app. split; [exact Hst|].
  constructor; [|constructor]. cbn [snd]. split; [done|]. by exists g2.
Qed.

(** X6: the parser builds the forest of the outline.  The depths are the
    indents less the least one, halved; every bullet takes as its
    subtree the bullets that follow it up to the first that is not
    deeper; a lone top-level tree is returned as it is, and several are
    put under the new root. *)
Theorem parse_builds_outline (markdown : str) (t : MindMapNode) :
  parse_mind_map_markdown markdown = Ok (Some t) ->
  exists (first : nat * str) (trees : list MindMapNode),
    head (snd (scan markdown)) = Some first
    /\ outline (normalize_depths (fst first) (snd (scan markdown))) trees
    /\ (trees = [t]
        \/ (length trees <> 1
            /\ t = MkMindMapNode (default fallback_title (first_titled_heading markdown))
                     trees)).
Proof.
  intros Hparse. pose proof (parse_outline markdown) as Hout.
  destruct (snd (scan markdown)) as [|[first text] bullets]; [congruence|].
  destruct Hout as (trees & Hout & Hret). exists (first, text), trees.
  split; [done|]. split; [exact Hout|].
  rewrite Hret in Hparse. injection Hparse as <-.
  destruct trees as [|t1 [|t2 ts]]; [right | left | right]; done.
Qed.

Lemma parse_builds_outline_witness :
  exists trees : list MindMapNode,
    outline [(0, lit "a"); (1, lit "b"); (0, lit "c")] trees
    /\ (trees = [MkMindMapNode (lit "Mind Map")
                   [MkMindMapNode (lit "a") [MkMindMapNode (lit "b") []];
                    MkMindMapNode (lit "c") []]]
        \/ length trees <> 1).
Proof.
  destruct (parse_builds_outline (doc ["  - a"; "    - b"; "  - c"]%string)
              (MkMindMapNode (lit "Mind Map")
                 [MkMindMapNode (lit "a") [MkMindMapNode (lit "b") []];
                  MkMindMapNode (lit "c") []]))
    as (first & trees & Hfirst & Hout & Hcase); [vm_compute; reflexivity|].
  exists trees. vm_compute in Hfirst. injection Hfirst as <-.
  split; [exact Hout|]. destruct Hcase as [?|[? _]]; [by left | by right].
Defined.

(** X7: the parser keeps every bullet, in order.  The titles of the tree,
    parent first, are the cleaned texts of the bullet lines in document
    order, after the title of the new root when there is one. *)
Theorem parse_keeps_bullets (markdown : str) (t : MindMapNode) :
  parse_mind_map_markdown markdown = Ok (Some t) ->
  titles t = map snd (snd (scan markdown))
  \/ titles t = default fallback_title (first_titled_heading markdown)
                :: map snd (snd (scan markdown)).
Proof.
  intros Hparse. pose proof (parse_outline markdown) as Hout.
  destruct (snd (scan markdown)) as [|[first text] bullets]; [congruence|].
  destruct Hout as (trees & Hout & Hret).
  apply outline_titles in Hout. rewrite normalize_depths_texts in Hout.
  rewrite Hret in Hparse. injection Hparse as <-.
  destruct trees as [|t1 [|t2 ts]]; [right | left | right].
  - by rewrite <- Hout.
  - rewrite <- Hout. cbn [flat_map]. by rewrite app_nil_r.
  - by rewrite <- Hout.
Qed.

Lemma parse_keeps_bullets_witness :
  titles (MkMindMapNode (lit "a") [MkMindMapNode (lit "b") []; MkMindMapNode (lit "c") []])
  = map snd (snd (scan (doc ["- a"; "  - b"; "  - c"]%string)))
  \/ titles (MkMindMapNode (lit "a") [MkMindMapNode (lit "b") []; MkMindMapNode (lit "c") []])
     = default fallback_title (first_titled_heading (doc ["- a"; "  - b"; "  - c"]%string))
       :: map snd (snd (scan (doc ["- a"; "  - b"; "  - c"]%string))).
Proof.
  apply (parse_keeps_bullets (doc ["- a"; "  - b"; "  - c"]%string)).
  vm_compute. reflexivity.
Defined.

Lemma first_titled_heading_clean (markdown : str) (title : str) :
  first_titled_heading markdown = Some title ->
  title <> [] /\ exists raw, title = _clean_text raw.
Proof.
  unfold first_titled_heading, heading_titles. intros Hhead.
  assert (Hin : title ∈ List.filter (fun t => negb (falsy (Some t)))
                  (omap (fun raw_line => _clean_text <$> heading_match (strip raw_line))
                     (splitlines markdown))).
  { destruct (List.filter _ _) as [|t0 ts]; [done|]. injection Hhead as ->. by left. }
  apply list_elem_of_In, filter_In in Hin as [Hin Hne].
  apply list_elem_of_In, list_elem_of_omap in Hin as (raw_line & _ & Hraw).
  split; [by destruct title|].
  destruct (heading_match (strip raw_line)) as [g|]; [|done].
  injection Hraw as <-. by exists g.
Qed.

(** X8: no node of a parsed tree has an empty title, and every title is a
    text [_clean_text] returns. *)
Theorem parse_titles_clean (markdown : str) (t : MindMapNode) :
  parse_mind_map_markdown markdown = Ok (Some t) ->
  Forall (fun title => title <> [] /\ exists raw, title = _clean_text raw) (titles t).
Proof.
  intros Hparse.
  assert (Hbullets : Forall (fun title => title <> [] /\ exists raw, title = _clean_text raw)
                       (map snd (snd (scan markdown)))).
  { apply Forall_map. apply scan_bullets_clean. constructor. }
  pose proof (parse_outline markdown) as Hout.
  destruct (snd (scan markdown)) as [|[first text] bullets] eqn:Hscan; [congruence|].
  destruct Hout as (trees & Hout & Hret).
  apply outline_titles in Hout. rewrite normalize_depths_texts in Hout.
  rewrite <- Hout in Hbullets.
  rewrite Hret in Hparse. injection Hparse as <-.
  assert (Hroot : default fallback_title (first_titled_heading markdown) <> []
                  /\ exists raw, default fallback_title (first_titled_heading markdown)
                                 = _clean_text raw).
  { destruct (first_titled_heading markdown) as [title|] eqn:Ht.
    - by apply (first_titled_heading_clean markdown).
    - split; [done|]. exists (lit "Mind Map"). vm_compute. reflexivity. }
  destruct trees as [|t1 [|t2 ts]].
  - by constructor.
  - cbn [flat_map] in Hbullets. by rewrite app_nil_r in Hbullets.
  - by constructor.
Qed.

Lemma parse_titles_clean_witness :
  Forall (fun title => title <> [] /\ exists raw, title = _clean_text raw)
    (titles (MkMindMapNode (lit "a") [MkMindMapNode (lit "b") []; MkMindMapNode (lit "c") []])).
Proof.
  apply (parse_titles_clean (doc ["- a"; "  - b"; "  - c"]%string)).
  vm_compute. reflexivity.
Defined.

(** * A common indent does not count *)

Lemma expandtabs2_len_shift (s : str) :
  forall col len j m,
    expandtabs2_len s (col + 2 * j) (len + m) = expandtabs2_len s col len + m.
Proof.
  induction s as [|c s IH]; intros col len j m; cbn [expandtabs2_len]; [done|].
  destruct (ord c =? 9).
  - replace ((col + 2 * j) mod 2) with (col mod 2)
      by (rewrite (Nat.mul_comm 2 j); symmetry; apply Nat.Div0.mod_add).
    replace (col + 2 * j + (2 - col mod 2)) with (col + (2 - col mod 2) + 2 * j) by lia.
    replace (len + m + (2 - col mod 2)) with (len + (2 - col mod 2) + m) by lia.
    apply IH.
  - destruct ((ord c =? 10) || (ord c =? 13)).
    + apply (IH 0 (S len) 0 m).
    + apply (IH (S col) (S len) j m).
Qed.

Lemma expandtabs2_len_spaces (n : nat) (s : str) :
  forall col len,
    expandtabs2_len (repeat " "%char n ++ s) col len = expandtabs2_len s (col + n) (len + n).
Proof.
  induction n as [|n IH]; intros col len; cbn [repeat app].
  - by rewrite !Nat.add_0_r.
  - cbn [expandtabs2_len]. change (ord " " =? 9) with false.
    change ((ord " " =? 10) || (ord " " =? 13)) with false. cbv iota.
    rewrite IH. f_equal; lia.
Qed.

Lemma span_spaces (n : nat) (s : str) :
  span isspace (repeat " "%char n ++ s)
  = (repeat " "%char n ++ (span isspace s).1, (span isspace s).2).
Proof.
  induction n as [|n IH]; cbn [repeat app]; [by destruct (span isspace s)|].
  cbn [span]. change (isspace " ") with true. cbv iota. by rewrite IH.
Qed.

Lemma lstrip_spaces (n : nat) (s : str) : lstrip (repeat " "%char n ++ s) = lstrip s.
Proof. induction n as [|n IH]; [done|]. cbn [repeat app lstrip]. exact IH. Qed.

Lemma bullet_match_spaces (n : nat) (line : str) :
  bullet_match (repeat " "%char n ++ line)
  = match bullet_match line with
    | Some (group1, group2) => Some (repeat " "%char n ++ group1, group2)
    | None => None
    end.
Proof.
  unfold bullet_match. rewrite span_spaces.
  destruct (span isspace line) as [indent rest]. cbn [fst snd].
  destruct rest as [|c rest]; [done|].
  destruct (char_eqb c "-" || char_eqb c "*"); [|done].
  by destruct (span isspace rest) as [[|? ?] ?].
Qed.

Lemma scan_line_spaces (k : nat) (ht : option str) (bs : list (nat * str)) (line : str) :
  scan_line (ht, map (fun b => (2 * k + fst b, snd b)) bs) (repeat " "%char (2 * k) ++ line)
  = ((scan_line (ht, bs) line).1,
     map (fun b => (2 * k + fst b, snd b)) (scan_line (ht, bs) line).2).
Proof.
  unfold scan_line, strip. rewrite lstrip_spaces, bullet_match_spaces.
  destruct (bullet_match line) as [[g1 g2]|]; [|done].
  destruct (_clean_text g2) as [|c r]; [done|]. cbn [fst snd].
  rewrite map_app. cbn [map fst snd]. do 4 f_equal.
  rewrite expandtabs2_len_spaces.
  rewrite (expandtabs2_len_shift g1 0 0 k (2 * k)). lia.
Qed.

Lemma scan_spaces (k : nat) (lines_ : list str) :
  forall ht bs,
    fold_left scan_line (map (fun line => repeat " "%char (2 * k) ++ line) lines_)
      (ht, map (fun b => (2 * k + fst b, snd b)) bs)
    = ((fold_left scan_line lines_ (ht, bs)).1,
       map (fun b => (2 * k + fst b, snd b)) (fold_left scan_line lines_ (ht, bs)).2).
Proof.
  induction lines_ as [|l ls IH]; intros ht bs; [done|]. cbn [map fold_left].
  rewrite scan_line_spaces. destruct (scan_line (ht, bs) l) as [ht' bs']. apply IH.
Qed.

Lemma min_indent_shift (c first : nat) (bullets : list (nat * str)) :
  min_indent (c + first) (map (fun b => (c + fst b, snd b)) bullets)
  = c + min_indent first bullets.
Proof.
  unfold min_indent. revert first. induction bullets as [|b bs IH]; intros first; [done|].
  cbn [map fold_left fst]. rewrite Nat.add_min_distr_l. apply IH.
Qed.

Lemma normalize_depths_shift (c first : nat) (bullets : list (nat * str)) :
  normalize_depths (c + first) (map (fun b => (c + fst b, snd b)) bullets)
  = normalize_depths first bullets.
Proof.
  unfold normalize_depths. rewrite min_indent_shift, map_map.
  apply map_ext. intros b. cbn [fst snd]. do 2 f_equal. lia.
Qed.

Lemma parse_scan_shift (markdown shifted : str) (c : nat) :
  scan shifted
  = ((scan markdown).1, map (fun b => (c + fst b, snd b)) (scan markdown).2) ->
  parse_mind_map_markdown shifted = parse_mind_map_markdown markdown.
Proof.
  unfold parse_mind_map_markdown. intros ->.
  destruct (scan markdown) as [ht bs]. cbn [fst snd].
  destruct bs as [|[first text] bs]; [reflexivity|].
  cbn [map fst snd].
  change ((c + first, text) :: map (fun b => (c + fst b, snd b)) bs)
    with (map (fun b : nat * str => (c + fst b, snd b)) ((first, text) :: bs)).
  by rewrite normalize_depths_shift.
Qed.

(** X9: an indent of an even number of spaces common to all lines does
    not change the result of the parser. *)
Theorem parse_ignores_common_indent (markdown shifted : str) (k : nat) :
  splitlines shifted
  = map (fun line => repeat " "%char (2 * k) ++ line) (splitlines markdown) ->
  parse_mind_map_markdown shifted = parse_mind_map_markdown markdown.
Proof.
  intros Hlines. apply (parse_scan_shift _ _ (2 * k)).
  unfold scan. rewrite Hlines.
  exact (scan_spaces k (splitlines markdown) None []).
Qed.

Lemma parse_ignores_common_indent_witness :
  parse_mind_map_markdown (doc ["    - a"; "      - b"; "    - c"]%string)
  = parse_mind_map_markdown (doc ["- a"; "  - b"; "- c"]%string).
Proof.
  apply (parse_ignores_common_indent _ _ 2). vm_compute. reflexivity.
Defined.

(** * What the layout lists *)

Section Listing.
Context {R : Type} {num : Num R}.

Lemma visit_boxes (t : MindMapNode) :
  forall d counter (r : _RenderNode R) (counter' : nat),
    visit t d counter = Ok (r, counter') ->
    map title (flat r) = titles t
    /\ map depth (flat r) = depths d t
    /\ Forall decorated_box (flat r)
    /\ rn_depth r = d
    /\ rn_all one_deeper r.
Proof.
  induction t as [ttl children IH] using MindMapNode_induction.
  intros d counter r counter'. rewrite visit_eq.
  destruct (_wrap_text ttl (wrap_width d)) as [wrapped|] eqn:Hwrap; [|done].
  cbn [exc_bind].
  assert (Hkids : forall counter rs counter',
    visit_children (R := R) (S d) children counter = Ok (rs, counter') ->
    map title (flat_map flat rs) = flat_map titles children
    /\ map depth (flat_map flat rs) = flat_map (depths (S d)) children
    /\ Forall decorated_box (flat_map flat rs)
    /\ Forall (fun c => rn_depth c = S d) rs
    /\ Forall (rn_all one_deeper) rs).
  { clear counter counter' r. induction IH as [|c cs Hc _ IHcs]; intros counter rs counter'.
    - intros [= <- <-]. by repeat split.
    - cbn [visit_children]. destruct (visit c (S d) counter) as [[r1 c1]|] eqn:Hr1; [|done].
      cbn [exc_bind fst snd]. fold (visit_children (R := R) (S d)).
      destruct (visit_children (S d) cs c1) as [[rs1 c2]|] eqn:Hrs1; [|done].
      cbn [exc_bind fst snd]. intros [= <- <-].
      destruct (Hc _ _ _ _ Hr1) as (Ht & Hd & Hb & Hdepth & Hall).
      destruct (IHcs _ _ _ Hrs1) as (Hts & Hds & Hbs & Hdepths & Halls).
      cbn [flat_map]. rewrite !map_app, Ht, Hd, Hts, Hds.
      split; [done|]. split; [done|]. split; [by apply Forall_app|].
      split; by constructor. }
  destruct (visit_children (S d) children (S counter)) as [[rs c2]|] eqn:Hrs; [|done].
  cbn [exc_bind fst snd]. intros [= <- <-].
  destruct (Hkids _ _ _ Hrs) as (Hts & Hds & Hbs & Hdepths & Halls).
  cbn [flat map positioned titles depths rn_depth title depth]. rewrite Hts, Hds.
  split; [done|]. split; [done|]. split; [|split; [done|]].
  - constructor; [|exact Hbs]. by repeat split.
  - apply rn_all_unfold. split; [exact Hdepths | exact Halls].
Qed.

(** The fields of a box that [info] keeps. *)
Lemma info_fields (l l' : list (PositionedNode R)) :
  map info l = map info l' ->
  map title l = map title l' /\ map depth l = map depth l'
  /\ (Forall decorated_box l -> Forall decorated_box l').
Proof.
  revert l'. induction l as [|b l IH]; intros [|b' l'] Heq; try done.
  cbn [map] in Heq. apply (f_equal tail) in Heq as Hl. cbn [tail] in Hl.
  apply (f_equal head) in Heq as Hb. cbn [head] in Hb.
  destruct (IH _ Hl) as (Ht & Hd & Hbox).
  unfold info in Hb. injection Hb as Hid Htitle Hlines Hdepth Hwidth Hheight.
  cbn [map]. rewrite Ht, Hd, Htitle, Hdepth. split; [done|]. split; [done|].
  intros [Hb Hrest]%Forall_cons. constructor; [|by apply Hbox].
  unfold decorated_box in *. by rewrite <- Htitle, <- Hlines, <- Hdepth, <- Hwidth, <- Hheight.
Qed.

(** The layout, with what it takes from the decorated tree. *)
Lemma layout_listing (t : MindMapNode) :
  exists (layout : MindMapLayout R) (root : _RenderNode R),
    _compute_layout t = Ok layout
    /\ _decorate_tree t = Ok root
    /\ map node_id (nodes layout) = seq 0 (mm_size t)
    /\ map info (nodes layout) = map info (flat root)
    /\ edges layout = flat_edges root.
Proof.
  destruct (compute_layout_ok (R := R) t)
    as (root & min_x & max_x & min_y & max_y & Hdec & Hids & _ & _ & _ & _ & _ & _ & _
        & Hlayout).
  assert (Hnd : NoDup (map node_id (flat root))) by (rewrite Hids; apply NoDup_seq).
  destruct (place_root_preserved root Hnd) as (_ & Hinfo & Hedges).
  eexists _, root. split; [exact Hlayout|]. split; [exact Hdec|].
  cbn [nodes edges]. rewrite shift_node_info.
  split; [|by split].
  rewrite <- Hids. apply info_ids. by rewrite shift_node_info.
Qed.

Lemma layout_decorated (t : MindMapNode) :
  exists layout : MindMapLayout R,
    _compute_layout t = Ok layout /\ Forall decorated_box (nodes layout).
Proof.
  destruct (layout_listing t) as (layout & root & Hlayout & Hdec & _ & Hinfo & _).
  exists layout. split; [exact Hlayout|].
  unfold _decorate_tree in Hdec.
  destruct (visit t 0 0) as [[r c]|] eqn:Hvisit; [|done]. injection Hdec as ->.
  destruct (visit_boxes t _ _ _ _ Hvisit) as (_ & _ & Hb & _).
  symmetry in Hinfo. by apply (info_fields _ _ Hinfo).
Qed.

Lemma lookup_by_id (l : list (PositionedNode R)) (n : nat) (b : PositionedNode R) :
  map node_id l = seq 0 n -> b ∈ l -> l !! node_id b = Some b.
Proof.
  intros Hids [i Hi]%list_elem_of_lookup_1.
  apply (f_equal (fun l => l !! i)) in Hids.
  rewrite list_lookup_fmap, Hi in Hids. cbn in Hids. symmetry in Hids.
  apply lookup_seq in Hids as [-> _]. exact Hi.
Qed.

(** X10: a layout that [_compute_layout] returns lists the tree.  It is
    the layout of the walk without a bound on nested calls; there is one
    box for every node of the tree, parent first and children in order;
    the box carries the title and the depth of its node, its lines are
    the title wrapped at the width of that depth, and its size is the
    one of those lines. *)
Theorem layout_lists_tree (t : MindMapNode) (frames : nat) (layout : MindMapLayout R) :
  Bounded._compute_layout frames t = Ok layout ->
  _compute_layout t = Ok layout
  /\ map title (nodes layout) = titles t
  /\ map depth (nodes layout) = depths 0 t
  /\ Forall decorated_box (nodes layout).
Proof.
  intros Hbounded.
  destruct (compute_layout_bounded (R := R) t frames) as [Hfit Hdeep].
  destruct (le_lt_dec (2 * mm_height t + 2) frames) as [Hle|Hlt];
    [|by rewrite (Hdeep Hlt) in Hbounded].
  rewrite (Hfit Hle) in Hbounded.
  destruct (layout_listing t) as (layout' & root & Hlayout & Hdec & _ & Hinfo & _).
  assert (layout' = layout) as -> by congruence.
  split; [exact Hlayout|].
  unfold _decorate_tree in Hdec.
  destruct (visit t 0 0) as [[r c]|] eqn:Hvisit; [|done]. injection Hdec as ->.
  destruct (visit_boxes t _ _ _ _ Hvisit) as (Ht & Hd & Hb & _).
  symmetry in Hinfo. destruct (info_fields _ _ Hinfo) as (Ht' & Hd' & Hb').
  rewrite <- Ht', <- Hd'. auto.
Qed.

(** ** Leaves *)

Lemma py_sum_int_acc (l : list nat) (acc : nat) : fold_left Nat.add l acc = acc + list_sum l.
Proof.
  revert acc. induction l as [|a l IH]; intros acc; simpl; [lia|]. rewrite IH. lia.
Qed.

Lemma leaf_count_children (children : list (_RenderNode R)) :
  Forall (fun c => _leaf_count c = length (List.filter is_leaf (subnodes c))
                   /\ 1 <= _leaf_count c <= length (subnodes c)) children ->
  py_sum_int (map _leaf_count children)
  = length (List.filter is_leaf (flat_map subnodes children))
  /\ length children <= py_sum_int (map _leaf_count children)
     <= length (flat_map subnodes children).
Proof.
  unfold py_sum_int. rewrite py_sum_int_acc. cbn [Nat.add].
  induction 1 as [|c cs (Hc & Hlo & Hhi) _ (IHs & IHlo & IHhi)]; [by cbn|].
  cbn [map flat_map length]. rewrite List.filter_app, !length_app, <- Hc, <- IHs.
  change (list_sum (_leaf_count c :: map _leaf_count cs))
    with (_leaf_count c + list_sum (map _leaf_count cs)).
  lia.
Qed.

(** X11: [_leaf_count] counts the nodes of the subtree that have no
    children; there is at least one, and no more than there are nodes. *)
Theorem leaf_count_counts_leaves (node : _RenderNode R) :
  _leaf_count node = length (List.filter is_leaf (subnodes node))
  /\ 1 <= _leaf_count node <= length (subnodes node).
Proof.
  induction node as [id_ ttl d children lines_ w h x0 y0 IH] using RenderNode_induction.
  destruct children as [|c cs]; [by cbn|].
  destruct (leaf_count_children _ IH) as (Hsum & Hlo & Hhi).
  cbn [_leaf_count subnodes List.filter is_leaf rn_children length].
  rewrite Hsum. cbn [length] in Hlo. rewrite <- Hsum. lia.
Qed.

(** ** Edges *)

Lemma edge_boxes_ids (node : _RenderNode R) :
  map (fun pc => (node_id pc.1, node_id pc.2)) (edge_boxes node) = flat_edges node.
Proof.
  induction node as [id_ ttl d children lines_ w h x0 y0 IH] using RenderNode_induction.
  cbn [edge_boxes flat_edges].
  set (node := positioned (MkRenderNode id_ ttl d children lines_ w h x0 y0)).
  change id_ with (node_id node). clearbody node.
  induction IH as [|c cs Hc _ IHcs]; [done|].
  cbn [flat_map]. rewrite map_app, IHcs. cbn [map fst snd].
  rewrite Hc. by destruct c.
Qed.

Lemma edge_boxes_in (node : _RenderNode R) :
  Forall (fun pc => pc.1 ∈ flat node /\ pc.2 ∈ flat node) (edge_boxes node).
Proof.
  induction node as [id_ ttl d children lines_ w h x0 y0 IH] using RenderNode_induction.
  cbn [edge_boxes flat].
  set (node := positioned (MkRenderNode id_ ttl d children lines_ w h x0 y0)).
  assert (Hgen : forall kids : list (_RenderNode R),
    Forall (fun c => Forall (fun pc => pc.1 ∈ flat c /\ pc.2 ∈ flat c) (edge_boxes c)) kids ->
    Forall (fun pc => pc.1 ∈ node :: flat_map flat kids
                      /\ pc.2 ∈ node :: flat_map flat kids)
      (flat_map (fun child => (node, positioned child) :: edge_boxes child) kids)).
  { induction 1 as [|c cs Hc _ IHcs]; [constructor|].
    cbn [flat_map]. constructor; [|apply Forall_app; split].
    - cbn [fst snd]. split; [by left|]. right. apply elem_of_app. left.
      rewrite flat_unfold. by left.
    - eapply Forall_impl; [exact Hc|]. cbn beta. intros pc [H1 H2].
      split; right; apply elem_of_app; by left.
    - eapply Forall_impl; [exact IHcs|]. cbn beta. intros pc [H1 H2].
      split.
      + apply elem_of_cons in H1 as [->|H1]; [by left|].
        right. apply elem_of_app. by right.
      + apply elem_of_cons in H2 as [->|H2]; [by left|].
        right. apply elem_of_app. by right. }
  by apply Hgen.
Qed.

Lemma flat_edges_children (node : _RenderNode R) :
  map snd (flat_edges node) = tail (map node_id (flat node)).
Proof.
  induction node as [id_ ttl d children lines_ w h x0 y0 IH] using RenderNode_induction.
  cbn [flat_edges flat map tail].
  induction IH as [|c cs Hc _ IHcs]; [done|].
  cbn [flat_map]. rewrite !map_app, IHcs. cbn [map snd]. rewrite Hc.
  rewrite flat_unfold_id. reflexivity.
Qed.

Lemma visit_edges (t : MindMapNode) :
  forall d counter (r : _RenderNode R) (counter' : nat),
    visit t d counter = Ok (r, counter') ->
    Forall (fun pc => counter <= node_id pc.1 < node_id pc.2
                      /\ depth pc.2 = S (depth pc.1)) (edge_boxes r).
Proof.
  induction t as [ttl children IH] using MindMapNode_induction.
  intros d counter r counter' Hvisit.
  destruct (visit_spec (R := R) (MkMindMapNode ttl children) d counter)
    as (r' & Hr' & _).
  rewrite Hvisit in Hr'. injection Hr' as <- _. revert Hvisit. rewrite visit_eq.
  destruct (_wrap_text ttl (wrap_width d)) as [wrapped|] eqn:Hwrap; [|done].
  cbn [exc_bind].
  destruct (visit_children (S d) children (S counter)) as [[rs c2]|] eqn:Hrs; [|done].
  cbn [exc_bind fst snd]. intros [= <- <-]. cbn [edge_boxes].
  set (node := positioned (MkRenderNode counter ttl d rs wrapped (node_width wrapped)
                             (node_height wrapped) (of_Z 0) (of_Z 0))).
  assert (Hnid : node_id node = counter) by reflexivity.
  assert (Hnd : depth node = d) by reflexivity.
  clearbody node.
  assert (Hgen : forall low rs counter',
    counter < low ->
    visit_children (R := R) (S d) children low = Ok (rs, counter') ->
    Forall (fun pc => counter <= node_id pc.1 < node_id pc.2
                      /\ depth pc.2 = S (depth pc.1))
      (flat_map (fun child => (node, positioned child) :: edge_boxes child) rs)).
  { clear Hrs. induction IH as [|c cs Hc _ IHcs]; intros low rs' counter' Hlow.
    - intros [= <- <-]. constructor.
    - cbn [visit_children].
      destruct (visit_spec (R := R) c (S d) low) as (r1 & Hr1 & _ & _ & _ & Hd1 & Hid1).
      rewrite Hr1. cbn [exc_bind fst snd]. fold (visit_children (R := R) (S d)).
      destruct (visit_children (S d) cs (low + mm_size c)) as [[rs1 c3]|] eqn:Hrs1; [|done].
      cbn [exc_bind fst snd]. intros [= <- <-].
      cbn [flat_map]. constructor; [|apply Forall_app; split].
      + cbn [fst snd]. rewrite Hnid, Hnd. destruct r1. cbn in *. lia.
      + eapply Forall_impl; [exact (Hc _ _ _ _ Hr1)|]. cbn beta. intros; lia.
      + apply (IHcs (low + mm_size c) _ c3); [lia | exact Hrs1]. }
  apply (Hgen (S counter) rs c2); [lia | exact Hrs].
Qed.

(** X12: the edges of the layout form a tree on its nodes.  The child
    ends of the edges are the identifiers 1, 2, ... of all nodes but
    the root, each once and in order; the parent of an edge has a
    smaller identifier than the child and lies one level above it. *)
Theorem layout_edges_form_tree (t : MindMapNode) :
  exists layout : MindMapLayout R,
    _compute_layout t = Ok layout
    /\ length (nodes layout) = mm_size t
    /\ map snd (edges layout) = seq 1 (mm_size t - 1)
    /\ Forall (fun e => e.1 < e.2) (edges layout)
    /\ Forall (fun e => exists a b,
                  nodes layout !! e.1 = Some a /\ nodes layout !! e.2 = Some b
                  /\ depth b = S (depth a)) (edges layout).
Proof.
  destruct (layout_listing t) as (layout & root & Hlayout & Hdec & Hids & Hinfo & Hedges).
  exists layout. split; [exact Hlayout|].
  assert (Hlen : length (nodes layout) = mm_size t).
  { apply (f_equal (@length _)) in Hids. by rewrite length_map, length_seq in Hids. }
  split; [exact Hlen|].
  pose proof (info_ids _ _ Hinfo) as Hids'. rewrite Hids in Hids'.
  rewrite Hedges. split.
  { rewrite flat_edges_children, <- Hids'. by destruct (mm_size t); cbn; rewrite ?Nat.sub_0_r. }
  unfold _decorate_tree in Hdec.
  destruct (visit t 0 0) as [[r c]|] eqn:Hvisit; [|done]. injection Hdec as ->.
  pose proof (visit_edges t _ _ _ _ Hvisit) as Hpairs.
  pose proof (edge_boxes_in root) as Hin.
  rewrite <- edge_boxes_ids. split; apply Forall_map.
  - eapply Forall_impl; [exact Hpairs|]. cbn beta. cbn [fst snd]. intros; lia.
  - assert (Hfind : forall b0, b0 ∈ flat root ->
              exists a, nodes layout !! node_id b0 = Some a /\ depth a = depth b0).
    { intros b0 [i Hi]%list_elem_of_lookup_1.
      assert (Hid : node_id b0 = i).
      { apply (f_equal (fun l => l !! i)) in Hids'.
        rewrite list_lookup_fmap, Hi in Hids'. cbn in Hids'.
        apply lookup_seq in Hids' as [? _]. lia. }
      rewrite Hid.
      apply (f_equal (fun l => l !! i)) in Hinfo.
      rewrite !list_lookup_fmap, Hi in Hinfo.
      destruct (nodes layout !! i) as [a|]; [|done].
      exists a. split; [done|]. cbn in Hinfo. unfold info in Hinfo. congruence. }
    apply Forall_forall. intros pc Hpc.
    rewrite Forall_forall in Hpairs, Hin.
    destruct (Hpairs _ Hpc) as (_ & Hd). destruct (Hin _ Hpc) as (H1 & H2).
    destruct (Hfind _ H1) as (a & Ha & Hda). destruct (Hfind _ H2) as (b & Hb & Hdb).
    exists a, b. cbn [fst snd]. split; [exact Ha|]. split; [exact Hb|]. congruence.
Qed.
End Listing.

Lemma layout_lists_tree_witness :
  exists layout : MindMapLayout Q,
    Bounded._compute_layout 1000
      (MkMindMapNode (lit "A") [MkMindMapNode (lit "B") []; MkMindMapNode (lit "C") []])
    = Ok layout
    /\ map title (nodes layout) = [lit "A"; lit "B"; lit "C"]
    /\ map depth (nodes layout) = [0; 1; 1]
    /\ Forall decorated_box (nodes layout).
Proof.
  destruct (Bounded._compute_layout (R := Q) 1000
              (MkMindMapNode (lit "A") [MkMindMapNode (lit "B") []; MkMindMapNode (lit "C") []]))
    as [layout|e] eqn:Hlayout; [|vm_compute in Hlayout; discriminate].
  exists layout. split; [reflexivity|].
  exact (proj2 (layout_lists_tree (R := Q) _ 1000 layout Hlayout)).
Defined.

(** * The two groups *)

Section Groups.
Context {R : Type} {num : Num R}.

Lemma greedy_split_sublist (children left_ right_ : list (_RenderNode R)) :
  greedy_split children left_ right_ ->
  left_ `sublist_of` children /\ right_ `sublist_of` children.
Proof.
  induction 1 as [|children left_ right_ child _ [IHl IHr] _
                  |children left_ right_ child _ [IHl IHr] _]; [done| |].
  - split; [by apply sublist_app | by apply sublist_inserts_r].
  - split; [by apply sublist_inserts_r | by apply sublist_app].
Qed.

Lemma repair_empty_sublist (left_ right_ children : list (_RenderNode R)) :
  left_ `sublist_of` children -> right_ `sublist_of` children ->
  (repair_empty (left_, right_)).1 `sublist_of` children
  /\ (repair_empty (left_, right_)).2 `sublist_of` children.
Proof.
  intros Hl Hr. unfold repair_empty.
  assert (Htake : forall k l, l `sublist_of` children -> take k l `sublist_of` children).
  { intros k l H. etrans; [apply sublist_take | exact H]. }
  assert (Hdrop : forall k l, l `sublist_of` children -> drop k l `sublist_of` children).
  { intros k l H. etrans; [apply sublist_drop | exact H]. }
  destruct left_ as [|l ls].
  - destruct (drop 1 right_) eqn:Hd; cbn [fst snd]; [by auto|].
    rewrite <- Hd. by auto.
  - destruct right_ as [|r rs]; cbn [fst snd]; by auto.
Qed.

(** X13: the split hands every child to one group.  Each group lists
    some of the children in document order, and the two groups together
    hold every child once. *)
Theorem split_partitions_children (children : list (_RenderNode R)) :
  (_split_top_level_children children).1 `sublist_of` children
  /\ (_split_top_level_children children).2 `sublist_of` children
  /\ (_split_top_level_children children).1 ++ (_split_top_level_children children).2
     ≡ₚ children.
Proof.
  destruct (split_greedy children) as (left_ & right_ & Hg & ->).
  destruct (greedy_split_sublist _ _ _ Hg) as [Hl Hr].
  destruct (repair_empty_sublist _ _ _ Hl Hr) as [Hl' Hr'].
  split; [exact Hl'|]. split; [exact Hr'|].
  rewrite repair_empty_perm. by apply greedy_split_perm.
Qed.
End Groups.

(** * Columns *)

Lemma Forall_flat_map {A B : Type} (P : B -> Prop) (f : A -> list B) (l : list A) :
  Forall (fun a => Forall P (f a)) l -> Forall P (flat_map f l).
Proof. induction 1; [constructor|]. cbn [flat_map]. by apply Forall_app. Qed.

Section Columns.
Context {R : Type} {num : Num R}.

Lemma edge_boxes_unfold (node : _RenderNode R) :
  edge_boxes node
  = flat_map (fun child => (positioned node, positioned child) :: edge_boxes child)
      (rn_children node).
Proof. by destruct node. Qed.

Lemma place_subtree_fields (node : _RenderNode R) (side d : Z) (center : R) :
  rn_x (_place_subtree node side d center) = (of_Z (side * d) * H_STEP)%num
  /\ rn_depth (_place_subtree node side d center) = rn_depth node.
Proof. destruct node as [? ? ? [|c cs] ? ? ? ? ?]; by cbn. Qed.

Lemma columns_ok_node (side : Z) (p : _RenderNode R) :
  in_column side (positioned p) ->
  Forall (fun c => rn_depth c = S (rn_depth p) /\ columns_ok side c) (rn_children p) ->
  columns_ok side p.
Proof.
  intros Hp Hkids. split.
  - rewrite flat_unfold. constructor; [exact Hp|]. apply Forall_flat_map.
    eapply Forall_impl; [exact Hkids|]. by intros c (_ & Hc & _).
  - rewrite edge_boxes_unfold. apply Forall_flat_map.
    eapply Forall_impl; [exact Hkids|]. cbn beta. intros c (Hd & Hc & He).
    constructor; [|exact He]. cbn [fst snd].
    rewrite flat_unfold in Hc. apply Forall_cons in Hc as [Hc _].
    split; [|by split]. destruct p, c. exact Hd.
Qed.

Lemma place_subtree_columns (node : _RenderNode R) :
  rn_all one_deeper node ->
  forall (side d : Z) (center : R),
    Z.of_nat (rn_depth node) = d ->
    columns_ok side (_place_subtree node side d center).
Proof.
  induction node as [id_ ttl dep children lines_ w h x0 y0 IH] using RenderNode_induction.
  intros [Hdeeper Hall]%rn_all_unfold side d center Hd.
  cbn [rn_depth rn_children] in *. unfold one_deeper in Hdeeper. cbn [rn_children rn_depth] in *.
  apply columns_ok_node.
  - destruct (place_subtree_fields
                (MkRenderNode id_ ttl dep children lines_ w h x0 y0) side d center)
      as [Hx Hdep].
    unfold in_column. destruct (_place_subtree _ _ _ _). cbn in *. by rewrite Hx, Hdep, Hd.
  - destruct (place_subtree_fields
                (MkRenderNode id_ ttl dep children lines_ w h x0 y0) side d center)
      as [_ ->]. cbn [rn_depth].
    destruct children as [|c cs]; [constructor|]. cbn [_place_subtree rn_children].
    set (place := fun child ctr => _place_subtree child side (d + 1) ctr).
    match goal with |- Forall _ (place_stacked _ ?gap ?cs0 ?start) =>
      pose proof (place_stacked_each place gap cs0 start) as Heach end.
    revert Heach. generalize (place_stacked place V_GAP (c :: cs)).
    intros placed Heach.
    assert (Hgen : forall kids placed,
      Forall (fun c => rn_all one_deeper c ->
                forall side d center, Z.of_nat (rn_depth c) = d ->
                  columns_ok side (_place_subtree c side d center)) kids ->
      Forall (fun c => rn_depth c = S dep) kids ->
      Forall (rn_all one_deeper) kids ->
      Forall2 (fun c p => exists ctr, p = place c ctr) kids placed ->
      Forall (fun c => rn_depth c = S dep /\ columns_ok side c) placed).
    { clear -Hd. intros kids placed HIH Hdep Hall Heach.
      induction Heach as [|k p ks ps (ctr & ->) _ IHe]; [constructor|].
      apply Forall_cons in HIH as [Hk HIH], Hdep as [Hkd Hdep], Hall as [Hka Hall].
      constructor; [|by apply IHe]. subst place. cbn beta.
      destruct (place_subtree_fields k side (d + 1) ctr) as [_ ->].
      split; [exact Hkd|]. apply Hk; [exact Hka|]. rewrite Hkd. lia. }
    eapply Hgen; eauto.
Qed.

Lemma place_side_columns (children : list (_RenderNode R)) (side : Z) :
  Forall (rn_all one_deeper) children ->
  Forall (fun c => rn_depth c = 1) children ->
  Forall (fun p => rn_depth p = 1 /\ columns_ok side p) (place_side children side).
Proof.
  intros Hall Hdep.
  pose proof (place_side_preserved children side) as Hlen%Forall2_length.
  assert (Heach : Forall2 (fun c p => exists ctr, p = _place_subtree c side 1 ctr)
                    children (place_side children side)).
  { unfold place_side. destruct children; [constructor|]. apply place_stacked_each. }
  clear Hlen. induction Heach as [|k p ks ps (ctr & ->) _ IHe]; [constructor|].
  apply Forall_cons in Hall as [Hka Hall], Hdep as [Hkd Hdep].
  constructor; [|by apply IHe].
  destruct (place_subtree_fields k side 1 ctr) as [_ ->].
  split; [exact Hkd|]. apply place_subtree_columns; [exact Hka|]. by rewrite Hkd.
Qed.

Lemma place_root_fields (root : _RenderNode R) :
  rn_x (place_root root) = of_Z 0 /\ rn_depth (place_root root) = rn_depth root.
Proof.
  destruct root as [? ? ? [|c cs] ? ? ? ? ?]; [by cbn|]. cbn [place_root].
  by destruct (_split_top_level_children (c :: cs)).
Qed.

Lemma place_root_columns (root : _RenderNode R) :
  rn_depth root = 0 -> rn_all one_deeper root ->
  NoDup (map node_id (flat root)) ->
  Forall (fun c => rn_depth c = 1 /\ (columns_ok 1 c \/ columns_ok (-1) c))
    (rn_children (place_root root)).
Proof.
  intros Hdepth [Hdeeper Hall]%rn_all_unfold Hnd.
  unfold one_deeper in Hdeeper. rewrite Hdepth in Hdeeper.
  destruct (place_root_children root Hnd) as [Hperm Hpres]. cbv zeta in Hperm.
  destruct (rn_children root) as [|c cs] eqn:Hkids.
  - apply Forall2_length in Hpres. destruct (rn_children (place_root root)); [constructor|done].
  - rewrite Hperm by done. clear Hperm Hpres.
    pose proof (split_perm (c :: cs)) as Hsplit.
    rewrite <- Hsplit in Hdeeper, Hall.
    apply Forall_app in Hdeeper as [Hdl Hdr], Hall as [Hal Har].
    apply Forall_app. split.
    + eapply Forall_impl; [exact (place_side_columns _ (-1) Hal Hdl)|].
      cbn beta. intros p [? ?]. split; [done | by right].
    + eapply Forall_impl; [exact (place_side_columns _ 1 Har Hdr)|].
      cbn beta. intros p [? ?]. split; [done | by left].
Qed.

(** The decorated tree has the depths that the columns need. *)
Lemma decorate_depths (t : MindMapNode) (root : _RenderNode R) :
  _decorate_tree t = Ok root -> rn_depth root = 0 /\ rn_all one_deeper root.
Proof.
  unfold _decorate_tree.
  destruct (visit t 0 0) as [[r c]|] eqn:Hvisit; [|done]. intros [= <-].
  by destruct (visit_boxes t _ _ _ _ Hvisit) as (_ & _ & _ & ? & ?).
Qed.
End Columns.

(** * What the renderers write *)

Lemma html_escape_cons (c : ascii) (line : str) :
  html_escape (c :: line)
  = (if char_eqb c "&" then lit "&amp;"
     else if char_eqb c "<" then lit "&lt;"
     else if char_eqb c ">" then lit "&gt;"
     else [c]) ++ html_escape line.
Proof. reflexivity. Qed.

Lemma html_escape_well_escaped (line : str) : well_escaped (html_escape line) = true.
Proof.
  induction line as [|c line IH]; [done|]. rewrite html_escape_cons.
  generalize dependent (html_escape line). intros rest IH.
  destruct (char_eqb c "&") eqn:Hamp; [cbn; exact IH|].
  destruct (char_eqb c "<") eqn:Hlt; [cbn; exact IH|].
  destruct (char_eqb c ">") eqn:Hgt; [cbn; exact IH|].
  cbn [app well_escaped]. by rewrite Hamp, Hlt, Hgt, IH.
Qed.

Section Painting.
Context {R : Type} {num : Num R} {txt : NumText R}.

Lemma svg_node_parts (node : PositionedNode R) :
  Forall (fun part => is_svg_line part = false
                      /\ match part with
                         | SvgTspan _ _ text => well_escaped text = true
                         | _ => True
                         end) (svg_node node).
Proof.
  unfold svg_node. apply Forall_app. split; [|apply Forall_app; split].
  - unfold svg_rect. destruct (_palette (depth node)). by repeat constructor.
  - unfold svg_tspans. apply Forall_forall.
    intros part (i & line & -> & _)%elem_of_lookup_imap_1.
    split; [done | apply html_escape_well_escaped].
  - by repeat constructor.
Qed.

Lemma drawing_node_parts (layout : MindMapLayout R) (node : PositionedNode R) :
  Forall (fun s => is_line s = false) (drawing_node layout node).
Proof.
  unfold drawing_node. constructor.
  - unfold drawing_rect. by destruct (_palette (depth node)).
  - unfold drawing_labels. apply Forall_forall.
    by intros part (i & line & -> & _)%elem_of_lookup_imap_1.
Qed.

Lemma render_svg_some (markdown : str) (svg : list svg_elem) :
  render_mind_map_svg (R := R) markdown = Ok (Some svg) ->
  exists t, parse_mind_map_markdown markdown = Ok (Some t).
Proof.
  intros Hsvg. pose proof (parse_outcome markdown) as Hparse.
  destruct (snd (scan markdown)) as [|bullet bullets]; [|exact Hparse].
  unfold render_mind_map_svg in Hsvg. by rewrite Hparse in Hsvg.
Qed.

(** X14: the text of the vector graphic is escaped.  No line of text
    holds an angle bracket, and an ampersand in it opens one of the
    entities for the ampersand and the two brackets. *)
Theorem svg_text_escaped (markdown : str) (svg : list svg_elem) :
  render_mind_map_svg (R := R) markdown = Ok (Some svg) ->
  Forall (fun part => match part with
                      | SvgTspan _ _ text => well_escaped text = true
                      | _ => True
                      end) svg.
Proof.
  intros Hsvg. destruct (render_svg_some _ _ Hsvg) as [t Hparse].
  destruct (render_shape (R := R) markdown t Hparse) as (layout & ends & _ & _ & Hshape & _).
  rewrite Hshape in Hsvg.
  destruct (py_int (layout_width layout)) as [w|]; [|discriminate].
  destruct (py_int (layout_height layout)) as [h|]; [|discriminate].
  cbn [exc_bind] in Hsvg. injection Hsvg as <-.
  repeat constructor. apply Forall_app. split; [|apply Forall_app; split].
  - apply Forall_map, Forall_forall. by intros pc _.
  - apply Forall_flat_map, Forall_forall. intros node _.
    eapply Forall_impl; [apply svg_node_parts|]. by intros part [_ ?].
  - by repeat constructor.
Qed.

(** X15: the edges are painted first.  The vector graphic opens with the
    canvas of the layout, its width and its height as [int] gives them,
    and with the background; then come the lines of the edges, one for
    each, then the boxes with their text.  In the page drawing the
    lines of the edges come before everything else as well. *)
Theorem edges_painted_first (markdown : str) (t : MindMapNode) :
  parse_mind_map_markdown markdown = Ok (Some t) ->
  exists (layout : MindMapLayout R) (below above : list svg_elem)
         (drawing : Drawing R) (dbelow dabove : list (shape R)),
    _compute_layout t = Ok layout
    /\ render_mind_map_svg (R := R) markdown
       = (let* canvas_width := py_int (layout_width layout) in
          let* canvas_height := py_int (layout_height layout) in
          Ok (Some (SvgOpen canvas_width canvas_height
                      :: SvgBackground :: below ++ above ++ [SvgClose])))
    /\ length below = length (edges layout)
    /\ Forall (fun part => is_svg_line part = true) below
    /\ Forall (fun part => is_svg_line part = false) above
    /\ render_mind_map_drawing markdown None None = Ok (Some drawing)
    /\ d_contents drawing = dbelow ++ dabove
    /\ length dbelow = length (edges layout)
    /\ Forall (fun s => is_line s = true) dbelow
    /\ Forall (fun s => is_line s = false) dabove.
Proof.
  intros Hparse.
  destruct (render_shape (R := R) markdown t Hparse)
    as (layout & ends & Hlayout & Hjoins & Hsvg & Hdraw).
  apply Forall2_length in Hjoins.
  exists layout, (map svg_line_of ends), (flat_map svg_node (nodes layout)),
    (natural_drawing layout ends), (map (line_of layout) ends),
    (flat_map (drawing_node layout) (nodes layout)).
  split; [exact Hlayout|]. split; [exact Hsvg|].
  split; [by rewrite length_map|].
  split; [apply Forall_map, Forall_forall; by intros pc _|].
  split.
  { apply Forall_flat_map, Forall_forall. intros node _.
    eapply Forall_impl; [apply svg_node_parts|]. by intros part [? _]. }
  split; [by rewrite Hdraw|]. split; [reflexivity|].
  split; [by rewrite length_map|].
  split; [apply Forall_map, Forall_forall; by intros pc _|].
  apply Forall_flat_map, Forall_forall. intros node _. apply drawing_node_parts.
Qed.
End Painting.

Lemma svg_text_escaped_witness :
  exists svg : list svg_elem,
    render_mind_map_svg (R := Q) (doc ["- a <b"; "  - c & d"]%string) = Ok (Some svg)
    /\ Forall (fun part => match part with
                           | SvgTspan _ _ text => well_escaped text = true
                           | _ => True
                           end) svg.
Proof.
  eexists. split; [vm_compute; reflexivity|].
  apply (svg_text_escaped (R := Q) (doc ["- a <b"; "  - c & d"]%string)).
  vm_compute. reflexivity.
Defined.

Lemma edges_painted_first_witness :
  exists (below above : list svg_elem) (w h : Z),
    render_mind_map_svg (R := Q) (doc ["- A"; "  - B"; "  - C"]%string)
    = Ok (Some (SvgOpen w h :: SvgBackground :: below ++ above ++ [SvgClose]))
    /\ length below = 2.
Proof.
  destruct (edges_painted_first (R := Q) (doc ["- A"; "  - B"; "  - C"]%string)
              (MkMindMapNode (lit "A")
                 [MkMindMapNode (lit "B") []; MkMindMapNode (lit "C") []]))
    as (layout & below & above & drawing & dbelow & dabove & Hlayout & Hsvg & Hlen & _);
    [vm_compute; reflexivity|].
  eexists below, above, _, _.
  split; [etrans; [exact Hsvg | reflexivity]|]. rewrite Hlen.
  vm_compute in Hlayout. injection Hlayout as <-. reflexivity.
Defined.

Local Open Scope Q_scope.

(** * The boxes and their text *)

Lemma longest_le (k : nat) (wrapped : list str) :
  Forall (fun line => (length line <= k)%nat) wrapped -> (longest wrapped <= k)%nat.
Proof.
  unfold longest.
  assert (H : forall acc, (acc <= k)%nat ->
            Forall (fun line : str => (length line <= k)%nat) wrapped ->
            (fold_left (fun m line => Nat.max m (length line)) wrapped acc <= k)%nat).
  { induction wrapped as [|l ls IH]; intros acc Hacc Hall; [exact Hacc|].
    apply Forall_cons in Hall as [Hl Hall]. cbn [fold_left]. apply IH; [lia | exact Hall]. }
  apply H. lia.
Qed.

Lemma decorated_lines (b : PositionedNode Q) :
  decorated_box b ->
  (1 <= length (lines b) <= 6)%nat
  /\ Forall (fun line => (length line <= 24)%nat) (lines b).
Proof.
  intros (Hwrap & _ & _).
  destruct (wrap_width_bounds (depth b)) as [[Hlo Hhi] _].
  destruct (wrap_text_cases (title b) (wrap_width (depth b)))
    as (full & Hret & _ & _ & _ & Hlen & Hcount); [lia|].
  rewrite Hret in Hwrap. injection Hwrap as <-. split; [exact Hcount|].
  apply Forall_take. eapply Forall_impl; [exact Hlen|]. cbn beta.
  unfold len. intros; lia.
Qed.

(** The size of a box that holds [n] lines, the longest of [l]
    characters. *)
Lemma decorated_size (wrapped : list str) :
  (1 <= length wrapped <= 6)%nat ->
  (longest wrapped <= 24)%nat ->
  135 <= node_width (R := Q) wrapped <= 956 # 5
  /\ (34 # 5) * inject_Z (Z.of_nat (longest wrapped)) + 28 <= node_width (R := Q) wrapped
  /\ 40 <= node_height (R := Q) wrapped <= 110
  /\ 14 + 16 * inject_Z (Z.of_nat (length wrapped)) <= node_height (R := Q) wrapped.
Proof.
  intros Hcount Hlong. unfold node_width, node_height.
  assert (Hl : 0 <= inject_Z (Z.of_nat (longest wrapped)) <= 24).
  { split; [apply inject_nat_nonneg|]. change 24 with (inject_Z 24). rewrite <- Zle_Qle. lia. }
  assert (Hn : 1 <= inject_Z (Z.of_nat (length wrapped)) <= 6).
  { split; [change 1 with (inject_Z 1) | change 6 with (inject_Z 6)];
      rewrite <- Zle_Qle; lia. }
  qconst. revert Hl Hn.
  generalize (inject_Z (Z.of_nat (longest wrapped))) (inject_Z (Z.of_nat (length wrapped))).
  intros l n Hl Hn.
  destruct (py_min_spec 360 (l * (68 / 10) + 28)) as (Hm1 & Hm2 & Hm3).
  destruct (py_max_spec 135 (py_min 360 (l * (68 / 10) + 28))) as (HM1 & HM2 & HM3).
  destruct (py_max_spec 40 (14 + n * 16)) as (Hh1 & Hh2 & Hh3).
  revert Hm1 Hm2 Hm3 HM1 HM2 HM3 Hh1 Hh2 Hh3.
  generalize (py_min 360 (l * (68 / 10) + 28)). intros m.
  generalize (py_max 135 m) (py_max 40 (14 + n * 16)). intros W H.
  intros Hm1 Hm2 Hm3 HM1 HM2 HM3 Hh1 Hh2 Hh3.
  assert (Hm : m == l * (68 / 10) + 28).
  { destruct Hm3 as [->| ->]; [|reflexivity]. qlra. }
  assert (HW : W == 135 \/ W == m) by (destruct HM3 as [->| ->]; [by left | by right]).
  assert (HH : H == 40 \/ H == 14 + n * 16) by (destruct Hh3 as [->| ->]; [by left | by right]).
  destruct HW as [HW|HW], HH as [HH|HH]; rewrite HW, HH; repeat split; qlra.
Qed.

(** X16: every box holds its text.  A box has between one and six lines of
    at most 24 characters; its width is at least the 6.8 units per
    character of its longest line plus 28, between 135 and 191.2 (the
    cap of 360 is never reached); its height is at least the 16 units
    per line plus 14, between 40 and 110. *)
Theorem layout_boxes_fit (t : MindMapNode) :
  exists layout : MindMapLayout Q,
    _compute_layout t = Ok layout
    /\ Forall (fun b =>
          (1 <= length (lines b) <= 6)%nat
          /\ Forall (fun line => (length line <= 24)%nat) (lines b)
          /\ 135 <= width b <= 956 # 5
          /\ (34 # 5) * inject_Z (Z.of_nat (longest (lines b))) + 28 <= width b
          /\ 40 <= height b <= 110
          /\ 14 + 16 * inject_Z (Z.of_nat (length (lines b))) <= height b)
         (nodes layout).
Proof.
  destruct (layout_decorated (R := Q) t) as (layout & Hlayout & Hboxes).
  exists layout. split; [exact Hlayout|].
  eapply Forall_impl; [exact Hboxes|]. cbn beta. intros b Hb.
  destruct (decorated_lines b Hb) as [Hcount Hlen].
  destruct Hb as (_ & -> & ->).
  split; [exact Hcount|]. split; [exact Hlen|].
  apply decorated_size; [exact Hcount | by apply longest_le].
Qed.

(** * Columns and edges *)

(** The layout, with the placed tree it is read from. *)
Lemma layout_placed (t : MindMapNode) :
  exists (root : _RenderNode Q) (shift_x shift_y canvas_width canvas_height : Q),
    _decorate_tree t = Ok root
    /\ NoDup (map node_id (flat root))
    /\ map node_id (flat (place_root root)) = seq 0 (mm_size t)
    /\ rn_all well_sized root
    /\ _compute_layout t
       = Ok (MkMindMapLayout canvas_width canvas_height
               (map (shift_node shift_x shift_y) (flat (place_root root)))
               (flat_edges (place_root root))).
Proof.
  destruct (compute_layout_ok (R := Q) t)
    as (root & min_x & max_x & min_y & max_y & Hdec & Hids & Hsized & _ & _ & _ & _ & _ & _
        & Hlayout).
  assert (Hnd : NoDup (map node_id (flat root))) by (rewrite Hids; apply NoDup_seq).
  destruct (place_root_preserved root Hnd) as (_ & Hinfo & _).
  exists root. eexists _, _, _, _. split; [exact Hdec|]. split; [exact Hnd|].
  split; [|split; [exact Hsized | exact Hlayout]].
  rewrite <- Hids. by apply info_ids.
Qed.

Lemma in_column_right (b : PositionedNode Q) :
  in_column 1 b -> x b == 420 * inject_Z (Z.of_nat (depth b)).
Proof.
  unfold in_column. intros ->. rewrite Z.mul_1_l. qconst. qlra.
Qed.

Lemma in_column_left (b : PositionedNode Q) :
  in_column (-1) b -> x b == - (420 * inject_Z (Z.of_nat (depth b))).
Proof.
  unfold in_column. intros ->.
  replace (-1 * Z.of_nat (depth b))%Z with (- Z.of_nat (depth b))%Z by lia.
  rewrite inject_Z_opp. qconst. qlra.
Qed.

Lemma shift_node_fields (sx sy : Q) (b : PositionedNode Q) :
  x (shift_node sx sy b) = x b + sx /\ depth (shift_node sx sy b) = depth b.
Proof. done. Qed.

(** X17: the boxes stand in columns.  The first box of the layout is the
    root; a box at depth d is centered 420 d to the right or to the left
    of the center of the root. *)
Theorem layout_columns (t : MindMapNode) :
  exists (layout : MindMapLayout Q) (first : PositionedNode Q),
    _compute_layout t = Ok layout
    /\ head (nodes layout) = Some first
    /\ depth first = 0%nat
    /\ Forall (fun b =>
          x b - x first == 420 * inject_Z (Z.of_nat (depth b))
          \/ x first - x b == 420 * inject_Z (Z.of_nat (depth b)))
         (nodes layout).
Proof.
  destruct (layout_placed t)
    as (root & sx & sy & cw & ch & Hdec & Hnd & _ & _ & Hlayout).
  destruct (decorate_depths t root Hdec) as [Hdepth Hdeeper].
  pose proof (place_root_columns root Hdepth Hdeeper Hnd) as Hcols.
  destruct (place_root_fields root) as [Hx Hd]. rewrite Hdepth in Hd.
  eexists _, _. split; [exact Hlayout|]. cbn [nodes].
  rewrite (flat_unfold (place_root root)). cbn [map head].
  split; [reflexivity|].
  assert (Hfirst : x (positioned (place_root root)) = 0
                   /\ depth (positioned (place_root root)) = 0%nat).
  { destruct (place_root root). cbn in *. by subst. }
  destruct Hfirst as [Hx0 Hd0].
  destruct (shift_node_fields sx sy (positioned (place_root root))) as [Hsx Hsd].
  split; [by rewrite Hsd|].
  constructor.
  - left. rewrite Hsd, Hd0. change (inject_Z (Z.of_nat 0)) with 0.
    generalize (x (shift_node sx sy (positioned (place_root root)))). intros; lra.
  - rewrite Hsx, Hx0. apply Forall_map, Forall_flat_map.
    eapply Forall_impl; [exact Hcols|]. cbn beta. intros c [_ [[Hc _]|[Hc _]]].
    + eapply Forall_impl; [exact Hc|]. cbn beta. intros b Hb%in_column_right.
      left. destruct (shift_node_fields sx sy b) as [-> ->]. rewrite Hb. qlra.
    + eapply Forall_impl; [exact Hc|]. cbn beta. intros b Hb%in_column_left.
      right. destruct (shift_node_fields sx sy b) as [-> ->]. rewrite Hb. qlra.
Qed.

Lemma edge_run (side : Z) (pc : PositionedNode Q * PositionedNode Q) :
  side = 1%Z \/ side = (-1)%Z ->
  depth pc.2 = S (depth pc.1) -> in_column side pc.1 -> in_column side pc.2 ->
  x pc.2 - x pc.1 == 420 \/ x pc.1 - x pc.2 == 420.
Proof.
  intros [->| ->] Hd H1 H2.
  - apply in_column_right in H1, H2. left. rewrite H1, H2, Hd, inject_nat_succ. qlra.
  - apply in_column_left in H1, H2. right. rewrite H1, H2, Hd, inject_nat_succ. qlra.
Qed.

Lemma place_root_edges (root : _RenderNode Q) :
  rn_depth root = 0%nat -> rn_all one_deeper root ->
  NoDup (map node_id (flat root)) ->
  Forall (fun pc => x pc.2 - x pc.1 == 420 \/ x pc.1 - x pc.2 == 420)
    (edge_boxes (place_root root)).
Proof.
  intros Hdepth Hdeeper Hnd.
  pose proof (place_root_columns root Hdepth Hdeeper Hnd) as Hcols.
  destruct (place_root_fields root) as [Hx Hd]. rewrite Hdepth in Hd.
  rewrite edge_boxes_unfold. apply Forall_flat_map.
  eapply Forall_impl; [exact Hcols|]. cbn beta. intros c [Hc1 Hc].
  assert (Hroot : x (positioned (place_root root)) = 0) by (by destruct (place_root root)).
  assert (Hchild : depth (positioned c) = 1%nat) by (by destruct c).
  constructor.
  - cbn [fst snd]. rewrite Hroot.
    destruct Hc as [[Hc _]|[Hc _]]; rewrite flat_unfold in Hc;
      apply Forall_cons in Hc as [Hc _].
    + apply in_column_right in Hc. left. rewrite Hc, Hchild.
      change (inject_Z (Z.of_nat 1)) with 1. lra.
    + apply in_column_left in Hc. right. rewrite Hc, Hchild.
      change (inject_Z (Z.of_nat 1)) with 1. lra.
  - destruct Hc as [[_ Hc]|[_ Hc]]; (eapply Forall_impl; [exact Hc|]);
      cbn beta; intros pc (Hdp & H1 & H2).
    + by apply (edge_run 1); [left|..].
    + by apply (edge_run (-1)); [right|..].
Qed.

(** X18: every edge spans one column.  The centers of the two boxes an
    edge joins are 420 apart in x. *)
Theorem layout_edges_one_column (t : MindMapNode) :
  exists layout : MindMapLayout Q,
    _compute_layout t = Ok layout
    /\ forall e a b,
         e ∈ edges layout ->
         nodes layout !! e.1 = Some a -> nodes layout !! e.2 = Some b ->
         x b - x a == 420 \/ x a - x b == 420.
Proof.
  destruct (layout_placed t)
    as (root & sx & sy & cw & ch & Hdec & Hnd & Hids & _ & Hlayout).
  destruct (decorate_depths t root Hdec) as [Hdepth Hdeeper].
  pose proof (place_root_edges root Hdepth Hdeeper Hnd) as Hrun.
  pose proof (edge_boxes_in (place_root root)) as Hin.
  eexists. split; [exact Hlayout|]. cbn [nodes edges]. intros e a b He Ha Hb.
  rewrite <- edge_boxes_ids in He.
  apply list_elem_of_fmap in He as (pc & -> & Hpc). cbn [fst snd] in Ha, Hb.
  rewrite Forall_forall in Hrun, Hin.
  specialize (Hrun _ Hpc). destruct (Hin _ Hpc) as [H1 H2].
  rewrite list_lookup_fmap in Ha, Hb.
  rewrite (lookup_by_id _ _ _ Hids H1) in Ha. rewrite (lookup_by_id _ _ _ Hids H2) in Hb.
  cbn in Ha, Hb. injection Ha as <-. injection Hb as <-.
  destruct (shift_node_fields sx sy pc.1) as [-> _].
  destruct (shift_node_fields sx sy pc.2) as [-> _].
  destruct Hrun as [Hrun|Hrun]; [left | right]; qlra.
Qed.

(** * Labels *)

Lemma labels_in_rect (layout : MindMapLayout Q) (node : PositionedNode Q) :
  135 <= width node ->
  14 + 16 * inject_Z (Z.of_nat (length (lines node))) <= height node ->
  Forall (fun s => label_in_rect s (drawing_rect layout node)) (drawing_labels layout node).
Proof.
  intros Hw Hh. apply Forall_forall. intros s Hs.
  unfold drawing_labels in Hs. apply elem_of_lookup_imap_1 in Hs as (i & text & -> & Hi).
  apply lookup_lt_Some in Hi.
  unfold drawing_rect. destruct (_palette (depth node)) as [fill stroke].
  unfold label_in_rect, base_y.
  assert (Hidx : 0 <= inject_Z (Z.of_nat i)
                 /\ inject_Z (Z.of_nat i) + 1 <= inject_Z (Z.of_nat (length (lines node)))).
  { split; [apply inject_nat_nonneg|]. rewrite <- inject_nat_succ, <- Zle_Qle. lia. }
  qconst. unfold Z.sub. rewrite inject_Z_plus.
  change (inject_Z (- (1))) with (- (1)).
  revert Hh Hidx.
  generalize (inject_Z (Z.of_nat (length (lines node)))) (inject_Z (Z.of_nat i)).
  intros n k Hh Hidx.
  generalize dependent (width node). generalize dependent (height node).
  generalize (x node) (y node) (layout_height layout). intros. qdiv. repeat split; lra.
Qed.

(** X19: in the page drawing every label lies in a box.  The anchor of
    each line of text is strictly inside a rectangle of the drawing,
    whatever the bounds the drawing was scaled to. *)
Theorem drawing_labels_in_boxes (markdown : str) (max_width max_height : option Q)
    (drawing : Drawing Q) :
  render_mind_map_drawing markdown max_width max_height = Ok (Some drawing) ->
  Forall (fun s => is_label s = true -> Exists (label_in_rect s) (d_contents drawing))
    (d_contents drawing).
Proof.
  intros Hdraw.
  pose proof (parse_outcome markdown) as Hparse.
  destruct (snd (scan markdown)) as [|bullet bullets].
  { unfold render_mind_map_drawing in Hdraw. by rewrite Hparse in Hdraw. }
  destruct Hparse as [t Hparse].
  destruct (render_shape (R := Q) markdown t Hparse) as (layout & ends & Hlayout & _ & _ & Hshape).
  rewrite Hshape in Hdraw.
  destruct (downscale (natural_drawing layout ends) max_width max_height)
    as [scaled|] eqn:Hscaled; [|done].
  injection Hdraw as ->. rewrite (downscale_contents _ _ _ _ Hscaled).
  destruct (layout_decorated (R := Q) t) as (layout' & Hlayout' & Hboxes).
  assert (layout' = layout) as -> by congruence.
  cbn [natural_drawing d_contents]. apply Forall_app. split.
  - apply Forall_map, Forall_forall. by intros pc _.
  - apply Forall_flat_map, Forall_forall. intros node Hnode.
    rewrite Forall_forall in Hboxes. pose proof (Hboxes _ Hnode) as Hb.
    destruct (decorated_lines node Hb) as [Hcount Hlen].
    destruct Hb as (_ & Hw & Hh).
    destruct (decorated_size (lines node) Hcount (longest_le _ _ Hlen))
      as ([Hw1 _] & _ & _ & Hh1).
    rewrite <- Hw in Hw1. rewrite <- Hh in Hh1.
    unfold drawing_node. constructor.
    + unfold drawing_rect. by destruct (_palette (depth node)).
    + eapply Forall_impl; [exact (labels_in_rect layout node Hw1 Hh1)|].
      cbn beta. intros s Hs _. apply Exists_exists.
      exists (drawing_rect layout node). split; [|exact Hs].
      apply elem_of_app. right. apply list_elem_of_In, in_flat_map.
      exists node. split; [by apply list_elem_of_In|]. unfold drawing_node. by left.
Qed.

Lemma drawing_labels_in_boxes_witness :
  exists drawing : Drawing Q,
    render_mind_map_drawing (doc ["- A"; "  - B"; "  - C"]%string) (Some 500) None
    = Ok (Some drawing)
    /\ Forall (fun s => is_label s = true -> Exists (label_in_rect s) (d_contents drawing))
         (d_contents drawing).
Proof.
  destruct (render_drawing_ok (doc ["- A"; "  - B"; "  - C"]%string)
              (MkMindMapNode (lit "A")
                 [MkMindMapNode (lit "B") []; MkMindMapNode (lit "C") []])
              (Some 500) None) as [drawing Hdraw]; [vm_compute; reflexivity|].
  exists drawing. split; [exact Hdraw|].
  exact (drawing_labels_in_boxes _ _ _ _ Hdraw).
Defined.

(** * The balance of the two groups *)

Lemma greedy_split_balance (children left_ right_ : list (_RenderNode Q)) :
  Forall (fun c => 0 < _subtree_height c) children ->
  greedy_split children left_ right_ ->
  children <> [] ->
  exists c, c ∈ children
    /\ sum_heights left_ - sum_heights right_ <= _subtree_height c
    /\ sum_heights right_ - sum_heights left_ <= _subtree_height c.
Proof.
  intros Hpos Hg. induction Hg as [|children left_ right_ child Hg IH Hle
                                   |children left_ right_ child Hg IH Hle]; [done| |];
    intros _; apply Forall_app in Hpos as [Hpos Hchild];
    apply Forall_cons in Hchild as [Hchild _];
    rewrite sum_heights_snoc; qnum.
  - apply Qle_bool_iff in Hle.
    destruct children as [|c0 cs].
    + apply greedy_split_nil_inv in Hg as [-> ->].
      exists child. split; [by left|]. change (sum_heights (R := Q) []) with 0. lra.
    + destruct (IH Hpos ltac:(done)) as (c & Hc & H1 & H2).
      destruct (Qlt_le_dec (_subtree_height c) (_subtree_height child)).
      * exists child. split; [apply elem_of_app; right; by left|]. lra.
      * exists c. split; [apply elem_of_app; by left|]. lra.
  - assert (Hlt : sum_heights right_ < sum_heights left_).
    { pose proof (Qltb_spec (sum_heights right_) (sum_heights left_)) as Hs.
      unfold Qltb in Hs. qnum. rewrite Hle in Hs. exact Hs. }
    destruct children as [|c0 cs].
    + apply greedy_split_nil_inv in Hg as [-> ->]. by apply Qlt_irrefl in Hlt.
    + destruct (IH Hpos ltac:(done)) as (c & Hc & H1 & H2).
      destruct (Qlt_le_dec (_subtree_height c) (_subtree_height child)).
      * exists child. split; [apply elem_of_app; right; by left|]. lra.
      * exists c. split; [apply elem_of_app; by left|]. lra.
Qed.

(** X20: the two groups are balanced.  For the children of a decorated
    root, the accumulated subtree heights of the two groups differ by no
    more than the subtree height of one of the children. *)
Theorem split_balances_heights (t : MindMapNode) (root : _RenderNode Q) :
  _decorate_tree t = Ok root ->
  rn_children root <> [] ->
  exists c, c ∈ rn_children root
    /\ sum_heights (_split_top_level_children (rn_children root)).1
       - sum_heights (_split_top_level_children (rn_children root)).2
       <= _subtree_height c
    /\ sum_heights (_split_top_level_children (rn_children root)).2
       - sum_heights (_split_top_level_children (rn_children root)).1
       <= _subtree_height c.
Proof.
  intros Hdec Hne.
  destruct (decorate_spec (R := Q) t) as (root' & Hdec' & _ & Hsized & _).
  assert (root' = root) as -> by congruence.
  pose proof (decorated_heights _ Hsized) as Hpos.
  destruct (rn_children root) as [|c1 [|c2 cs]] eqn:Hkids; [done| |].
  - rewrite split_single. cbn [fst snd]. exists c1. split; [by left|].
    apply Forall_cons in Hpos as [Hpos _].
    change (sum_heights (R := Q) []) with 0.
    unfold sum_heights. cbn [map]. rewrite py_sum_cons, py_sum_nil. lra.
  - destruct (split_greedy (c1 :: c2 :: cs)) as (left_ & right_ & Hg & ->).
    destruct (greedy_split_sides _ _ _ Hpos Hg) as [Hl Hr].
    specialize (Hl ltac:(done)). specialize (Hr ltac:(cbn; lia)).
    assert (Hrepair : repair_empty (left_, right_) = (left_, right_)).
    { unfold repair_empty. destruct left_; [done|]. by destruct right_. }
    rewrite Hrepair. cbn [fst snd]. by apply greedy_split_balance.
Qed.

Lemma split_balances_heights_witness :
  exists root c : _RenderNode Q,
    _decorate_tree (MkMindMapNode (lit "A")
                      [MkMindMapNode (lit "B") []; MkMindMapNode (lit "C") []]) = Ok root
    /\ c ∈ rn_children root
    /\ sum_heights (_split_top_level_children (rn_children root)).1
       - sum_heights (_split_top_level_children (rn_children root)).2
       <= _subtree_height c.
Proof.
  let r := eval vm_compute in
    (_decorate_tree (R := Q)
       (MkMindMapNode (lit "A")
          [MkMindMapNode (lit "B") []; MkMindMapNode (lit "C") []])) in
  match r with
  | Ok ?root =>
      destruct (split_balances_heights
                  (MkMindMapNode (lit "A")
                     [MkMindMapNode (lit "B") []; MkMindMapNode (lit "C") []]) root)
        as (c & Hc & H1 & _); [vm_compute; reflexivity | done |];
      exists root, c; (split; [vm_compute; reflexivity|]); split; assumption
  end.
Defined.

(** * Siblings stand in document order *)

(** ** Identifiers that grow along a list *)

Lemma ascending_app (l1 l2 : list nat) :
  ascending (l1 ++ l2)
  <-> ascending l1 /\ ascending l2 /\ forall a b, a ∈ l1 -> b ∈ l2 -> (a < b)%nat.
Proof.
  induction l1 as [|c l1 IH]; cbn [app ascending].
  - split; [intros H; repeat split; [exact H | by intros a b Ha%elem_of_nil]|].
    by intros (_ & H & _).
  - rewrite IH, Forall_app. split.
    + intros ((Hc1 & Hc2) & H1 & H2 & Hx). repeat split; try assumption.
      intros a b Ha Hb. apply elem_of_cons in Ha as [->|Ha]; [|by apply Hx].
      rewrite Forall_forall in Hc2. by apply Hc2.
    + intros ((Hc1 & H1) & H2 & Hx). repeat split; try assumption.
      * apply Forall_forall. intros b Hb. apply Hx; [by left | exact Hb].
      * intros a b Ha Hb. apply Hx; [by right | exact Hb].
Qed.

Lemma ascending_seq (start len : nat) : ascending (seq start len).
Proof.
  revert start. induction len as [|len IH]; intros start; cbn [seq ascending]; [done|].
  split; [|apply IH]. apply Forall_forall. intros b Hb%list_elem_of_In%in_seq. lia.
Qed.

Lemma ascending_sublist (l1 l2 : list nat) :
  l1 `sublist_of` l2 -> ascending l2 -> ascending l1.
Proof.
  induction 1 as [|c l1 l2 Hsub IH|c l1 l2 Hsub IH]; cbn [ascending]; [done| |].
  - intros [Hc H2]. split; [|by apply IH].
    apply Forall_forall. intros b Hb. rewrite Forall_forall in Hc. apply Hc.
    by eapply elem_of_sublist.
  - intros [_ H2]. by apply IH.
Qed.

Lemma ascending_lookup (l : list nat) (i j a b : nat) :
  ascending l -> l !! i = Some a -> l !! j = Some b -> (i < j)%nat -> (a < b)%nat.
Proof.
  revert i j. induction l as [|c l IH]; intros i j Hl Hi Hj Hij.
  - by rewrite lookup_nil in Hi.
  - destruct Hl as [Hc Hl]. destruct j as [|j]; [lia|]. cbn in Hj.
    destruct i as [|i]; cbn in Hi.
    + injection Hi as <-. rewrite Forall_forall in Hc. apply Hc.
      by eapply list_elem_of_lookup_2.
    + apply (IH i j); [done..|lia].
Qed.

(** In a list of growing numbers the smaller number comes first. *)
Lemma ascending_before (l : list nat) (i j a b : nat) :
  ascending l -> l !! i = Some a -> l !! j = Some b -> (a < b)%nat -> (i < j)%nat.
Proof.
  intros Hl Hi Hj Hab.
  destruct (Nat.lt_trichotomy i j) as [Hlt|[->|Hgt]]; [exact Hlt| |].
  - rewrite Hi in Hj. injection Hj as ->. lia.
  - pose proof (ascending_lookup l j i b a Hl Hj Hi Hgt). lia.
Qed.

(** The identifiers of the children of a decorated node grow, and so do
    those of each of their subtrees. *)
Lemma ascending_children (cs : list (_RenderNode Q)) :
  ascending (map node_id (flat_map flat cs)) ->
  ascending (map rn_id cs) /\ Forall (fun c => ascending (map node_id (flat c))) cs.
Proof.
  induction cs as [|c cs IH]; [by split; [|constructor]|].
  cbn [flat_map map]. rewrite map_app. intros (Hc & Hcs & Hx)%ascending_app.
  destruct (IH Hcs) as [Hids Hall]. split; [|by constructor].
  cbn [ascending]. split; [|exact Hids].
  apply Forall_forall. intros b Hb. apply Hx.
  - rewrite flat_unfold_id. by left.
  - apply list_elem_of_fmap in Hb as (c' & -> & Hc'). by apply child_ids_in.
Qed.

(** ** Stacked bands *)

Lemma box_in_band (lo hi : Q) (p : _RenderNode Q) :
  Forall (within lo hi) (flat p) ->
  lo - 2 <= box_top (positioned p) /\ box_bottom (positioned p) <= hi + 2.
Proof. rewrite flat_unfold. by intros [H _]%Forall_cons. Qed.

Section Order.
Variable place : _RenderNode Q -> Q -> _RenderNode Q.
Variables (gap : Q) (side depth : Z).
Hypothesis gap_ge : 26 <= gap.

(** Siblings placed in stacked bands: each box stands 22 or more above
    the boxes of the siblings that come after it. *)
Lemma stacked_order (children : list (_RenderNode Q)) :
  forall start : Q,
    Forall (fun n => 40 <= _subtree_height n
              /\ forall center, placed_ok side depth center n (place n center)) children ->
    let ps := place_stacked place gap children start in
    Forall (fun p => start - 2 <= box_top (positioned p)) ps
    /\ forall i j a b, ps !! i = Some a -> ps !! j = Some b -> (i < j)%nat ->
         box_bottom (positioned a) + 22 <= box_top (positioned b).
Proof.
  induction children as [|c rest IH]; intros start Hall ps.
  - subst ps. cbn [place_stacked]. split; [constructor|].
    intros i j a b Hi. by rewrite lookup_nil in Hi.
  - apply Forall_cons in Hall as [[Hc Hplace] Hall].
    specialize (Hplace (start + _subtree_height c / 2)).
    destruct (box_in_band _ _ _ (ok_band _ _ _ _ _ Hplace)) as [Htop Hbottom].
    destruct (IH (start + (_subtree_height c + gap)) Hall) as [Hlow Hordered].
    set (ps' := place_stacked place gap rest (start + (_subtree_height c + gap))) in *.
    set (p := place c (start + _subtree_height c / 2)) in *.
    subst ps. change (place_stacked place gap (c :: rest) start) with (p :: ps').
    split.
    + constructor; [qlra|]. eapply Forall_impl; [exact Hlow|]. cbn beta. intros q Hq. qlra.
    + intros i j a b Hi Hj Hij. destruct j as [|j]; [lia|]. cbn in Hj.
      destruct i as [|i]; cbn in Hi.
      * injection Hi as <-. rewrite Forall_forall in Hlow.
        pose proof (Hlow b (list_elem_of_lookup_2 _ _ _ Hj)) as Hb. cbn beta in Hb. qlra.
      * apply (Hordered i j); [done..|lia].
Qed.

Hypothesis place_id : forall n center, rn_id (place n center) = rn_id n.

Lemma place_stacked_ids (children : list (_RenderNode Q)) (start : Q) :
  map rn_id (place_stacked place gap children start) = map rn_id children.
Proof.
  revert start. induction children as [|c rest IH]; intros start; [done|].
  cbn [place_stacked map]. by rewrite place_id, IH.
Qed.

(** So a box with a smaller identifier stands above. *)
Lemma stacked_in_order (children : list (_RenderNode Q)) (start : Q) :
  ascending (map rn_id children) ->
  Forall (fun n => 40 <= _subtree_height n
            /\ forall center, placed_ok side depth center n (place n center)) children ->
  in_order (map positioned (place_stacked place gap children start)).
Proof.
  intros Hids Hall a b Ha Hb Hlt _.
  destruct (stacked_order children start Hall) as [_ Hordered]. cbv zeta in Hordered.
  apply list_elem_of_fmap in Ha as (pa & -> & Ha). apply list_elem_of_fmap in Hb as (pb & -> & Hb).
  apply list_elem_of_lookup in Ha as [i Hi]. apply list_elem_of_lookup in Hb as [j Hj].
  apply (Hordered i j); [done..|].
  rewrite !positioned_id in Hlt. rewrite <- (place_stacked_ids children start) in Hids.
  apply (ascending_before _ i j (rn_id pa) (rn_id pb) Hids); [| |exact Hlt];
    by rewrite list_lookup_fmap; (rewrite Hi || rewrite Hj).
Qed.
End Order.

(** ** The placed tree *)

Lemma subnodes_unfold (node : _RenderNode Q) :
  subnodes node = node :: flat_map subnodes (rn_children node).
Proof. by destruct node. Qed.

Lemma children_placed (cs : list (_RenderNode Q)) (side depth : Z) :
  side = 1%Z \/ side = (-1)%Z ->
  Forall (rn_all well_sized) cs ->
  Forall (fun n => 40 <= _subtree_height n /\
            forall center, placed_ok side depth center n (_place_subtree n side depth center))
    cs.
Proof.
  intros Hside Hall. eapply Forall_impl; [exact Hall|]. intros child Hchild. split.
  - pose proof Hchild as Hc. apply rn_all_unfold in Hc as [Hc _].
    pose proof (well_sized_height _ Hc). pose proof (subtree_height_ge child). lra.
  - intros center. by apply place_subtree_ok.
Qed.

Lemma place_subtree_id (n : _RenderNode Q) (side depth : Z) (center : Q) :
  rn_id (_place_subtree n side depth center) = rn_id n.
Proof. exact (proj1 (place_subtree_preserved n side depth center)). Qed.

Lemma in_order_nil : in_order [].
Proof. by intros a b Ha%elem_of_nil. Qed.

(** Below a placed node the children of every node are in order. *)
Lemma place_subtree_siblings (n : _RenderNode Q) :
  rn_all well_sized n -> ascending (map node_id (flat n)) ->
  forall (side depth : Z) (center : Q),
    side = 1%Z \/ side = (-1)%Z ->
    siblings_in_order (_place_subtree n side depth center).
Proof.
  induction n as [id_ ttl d children lines_ w_ h_ x0 y0 IH] using RenderNode_induction.
  intros Hsized Hasc side depth center Hside.
  apply rn_all_unfold in Hsized as [_ Hkids]. cbn [rn_children] in Hkids.
  rewrite flat_unfold_id in Hasc. cbn [rn_children ascending] in Hasc.
  destruct Hasc as [_ Hasc]. apply ascending_children in Hasc as [Hids Hsub].
  destruct children as [|c cs].
  - cbn [_place_subtree]. unfold siblings_in_order. cbn [subnodes flat_map rn_children map].
    constructor; [apply in_order_nil | constructor].
  - rewrite place_subtree_eq. cbv zeta.
    set (start := center - stack_height 26 (c :: cs) / 2).
    set (placed := place_stacked _ 26 (c :: cs) start).
    unfold siblings_in_order. rewrite subnodes_unfold. cbn [rn_children]. constructor.
    + apply (stacked_in_order _ 26 side (depth + 1)); [lra | | exact Hids |].
      * intros child ctr. apply place_subtree_id.
      * by apply children_placed.
    + apply Forall_flat_map, Forall_forall. intros p Hp.
      pose proof (place_stacked_each
                    (fun child ctr => _place_subtree child side (depth + 1) ctr)
                    26 (c :: cs) start) as Heach.
      fold placed in Heach. apply list_elem_of_lookup in Hp as [i Hi].
      eapply Forall2_lookup_r in Heach as (child & Hchild & ctr & ->); [|exact Hi].
      apply list_elem_of_lookup_2 in Hchild.
      rewrite Forall_forall in IH, Hkids, Hsub. apply IH; auto.
Qed.

(** One side of the root. *)
Lemma place_side_siblings (children : list (_RenderNode Q)) (side : Z) :
  side = 1%Z \/ side = (-1)%Z ->
  Forall (rn_all well_sized) children ->
  ascending (map rn_id children) ->
  Forall (fun c => ascending (map node_id (flat c))) children ->
  in_order (map positioned (place_side children side))
  /\ Forall siblings_in_order (place_side children side)
  /\ Forall (fun p => rn_x p == inject_Z side * 420) (place_side children side).
Proof.
  intros Hside Hsized Hids Hsub. destruct children as [|c cs].
  { split; [apply in_order_nil | split; constructor]. }
  change (place_side (c :: cs) side)
    with (place_stacked (fun child ctr => _place_subtree child side 1 ctr) 48 (c :: cs)
            (- stack_height 48 (c :: cs) / 2)).
  set (start := - stack_height 48 (c :: cs) / 2).
  pose proof (place_stacked_each (fun child ctr => _place_subtree child side 1 ctr)
                48 (c :: cs) start) as Heach.
  split; [|split].
  - apply (stacked_in_order _ 48 side 1); [lra | | exact Hids |].
    + intros child ctr. apply place_subtree_id.
    + by apply children_placed.
  - apply Forall_forall. intros p Hp. apply list_elem_of_lookup in Hp as [i Hi].
    eapply Forall2_lookup_r in Heach as (child & Hchild & ctr & ->); [|exact Hi].
    apply list_elem_of_lookup_2 in Hchild.
    rewrite Forall_forall in Hsized, Hsub. apply place_subtree_siblings; auto.
  - apply Forall_forall. intros p Hp. apply list_elem_of_lookup in Hp as [i Hi].
    eapply Forall2_lookup_r in Heach as (child & Hchild & ctr & ->); [|exact Hi].
    destruct (place_subtree_fields child side 1 ctr) as [-> _].
    rewrite Z.mul_1_r. qconst. reflexivity.
Qed.

Lemma split_sublists (children : list (_RenderNode Q)) :
  (_split_top_level_children children).1 `sublist_of` children
  /\ (_split_top_level_children children).2 `sublist_of` children.
Proof.
  destruct (split_greedy children) as (left_ & right_ & Hg & ->).
  destruct (greedy_split_sublist _ _ _ Hg) as [Hl Hr].
  by apply repair_empty_sublist.
Qed.

(** What a group of the children of the root inherits from them. *)
Lemma group_inherits (group children : list (_RenderNode Q)) :
  group `sublist_of` children ->
  Forall (rn_all well_sized) children ->
  ascending (map rn_id children) ->
  Forall (fun c => ascending (map node_id (flat c))) children ->
  Forall (rn_all well_sized) group
  /\ ascending (map rn_id group)
  /\ Forall (fun c => ascending (map node_id (flat c))) group.
Proof.
  intros Hsub Hsized Hids Hasc. rewrite Forall_forall in Hsized, Hasc. split; [|split].
  - apply Forall_forall. intros c Hc. apply Hsized. by eapply elem_of_sublist.
  - eapply ascending_sublist; [|exact Hids]. by apply fmap_sublist.
  - apply Forall_forall. intros c Hc. apply Hasc. by eapply elem_of_sublist.
Qed.

(** The whole tree, as [_compute_layout] places it. *)
Lemma place_root_siblings (root : _RenderNode Q) :
  rn_all well_sized root ->
  ascending (map node_id (flat root)) ->
  NoDup (map node_id (flat root)) ->
  siblings_in_order (place_root root).
Proof.
  intros Hsized Hasc Hnd.
  destruct (place_root_children root Hnd) as [Hperm _]. cbv zeta in Hperm.
  destruct root as [id_ ttl d children lines_ w_ h_ x0 y0].
  apply rn_all_unfold in Hsized as [_ Hkids]. cbn [rn_children] in *.
  rewrite flat_unfold_id in Hasc. cbn [rn_children ascending] in Hasc.
  destruct Hasc as [_ Hasc]. apply ascending_children in Hasc as [Hids Hsub].
  unfold siblings_in_order. rewrite subnodes_unfold.
  destruct children as [|c cs].
  { cbn [place_root rn_children flat_map map]. constructor; [apply in_order_nil | constructor]. }
  specialize (Hperm ltac:(done)).
  destruct (split_sublists (c :: cs)) as [Hleft Hright].
  destruct (group_inherits _ _ Hleft Hkids Hids Hsub) as (Hl1 & Hl2 & Hl3).
  destruct (group_inherits _ _ Hright Hkids Hids Hsub) as (Hr1 & Hr2 & Hr3).
  destruct (place_side_siblings _ (-1) ltac:(by right) Hl1 Hl2 Hl3) as (Hlo & Hls & Hlx).
  destruct (place_side_siblings _ 1 ltac:(by left) Hr1 Hr2 Hr3) as (Hro & Hrs & Hrx).
  rewrite Forall_forall in Hlx, Hrx.
  constructor.
  - intros a b Ha Hb Hlt Hx.
    apply list_elem_of_fmap in Ha as (pa & Hpa & Ha).
    apply list_elem_of_fmap in Hb as (pb & Hpb & Hb).
    rewrite Hperm in Ha, Hb.
    apply elem_of_app in Ha as [Ha|Ha]; apply elem_of_app in Hb as [Hb|Hb].
    + apply Hlo; [subst a | subst b | |]; try (by apply list_elem_of_fmap_2); assumption.
    + exfalso. pose proof (Hlx _ Ha) as Hxa. pose proof (Hrx _ Hb) as Hxb.
      subst a b. destruct (positioned_fields pa) as [Hfa _].
      destruct (positioned_fields pb) as [Hfb _]. rewrite Hfa, Hfb in Hx.
      cbn beta in Hxa, Hxb. qlra.
    + exfalso. pose proof (Hrx _ Ha) as Hxa. pose proof (Hlx _ Hb) as Hxb.
      subst a b. destruct (positioned_fields pa) as [Hfa _].
      destruct (positioned_fields pb) as [Hfb _]. rewrite Hfa, Hfb in Hx.
      cbn beta in Hxa, Hxb. qlra.
    + apply Hro; [subst a | subst b | |]; try (by apply list_elem_of_fmap_2); assumption.
  - apply Forall_flat_map. change (Forall siblings_in_order
      (rn_children (place_root (MkRenderNode id_ ttl d (c :: cs) lines_ w_ h_ x0 y0)))).
    rewrite Hperm. apply Forall_app. by split.
Qed.

(** ** From the tree to the layout *)

Lemma flat_subnodes (p : _RenderNode Q) : flat p = map positioned (subnodes p).
Proof.
  induction p as [id_ ttl d children lines_ w_ h_ x0 y0 IH] using RenderNode_induction.
  rewrite flat_unfold, subnodes_unfold. cbn [rn_children map]. f_equal.
  induction IH as [|c cs Hc _ IHcs]; [done|].
  cbn [flat_map]. by rewrite map_app, Hc, IHcs.
Qed.

(** Every edge joins a node of the tree and one of its children. *)
Lemma edge_boxes_subnodes (p : _RenderNode Q) :
  Forall (fun e => exists m c : _RenderNode Q,
            m ∈ subnodes p /\ c ∈ rn_children m /\ e = (positioned m, positioned c))
    (edge_boxes p).
Proof.
  induction p as [id_ ttl d children lines_ w_ h_ x0 y0 IH] using RenderNode_induction.
  rewrite edge_boxes_unfold, subnodes_unfold. cbn [rn_children].
  set (node := MkRenderNode id_ ttl d children lines_ w_ h_ x0 y0).
  apply Forall_flat_map, Forall_forall. intros child Hchild. constructor.
  - exists node, child. split; [by left|]. by split.
  - rewrite Forall_forall in IH. eapply Forall_impl; [exact (IH child Hchild)|].
    cbn beta. intros e (m & c & Hm & Hc & ->). exists m, c. split; [|done].
    right. apply list_elem_of_In, in_flat_map. exists child.
    split; by apply list_elem_of_In.
Qed.

Lemma same_id_same_node (p m1 m2 : _RenderNode Q) :
  NoDup (map node_id (flat p)) ->
  m1 ∈ subnodes p -> m2 ∈ subnodes p -> rn_id m1 = rn_id m2 -> m1 = m2.
Proof.
  rewrite flat_subnodes. intros Hnd H1 H2 Hid.
  apply list_elem_of_lookup in H1 as [i Hi]. apply list_elem_of_lookup in H2 as [j Hj].
  assert (Hij : i = j).
  { apply (NoDup_lookup _ i j (rn_id m1) Hnd).
    - by rewrite !list_lookup_fmap, Hi; cbn; rewrite positioned_id.
    - by rewrite !list_lookup_fmap, Hj; cbn; rewrite positioned_id, Hid. }
  subst j. congruence.
Qed.

Lemma shift_node_box (sx sy : Q) (b : PositionedNode Q) :
  x (shift_node sx sy b) = x b + sx
  /\ box_top (shift_node sx sy b) == box_top b + sy
  /\ box_bottom (shift_node sx sy b) == box_bottom b + sy.
Proof.
  unfold box_top, box_bottom. cbn [shift_node x y height].
  split; [reflexivity|]. split; qlra.
Qed.

(** X21: siblings stand in document order.  Of two children of one node
    that are in the same column, the one that comes first in the
    document has its box 22 or more above the box of the other.  (The
    children of the root are in two columns, all others in one.) *)
Theorem siblings_in_document_order (t : MindMapNode) :
  exists layout : MindMapLayout Q,
    _compute_layout t = Ok layout
    /\ forall (parent first second : nat) (a b : PositionedNode Q),
         (parent, first) ∈ edges layout -> (parent, second) ∈ edges layout ->
         (first < second)%nat ->
         nodes layout !! first = Some a -> nodes layout !! second = Some b ->
         x a == x b ->
         box_bottom a + 22 <= box_top b.
Proof.
  destruct (layout_placed t)
    as (root & sx & sy & cw & ch & Hdec & Hnd & Hids & Hsized & Hlayout).
  assert (Hasc : ascending (map node_id (flat root))).
  { destruct (place_root_preserved root Hnd) as (_ & Hinfo & _).
    rewrite <- (info_ids _ _ Hinfo), Hids. apply ascending_seq. }
  pose proof (place_root_siblings root Hsized Hasc Hnd) as Hord.
  assert (Hnd' : NoDup (map node_id (flat (place_root root))))
    by (rewrite Hids; apply NoDup_seq).
  pose proof (edge_boxes_in (place_root root)) as Hin.
  pose proof (edge_boxes_subnodes (place_root root)) as Hsub.
  eexists. split; [exact Hlayout|]. cbn [nodes edges].
  intros parent first second a b H1 H2 Hlt Ha Hb Hx.
  rewrite <- edge_boxes_ids in H1, H2.
  apply list_elem_of_fmap in H1 as (e1 & He1 & Hin1).
  apply list_elem_of_fmap in H2 as (e2 & He2 & Hin2).
  rewrite Forall_forall in Hin, Hsub.
  destruct (Hin _ Hin1) as [_ Hc1]. destruct (Hin _ Hin2) as [_ Hc2].
  destruct (Hsub _ Hin1) as (m1 & c1 & Hm1 & Hk1 & ->).
  destruct (Hsub _ Hin2) as (m2 & c2 & Hm2 & Hk2 & ->).
  cbn [fst snd] in *. rewrite !positioned_id in He1, He2.
  injection He1 as Hp1 Hf1. injection He2 as Hp2 Hf2.
  assert (m2 = m1) as -> by (apply (same_id_same_node (place_root root)); congruence).
  rewrite list_lookup_fmap in Ha, Hb.
  rewrite Hf1, <- (positioned_id c1), (lookup_by_id _ _ _ Hids Hc1) in Ha.
  rewrite Hf2, <- (positioned_id c2), (lookup_by_id _ _ _ Hids Hc2) in Hb.
  cbn in Ha, Hb. injection Ha as <-. injection Hb as <-.
  destruct (shift_node_box sx sy (positioned c1)) as (Hx1 & _ & Hb1).
  destruct (shift_node_box sx sy (positioned c2)) as (Hx2 & Ht2 & _).
  rewrite Hx1, Hx2 in Hx. rewrite Hb1, Ht2.
  unfold siblings_in_order in Hord. rewrite Forall_forall in Hord.
  assert (Hgoal : box_bottom (positioned c1) + 22 <= box_top (positioned c2)).
  { apply (Hord m1 Hm1); [by apply list_elem_of_fmap_2 | by apply list_elem_of_fmap_2 | |].
    - rewrite !positioned_id. lia.
    - lra. }
  lra.
Qed.
